(** * An unscented Kalman filter for radar/lidar fusion: [src/ukf.cpp]

    A shallow embedding of the class [UKF] (constructor, [ProcessMeasurement],
    [Prediction], [UpdateLidar], [UpdateRadar]) and the properties of it that
    the specification states.

    The embedding is generic in the arithmetic of C++ [double]: every
    operator and every call into the C library or into Eigen that the source
    writes is an operation of an interface ([Num.Arith], [Num.Libm],
    [Num.Single], [Num.Cholesky], [Num.Inverse]).  Control-flow properties are
    proved once for every arithmetic.  Properties about values are proved on
    the instance of exact real arithmetic ([RealModel]), where rounding is
    idealised away; a second instance ([Binary64]) runs the lidar update and
    the first radar measurement on IEEE 754 binary64 numbers, where
    infinities, NaN and the narrowing to [float] exist, and [Rounding] relates
    binary64 numbers to the real numbers they denote. *)

From Stdlib Require Import ZArith QArith List Bool Lia.
From Stdlib Require Import FunctionalExtensionality.
From Stdlib Require Reals Lra Psatz Qreals.
From Stdlib Require PrimFloat Uint63 SpecFloat FloatOps.
Import ListNotations.

Close Scope Q_scope.
Set Implicit Arguments.

(** ** The arithmetic the source relies on *)

Module Num.

(** [double] with the operators of C++ and the IEEE functions of [<cmath>]. *)
Class Arith (D : Type) := {
  of_Z : Z -> D;           (* conversion of an integer (int, long long) *)
  lit : Q -> D;            (* a decimal literal of the source text *)
  add : D -> D -> D;
  sub : D -> D -> D;
  mul : D -> D -> D;
  div : D -> D -> D;
  opp : D -> D;
  sqrt : D -> D;
  fabs : D -> D;
  ltb : D -> D -> bool     (* [a < b]; [a > b] is [ltb b a] *)
}.

(** The transcendental functions of the C library, on [double]. *)
Class Libm (D : Type) := {
  sin : D -> D;
  cos : D -> D;
  atan2 : D -> D -> D
}.

(** C++ [float]: its values are kept as the [double]s they convert to.
    [to_float] is the narrowing conversion of an initialisation
    [float f = d], [sinf] and [cosf] are the [float] overloads of [sin] and
    [cos] that a [float] argument selects. *)
Class Single (D : Type) := {
  to_float : D -> D;
  sinf : D -> D;
  cosf : D -> D
}.

(** Eigen's [M.llt().matrixL()] on an [n] by [n] matrix. *)
Class Cholesky (D : Type) := llt_matrixL : nat -> (nat -> nat -> D) -> (nat -> nat -> D).

(** Eigen's [M.inverse()] on an [n] by [n] matrix.  Eigen does not test
    invertibility: on a singular matrix the coefficients it returns are
    unspecified. *)
Class Inverse (D : Type) := inverse : nat -> (nat -> nat -> D) -> (nat -> nat -> D).

End Num.

Import Num.

Arguments of_Z {D _} _%_Z.
Arguments lit {D _} _%_Q.

Declare Scope double_scope.
Delimit Scope double_scope with D.
Infix "+" := add : double_scope.
Infix "-" := sub : double_scope.
Infix "*" := mul : double_scope.
Infix "/" := div : double_scope.
Notation "- x" := (opp x) : double_scope.
Notation "a <? b" := (ltb a b) : double_scope.
Notation "a >? b" := (ltb b a) : double_scope.

(** A counted loop [for (int i = 0; i < n; i++) body], on the state [S] of the
    variables it assigns. *)
Definition for_loop {S : Type} (n : nat) (body : nat -> S -> S) (s : S) : S :=
  fold_left (fun acc i => body i acc) (seq 0 n) s.

(** ** Dense vectors and matrices *)

Module Eigen.
Section Dense.

Context {D : Type} {A : Arith D}.
Local Open Scope double_scope.

(** The storage of a [VectorXd] or [MatrixXd] that the filter owns: a
    coefficient for every index.  The shapes are fixed by the constructor
    (x_: 5, P_: 5x5, weights_: 15, Xsig_pred_: 5x15) and never change; the
    operations below take the shapes they need as arguments. *)
Definition VectorXd := nat -> D.
Definition MatrixXd := nat -> nat -> D.

(** [v(i) = a] *)
Definition vset (v : VectorXd) (i : nat) (a : D) : VectorXd :=
  fun k => if Nat.eqb k i then a else v k.

(** [M(r, c) = a] *)
Definition mset (M : MatrixXd) (r c : nat) (a : D) : MatrixXd :=
  fun i j => if Nat.eqb i r && Nat.eqb j c then a else M i j.

(** [M.col(c)], and [M.col(c) = v] on a matrix of [n] rows. *)
Definition col (M : MatrixXd) (c : nat) : VectorXd := fun i => M i c.
Definition set_col (n : nat) (M : MatrixXd) (c : nat) (v : VectorXd) : MatrixXd :=
  fun i j => if Nat.ltb i n && Nat.eqb j c then v i else M i j.

(** [v.fill(a)], [M.fill(a)] *)
Definition vfill (a : D) : VectorXd := fun _ => a.
Definition mfill (a : D) : MatrixXd := fun _ _ => a.

(** The comma initialiser [v << a, b, ...] and [M << ...] (row by row). *)
Definition vcomma (l : list D) : VectorXd := fun i => nth i l (of_Z 0).
Definition mcomma (rows : list (list D)) : MatrixXd :=
  fun i j => nth j (nth i rows []) (of_Z 0).

(** [v.head(n) = w] *)
Definition set_head (n : nat) (v w : VectorXd) : VectorXd :=
  fun i => if Nat.ltb i n then w i else v i.

(** [M.topLeftCorner(r, c) = N] *)
Definition set_topLeftCorner (r c : nat) (M N : MatrixXd) : MatrixXd :=
  fun i j => if Nat.ltb i r && Nat.ltb j c then N i j else M i j.

Definition Identity : MatrixXd :=
  fun i j => if Nat.eqb i j then of_Z 1 else of_Z 0.

Definition vadd (v w : VectorXd) : VectorXd := fun i => v i + w i.
Definition vsub (v w : VectorXd) : VectorXd := fun i => v i - w i.
Definition vscale (a : D) (v : VectorXd) : VectorXd := fun i => a * v i.
Definition madd (M N : MatrixXd) : MatrixXd := fun i j => M i j + N i j.
Definition msub (M N : MatrixXd) : MatrixXd := fun i j => M i j - N i j.
Definition transpose (M : MatrixXd) : MatrixXd := fun i j => M j i.

(** The sum of [f 0 .. f (n-1)], accumulated from zero in index order. *)
Definition sum_upto (n : nat) (f : nat -> D) : D :=
  for_loop n (fun k acc => acc + f k) (of_Z 0).

(** Products, with [k] the inner dimension. *)
Definition mmul (k : nat) (M N : MatrixXd) : MatrixXd :=
  fun i j => sum_upto k (fun l => M i l * N l j).
Definition mvmul (k : nat) (M : MatrixXd) (v : VectorXd) : VectorXd :=
  fun i => sum_upto k (fun l => M i l * v l).
Definition dot (k : nat) (v w : VectorXd) : D :=
  sum_upto k (fun l => v l * w l).

(** [v * w.transpose()] *)
Definition outer (v w : VectorXd) : MatrixXd := fun i j => v i * w j.

End Dense.
End Eigen.

Import Eigen.

(** A counted loop that starts at [lo]: [for (int i = lo; i < hi; i++) body]. *)
Definition for_range {S : Type} (lo hi : nat) (body : nat -> S -> S) (s : S) : S :=
  fold_left (fun acc i => body i acc) (seq lo (hi - lo)) s.

(** ** The filter *)

Section Filter.

Context {D : Type}.

(** Modelled from the spec: the declarations of [measurement_package.h] are
    not part of the sources.  A measurement carries a sensor tag (RADAR or
    LASER), the raw values as a [VectorXd] whose size the caller chose
    (3 for radar, 2 for lidar) and a timestamp in microseconds. *)
Inductive SensorType := LASER | RADAR.

Record MeasurementPackage := {
  timestamp_ : Z;
  sensor_type_ : SensorType;
  raw_measurements_ : list D
}.

(** The members of [UKF], in the order the constructor assigns them;
    [lambda_] is first assigned by [Prediction].  The class declaration
    ([ukf.h]) is not part of the sources: the types are those the uses in
    [ukf.cpp] fix ([bool] flags, [VectorXd] and [MatrixXd] storage, [double]
    scalars, [lambda_] among them).  [int] and [long long] members are
    integers: the code never brings them near their bounds. *)
Record UKF := {
  is_initialized_ : bool;
  use_laser_ : bool;
  use_radar_ : bool;
  x_ : @VectorXd D;
  P_ : @MatrixXd D;
  std_a_ : D;
  std_yawdd_ : D;
  std_laspx_ : D;
  std_laspy_ : D;
  std_radr_ : D;
  std_radphi_ : D;
  std_radrd_ : D;
  time_us_ : Z;
  n_x_ : Z;
  n_aug_ : Z;
  weights_ : @VectorXd D;
  Xsig_pred_ : @MatrixXd D;
  NIS_laser_ : D;
  NIS_radar_ : D;
  lambda_ : D
}.

(** Assignments to one member. *)
Definition set_is_initialized_ (b : bool) (u : UKF) : UKF :=
  {| is_initialized_ := b; use_laser_ := use_laser_ u; use_radar_ := use_radar_ u;
     x_ := x_ u; P_ := P_ u; std_a_ := std_a_ u; std_yawdd_ := std_yawdd_ u;
     std_laspx_ := std_laspx_ u; std_laspy_ := std_laspy_ u; std_radr_ := std_radr_ u;
     std_radphi_ := std_radphi_ u; std_radrd_ := std_radrd_ u; time_us_ := time_us_ u;
     n_x_ := n_x_ u; n_aug_ := n_aug_ u; weights_ := weights_ u;
     Xsig_pred_ := Xsig_pred_ u; NIS_laser_ := NIS_laser_ u; NIS_radar_ := NIS_radar_ u;
     lambda_ := lambda_ u |}.

Definition set_use_laser_ (b : bool) (u : UKF) : UKF :=
  {| is_initialized_ := is_initialized_ u; use_laser_ := b; use_radar_ := use_radar_ u;
     x_ := x_ u; P_ := P_ u; std_a_ := std_a_ u; std_yawdd_ := std_yawdd_ u;
     std_laspx_ := std_laspx_ u; std_laspy_ := std_laspy_ u; std_radr_ := std_radr_ u;
     std_radphi_ := std_radphi_ u; std_radrd_ := std_radrd_ u; time_us_ := time_us_ u;
     n_x_ := n_x_ u; n_aug_ := n_aug_ u; weights_ := weights_ u;
     Xsig_pred_ := Xsig_pred_ u; NIS_laser_ := NIS_laser_ u; NIS_radar_ := NIS_radar_ u;
     lambda_ := lambda_ u |}.

Definition set_use_radar_ (b : bool) (u : UKF) : UKF :=
  {| is_initialized_ := is_initialized_ u; use_laser_ := use_laser_ u; use_radar_ := b;
     x_ := x_ u; P_ := P_ u; std_a_ := std_a_ u; std_yawdd_ := std_yawdd_ u;
     std_laspx_ := std_laspx_ u; std_laspy_ := std_laspy_ u; std_radr_ := std_radr_ u;
     std_radphi_ := std_radphi_ u; std_radrd_ := std_radrd_ u; time_us_ := time_us_ u;
     n_x_ := n_x_ u; n_aug_ := n_aug_ u; weights_ := weights_ u;
     Xsig_pred_ := Xsig_pred_ u; NIS_laser_ := NIS_laser_ u; NIS_radar_ := NIS_radar_ u;
     lambda_ := lambda_ u |}.

Definition set_x_ (v : VectorXd) (u : UKF) : UKF :=
  {| is_initialized_ := is_initialized_ u; use_laser_ := use_laser_ u;
     use_radar_ := use_radar_ u;
     x_ := v; P_ := P_ u; std_a_ := std_a_ u; std_yawdd_ := std_yawdd_ u;
     std_laspx_ := std_laspx_ u; std_laspy_ := std_laspy_ u; std_radr_ := std_radr_ u;
     std_radphi_ := std_radphi_ u; std_radrd_ := std_radrd_ u; time_us_ := time_us_ u;
     n_x_ := n_x_ u; n_aug_ := n_aug_ u; weights_ := weights_ u;
     Xsig_pred_ := Xsig_pred_ u; NIS_laser_ := NIS_laser_ u; NIS_radar_ := NIS_radar_ u;
     lambda_ := lambda_ u |}.

Definition set_P_ (M : MatrixXd) (u : UKF) : UKF :=
  {| is_initialized_ := is_initialized_ u; use_laser_ := use_laser_ u;
     use_radar_ := use_radar_ u;
     x_ := x_ u; P_ := M; std_a_ := std_a_ u; std_yawdd_ := std_yawdd_ u;
     std_laspx_ := std_laspx_ u; std_laspy_ := std_laspy_ u; std_radr_ := std_radr_ u;
     std_radphi_ := std_radphi_ u; std_radrd_ := std_radrd_ u; time_us_ := time_us_ u;
     n_x_ := n_x_ u; n_aug_ := n_aug_ u; weights_ := weights_ u;
     Xsig_pred_ := Xsig_pred_ u; NIS_laser_ := NIS_laser_ u; NIS_radar_ := NIS_radar_ u;
     lambda_ := lambda_ u |}.

Definition set_time_us_ (t : Z) (u : UKF) : UKF :=
  {| is_initialized_ := is_initialized_ u; use_laser_ := use_laser_ u;
     use_radar_ := use_radar_ u;
     x_ := x_ u; P_ := P_ u; std_a_ := std_a_ u; std_yawdd_ := std_yawdd_ u;
     std_laspx_ := std_laspx_ u; std_laspy_ := std_laspy_ u; std_radr_ := std_radr_ u;
     std_radphi_ := std_radphi_ u; std_radrd_ := std_radrd_ u; time_us_ := t;
     n_x_ := n_x_ u; n_aug_ := n_aug_ u; weights_ := weights_ u;
     Xsig_pred_ := Xsig_pred_ u; NIS_laser_ := NIS_laser_ u; NIS_radar_ := NIS_radar_ u;
     lambda_ := lambda_ u |}.

Definition set_weights_ (w : VectorXd) (u : UKF) : UKF :=
  {| is_initialized_ := is_initialized_ u; use_laser_ := use_laser_ u;
     use_radar_ := use_radar_ u;
     x_ := x_ u; P_ := P_ u; std_a_ := std_a_ u; std_yawdd_ := std_yawdd_ u;
     std_laspx_ := std_laspx_ u; std_laspy_ := std_laspy_ u; std_radr_ := std_radr_ u;
     std_radphi_ := std_radphi_ u; std_radrd_ := std_radrd_ u; time_us_ := time_us_ u;
     n_x_ := n_x_ u; n_aug_ := n_aug_ u; weights_ := w;
     Xsig_pred_ := Xsig_pred_ u; NIS_laser_ := NIS_laser_ u; NIS_radar_ := NIS_radar_ u;
     lambda_ := lambda_ u |}.

Definition set_Xsig_pred_ (M : MatrixXd) (u : UKF) : UKF :=
  {| is_initialized_ := is_initialized_ u; use_laser_ := use_laser_ u;
     use_radar_ := use_radar_ u;
     x_ := x_ u; P_ := P_ u; std_a_ := std_a_ u; std_yawdd_ := std_yawdd_ u;
     std_laspx_ := std_laspx_ u; std_laspy_ := std_laspy_ u; std_radr_ := std_radr_ u;
     std_radphi_ := std_radphi_ u; std_radrd_ := std_radrd_ u; time_us_ := time_us_ u;
     n_x_ := n_x_ u; n_aug_ := n_aug_ u; weights_ := weights_ u;
     Xsig_pred_ := M; NIS_laser_ := NIS_laser_ u; NIS_radar_ := NIS_radar_ u;
     lambda_ := lambda_ u |}.

Definition set_NIS_laser_ (a : D) (u : UKF) : UKF :=
  {| is_initialized_ := is_initialized_ u; use_laser_ := use_laser_ u;
     use_radar_ := use_radar_ u;
     x_ := x_ u; P_ := P_ u; std_a_ := std_a_ u; std_yawdd_ := std_yawdd_ u;
     std_laspx_ := std_laspx_ u; std_laspy_ := std_laspy_ u; std_radr_ := std_radr_ u;
     std_radphi_ := std_radphi_ u; std_radrd_ := std_radrd_ u; time_us_ := time_us_ u;
     n_x_ := n_x_ u; n_aug_ := n_aug_ u; weights_ := weights_ u;
     Xsig_pred_ := Xsig_pred_ u; NIS_laser_ := a; NIS_radar_ := NIS_radar_ u;
     lambda_ := lambda_ u |}.

Definition set_NIS_radar_ (a : D) (u : UKF) : UKF :=
  {| is_initialized_ := is_initialized_ u; use_laser_ := use_laser_ u;
     use_radar_ := use_radar_ u;
     x_ := x_ u; P_ := P_ u; std_a_ := std_a_ u; std_yawdd_ := std_yawdd_ u;
     std_laspx_ := std_laspx_ u; std_laspy_ := std_laspy_ u; std_radr_ := std_radr_ u;
     std_radphi_ := std_radphi_ u; std_radrd_ := std_radrd_ u; time_us_ := time_us_ u;
     n_x_ := n_x_ u; n_aug_ := n_aug_ u; weights_ := weights_ u;
     Xsig_pred_ := Xsig_pred_ u; NIS_laser_ := NIS_laser_ u; NIS_radar_ := a;
     lambda_ := lambda_ u |}.

Definition set_lambda_ (a : D) (u : UKF) : UKF :=
  {| is_initialized_ := is_initialized_ u; use_laser_ := use_laser_ u;
     use_radar_ := use_radar_ u;
     x_ := x_ u; P_ := P_ u; std_a_ := std_a_ u; std_yawdd_ := std_yawdd_ u;
     std_laspx_ := std_laspx_ u; std_laspy_ := std_laspy_ u; std_radr_ := std_radr_ u;
     std_radphi_ := std_radphi_ u; std_radrd_ := std_radrd_ u; time_us_ := time_us_ u;
     n_x_ := n_x_ u; n_aug_ := n_aug_ u; weights_ := weights_ u;
     Xsig_pred_ := Xsig_pred_ u; NIS_laser_ := NIS_laser_ u; NIS_radar_ := NIS_radar_ u;
     lambda_ := a |}.

(** *** Calls, failures and the monad of a member function *)

(** The member functions [ProcessMeasurement] calls, with their arguments:
    each records its own invocation when it is entered. *)
Inductive Call :=
| CallPrediction (delta_t : D)
| CallUpdateLidar (meas_package : MeasurementPackage)
| CallUpdateRadar (meas_package : MeasurementPackage).

(** Eigen checks indices and operand sizes with [eigen_assert]; a failed
    assertion aborts the program, and nothing of the filter is left. *)
Inductive result (A : Type) : Type :=
| Ok (a : A)
| Abort.
Arguments Abort {A}.

(** A member function: from the object before the call to the calls made
    and either the value returned with the object after it, or an abort. *)
Definition M (A : Type) : Type := UKF -> list Call * result (A * UKF).

Definition ret {A} (a : A) : M A := fun u => ([], Ok (a, u)).

Definition bind {A B} (m : M A) (f : A -> M B) : M B :=
  fun u =>
    match m u with
    | (t, Ok (a, u')) => let (t', r) := f a u' in (t ++ t', r)
    | (t, Abort) => (t, Abort)
    end.

Definition get : M UKF := fun u => ([], Ok (u, u)).
Definition modify (f : UKF -> UKF) : M unit := fun u => ([], Ok (tt, f u)).
Definition enter (c : Call) : M unit := fun u => ([c], Ok (tt, u)).
Definition eigen_assert (b : bool) : M unit :=
  fun u => ([], if b then Ok (tt, u) else Abort).

(** [v[i]] on a vector of the caller: the index is checked. *)
Definition coeff (v : list D) (i : nat) : M D :=
  fun u => ([], match nth_error v i with Some a => Ok (a, u) | None => Abort end).

(** What a call leaves: the calls made, and the object if it returned. *)
Definition calls {A} (r : list Call * result (A * UKF)) : list Call := fst r.
Definition final {A} (r : list Call * result (A * UKF)) : result UKF :=
  match snd r with Ok (_, u) => Ok u | Abort => Abort end.

End Filter.

Arguments MeasurementPackage D : clear implicits.
Arguments UKF D : clear implicits.
Arguments Call D : clear implicits.
Arguments M D A : clear implicits.
Arguments Abort {A}.

Notation "x <- m ;; k" := (bind m (fun x => k))
  (at level 61, m at next level, right associativity).
Notation "m ;; k" := (bind m (fun _ => k))
  (at level 61, right associativity).


Section Code.

Context {D : Type} {A : Arith D} {L : Libm D} {F : Single D}
        {Llt : Cholesky D} {Inv : Inverse D}.
Local Open Scope double_scope.

Local Abbreviation VectorXd := (@VectorXd D).
Local Abbreviation MatrixXd := (@MatrixXd D).

(** A [VectorXd] of the caller, read as storage. *)
Definition of_list (l : list D) : VectorXd := fun i => nth i l (of_Z 0).

(** Storage that the source allocates and does not initialise
    ([VectorXd(n)], [MatrixXd(r, c)]) for a local variable.  Every local of
    [Prediction] and [UpdateRadar] is assigned in full before it is read (for
    n_x_ = 5 and n_aug_ = 7), so its first contents show nowhere. *)
Definition VectorXd_new : VectorXd := vfill (of_Z 0).
Definition MatrixXd_new : MatrixXd := mfill (of_Z 0).

(** *** [UKF::UKF()], lines 14-73

    The constructor allocates [x_], [weights_] and [Xsig_pred_] without
    initialising them and does not assign [lambda_]: their first contents are
    whatever the memory held, the arguments here. *)
Definition UKF_ctor (x0 w0 : VectorXd) (X0 : MatrixXd) (lambda0 : D) : UKF D :=
  {| is_initialized_ := false;
     use_laser_ := true;
     use_radar_ := true;
     x_ := x0;
     P_ := mcomma
             [ [of_Z 1; of_Z 0; of_Z 0; of_Z 0; of_Z 0];
               [of_Z 0; of_Z 1; of_Z 0; of_Z 0; of_Z 0];
               [of_Z 0; of_Z 0; of_Z 1; of_Z 0; of_Z 0];
               [of_Z 0; of_Z 0; of_Z 0; of_Z 100; of_Z 0];
               [of_Z 0; of_Z 0; of_Z 0; of_Z 0; of_Z 100] ];
     std_a_ := lit 0.4;
     std_yawdd_ := lit 0.65;
     std_laspx_ := lit 0.15;
     std_laspy_ := lit 0.15;
     std_radr_ := lit 0.3;
     std_radphi_ := lit 0.03;
     std_radrd_ := lit 0.3;
     time_us_ := 0;
     n_x_ := 5;
     n_aug_ := 7;
     weights_ := w0;
     Xsig_pred_ := X0;
     NIS_laser_ := of_Z 0;
     NIS_radar_ := of_Z 0;
     lambda_ := lambda0 |}.

(** *** [UKF::Prediction], lines 137-214 *)

(** Lines 144-166: the augmented mean and covariance, the Cholesky factor and
    the matrix [Xsig_aug] of augmented sigma points. *)
Definition AugmentedSigmaPoints (u : UKF D) : MatrixXd :=
  let n_x := Z.to_nat (n_x_ u) in
  let n_aug := Z.to_nat (n_aug_ u) in
  let X_aug := VectorXd_new in
  let X_aug := set_head n_x X_aug (x_ u) in
  let X_aug := vset X_aug n_x (of_Z 0) in
  let X_aug := vset X_aug (n_x + 1) (of_Z 0) in
  let P_aug := mfill (lit 0.0) in
  let P_aug := set_topLeftCorner n_x n_x P_aug (P_ u) in
  let P_aug := mset P_aug 5 5 (std_a_ u * std_a_ u) in
  let P_aug := mset P_aug 6 6 (std_yawdd_ u * std_yawdd_ u) in
  let A_aug := llt_matrixL n_aug P_aug in
  let Xsig_aug := MatrixXd_new in
  let Xsig_aug := set_col n_aug Xsig_aug 0 X_aug in
  for_loop n_aug
    (fun i Xsig_aug =>
       let Xsig_aug :=
         set_col n_aug Xsig_aug (i + 1)
           (vadd X_aug (vscale (sqrt (lambda_ u + of_Z (n_aug_ u))) (col A_aug i))) in
       set_col n_aug Xsig_aug (i + 1 + n_aug)
         (vsub X_aug (vscale (sqrt (lambda_ u + of_Z (n_aug_ u))) (col A_aug i))))
    Xsig_aug.

(** Lines 170-192: the body of the loop that sends sigma point [i] through
    the process model. *)
Definition PredictSigmaPoint (delta_t : D) (Xsig_aug : MatrixXd) (i : nat)
    (Xsig_pred : MatrixXd) : MatrixXd :=
  let px := Xsig_aug 0 i in
  let py := Xsig_aug 1 i in
  let v := Xsig_aug 2 i in
  let yaw := Xsig_aug 3 i in
  let yawdot := Xsig_aug 4 i in
  let mu_a := Xsig_aug 5 i in
  let mu_yaw := Xsig_aug 6 i in
  let '(px_step, py_step) :=
    if fabs yawdot >? lit 0.001 then
      (v * (sin (yaw + yawdot * delta_t) - sin yaw) / yawdot,
       v * (- cos (yaw + yawdot * delta_t) + cos yaw) / yawdot)
    else
      (v * cos yaw * delta_t,
       v * sin yaw * delta_t) in
  let Xsig_pred :=
    mset Xsig_pred 0 i (px + px_step + lit 0.5 * delta_t * delta_t * cos yaw * mu_a) in
  let Xsig_pred :=
    mset Xsig_pred 1 i (py + py_step + lit 0.5 * delta_t * delta_t * sin yaw * mu_a) in
  let Xsig_pred := mset Xsig_pred 2 i (v + delta_t * mu_a) in
  let Xsig_pred :=
    mset Xsig_pred 3 i (yaw + yawdot * delta_t + lit 0.5 * delta_t * delta_t * mu_yaw) in
  mset Xsig_pred 4 i (yawdot + delta_t * mu_yaw).

(** Lines 196-199: the weights. *)
Definition SetWeights (u : UKF D) : UKF D :=
  let u := set_weights_
             (vset (weights_ u) 0 (lambda_ u / (lambda_ u + of_Z (n_aug_ u)))) u in
  for_range 1 (Z.to_nat (2 * n_aug_ u + 1))
    (fun i u =>
       set_weights_
         (vset (weights_ u) i (of_Z 1 / (of_Z 2 * (lambda_ u + of_Z (n_aug_ u))))) u)
    u.

(** The reduction of an angle that the source writes
    [atan2(sin(a), cos(a))]. *)
Definition normalize_angle (a : D) : D := atan2 (sin a) (cos a).

(** Lines 201-213: the predicted mean and covariance. *)
Definition PredictMeanAndCovariance (u : UKF D) : UKF D :=
  let n := Z.to_nat (2 * n_aug_ u + 1) in
  let u := set_x_ (vfill (lit 0.0)) u in
  let u :=
    for_loop n
      (fun i u => set_x_ (vadd (x_ u) (vscale (weights_ u i) (col (Xsig_pred_ u) i))) u)
      u in
  let u := set_P_ (mfill (lit 0.0)) u in
  for_loop n
    (fun i u =>
       let x_diff := vsub (col (Xsig_pred_ u) i) (x_ u) in
       let x_diff := vset x_diff 3 (normalize_angle (x_diff 3)) in
       set_P_ (madd (P_ u) (outer (vscale (weights_ u i) x_diff) x_diff)) u)
    u.

Definition Prediction (delta_t : D) : M D unit :=
  enter (CallPrediction delta_t) ;;
  modify (fun u => set_lambda_ (of_Z (3 - n_aug_ u)) u) ;;
  u <- get ;;
  let Xsig_aug := AugmentedSigmaPoints u in
  modify (fun u =>
            for_loop (Z.to_nat (2 * n_aug_ u + 1))
              (fun i u => set_Xsig_pred_ (PredictSigmaPoint delta_t Xsig_aug i (Xsig_pred_ u)) u)
              u) ;;
  modify SetWeights ;;
  modify PredictMeanAndCovariance.

(** *** [UKF::UpdateLidar], lines 220-246 *)
Definition UpdateLidar (meas_package : MeasurementPackage D) : M D unit :=
  enter (CallUpdateLidar meas_package) ;;
  u <- get ;;
  let H_ := mcomma [ [of_Z 1; of_Z 0; of_Z 0; of_Z 0; of_Z 0];
                     [of_Z 0; of_Z 1; of_Z 0; of_Z 0; of_Z 0] ] in
  (* the operands of [raw_measurements_ - H_*x_] must agree in size *)
  eigen_assert (Nat.eqb (length (raw_measurements_ meas_package)) 2) ;;
  let y := vsub (of_list (raw_measurements_ meas_package)) (mvmul 5 H_ (x_ u)) in
  let R_ := mcomma [ [std_laspx_ u * std_laspx_ u; of_Z 0];
                     [of_Z 0; std_laspy_ u * std_laspy_ u] ] in
  let S := madd (mmul 5 (mmul 5 H_ (P_ u)) (transpose H_)) R_ in
  let K_ := mmul 2 (mmul 5 (P_ u) (transpose H_)) (inverse 2 S) in
  modify (fun u => set_x_ (vadd (x_ u) (mvmul 2 K_ y)) u) ;;
  let I_ := Identity in
  modify (fun u => set_P_ (mmul 5 (msub I_ (mmul 2 K_ H_)) (P_ u)) u) ;;
  modify (set_NIS_laser_ (dot 2 (fun j => dot 2 y (col (inverse 2 S) j)) y)).

(** *** [UKF::UpdateRadar], lines 252-315 *)

(** Lines 257-263: the body of the first loop, on [Xsig_pred_] and the local
    [Zsig_pred]. *)
Definition RadarSigmaPoint (i : nat) (st : MatrixXd * MatrixXd) : MatrixXd * MatrixXd :=
  let '(Xsig_pred, Zsig_pred) := st in
  let Xsig_pred :=
    if (fabs (Xsig_pred 0 i) <? lit 0.001) && (fabs (Xsig_pred 1 i) <? lit 0.001)
    then mset (mset Xsig_pred 0 i (lit 0.01)) 1 i (lit 0.01)
    else Xsig_pred in
  let Zsig_pred :=
    mset Zsig_pred 0 i
      (sqrt (Xsig_pred 0 i * Xsig_pred 0 i + Xsig_pred 1 i * Xsig_pred 1 i)) in
  let Zsig_pred := mset Zsig_pred 1 i (atan2 (Xsig_pred 1 i) (Xsig_pred 0 i)) in
  let Zsig_pred :=
    mset Zsig_pred 2 i
      ((Xsig_pred 0 i * cos (Xsig_pred 3 i) * Xsig_pred 2 i
        + Xsig_pred 1 i * sin (Xsig_pred 3 i) * Xsig_pred 2 i) / Zsig_pred 0 i) in
  (Xsig_pred, Zsig_pred).

(** Lines 284-296: the body of the loop that accumulates [S_] and [T_]. *)
Definition RadarCovariances (u : UKF D) (Zsig_pred : MatrixXd) (z_pred : VectorXd)
    (i : nat) (st : MatrixXd * MatrixXd) : MatrixXd * MatrixXd :=
  let '(S_, T_) := st in
  let z_diff := vsub (col Zsig_pred i) z_pred in
  let z_diff := vset z_diff 1 (normalize_angle (z_diff 1)) in
  let S_ := madd S_ (outer (vscale (weights_ u i) z_diff) z_diff) in
  let x_diff := vsub (col (Xsig_pred_ u) i) (x_ u) in
  let x_diff := vset x_diff 3 (normalize_angle (x_diff 3)) in
  let T_ := madd T_ (outer (vscale (weights_ u i) x_diff) z_diff) in
  (S_, T_).

Definition UpdateRadar (meas_package : MeasurementPackage D) : M D unit :=
  enter (CallUpdateRadar meas_package) ;;
  u <- get ;;
  let n := Z.to_nat (2 * n_aug_ u + 1) in
  let '(Xsig_pred, Zsig_pred) := for_loop n RadarSigmaPoint (Xsig_pred_ u, MatrixXd_new) in
  modify (set_Xsig_pred_ Xsig_pred) ;;
  u <- get ;;
  let z_pred := vfill (lit 0.0) in
  let z_pred :=
    for_loop n (fun i z_pred => vadd z_pred (vscale (weights_ u i) (col Zsig_pred i)))
      z_pred in
  let R_ := mcomma [ [std_radr_ u * std_radr_ u; of_Z 0; of_Z 0];
                     [of_Z 0; std_radphi_ u * std_radphi_ u; of_Z 0];
                     [of_Z 0; of_Z 0; std_radrd_ u * std_radrd_ u] ] in
  let '(S_, T_) :=
    for_loop n (RadarCovariances u Zsig_pred z_pred) (mfill (lit 0.0), mfill (lit 0.0)) in
  let S_ := madd S_ R_ in
  let K_ := mmul 3 T_ (inverse 3 S_) in
  (* the operands of [raw_measurements_ - z_pred] must agree in size *)
  eigen_assert (Nat.eqb (length (raw_measurements_ meas_package)) 3) ;;
  let z_diff := vsub (of_list (raw_measurements_ meas_package)) z_pred in
  let z_diff := vset z_diff 1 (normalize_angle (z_diff 1)) in
  modify (fun u => set_x_ (vadd (x_ u) (mvmul 3 K_ z_diff)) u) ;;
  modify (fun u => set_P_ (msub (P_ u) (mmul 3 (mmul 3 K_ S_) (transpose K_))) u) ;;
  modify (set_NIS_radar_ (dot 3 (fun j => dot 3 z_diff (col (inverse 3 S_) j)) z_diff)).

(** *** [UKF::ProcessMeasurement], lines 81-130 *)
Definition ProcessMeasurement (meas_package : MeasurementPackage D) : M D unit :=
  u <- get ;;
  if negb (is_initialized_ u) then
    match sensor_type_ meas_package with
    | RADAR =>
        rho <- coeff (raw_measurements_ meas_package) 0 ;;
        let rho := to_float rho in
        phi <- coeff (raw_measurements_ meas_package) 1 ;;
        let phi := to_float phi in
        rhodot <- coeff (raw_measurements_ meas_package) 2 ;;
        let rhodot := to_float rhodot in
        let px := to_float (rho * cosf phi) in
        let py := to_float (rho * sinf phi) in
        modify (set_x_ (vcomma [px; py; rhodot; phi; of_Z 0])) ;;
        modify (set_use_radar_ false)
    | LASER =>
        m0 <- coeff (raw_measurements_ meas_package) 0 ;;
        m1 <- coeff (raw_measurements_ meas_package) 1 ;;
        modify (set_x_ (vcomma [m0; m1; of_Z 0; of_Z 0; of_Z 0])) ;;
        modify (set_use_laser_ false)
    end ;;
    modify (set_time_us_ (timestamp_ meas_package)) ;;
    modify (set_is_initialized_ true) ;;
    ret tt
  else
    let dt := of_Z (timestamp_ meas_package - time_us_ u) / lit 1000000.0 in
    modify (set_time_us_ (timestamp_ meas_package)) ;;
    Prediction dt ;;
    u <- get ;;
    if use_laser_ u then
      UpdateLidar meas_package ;;
      modify (set_use_laser_ false) ;;
      modify (set_use_radar_ true) ;;
      ret tt
    else
      u <- get ;;
      if use_radar_ u then
        UpdateRadar meas_package ;;
        modify (set_use_radar_ false) ;;
        modify (set_use_laser_ true) ;;
        ret tt
      else
        ret tt.

End Code.

(** *** The states a program can bring the filter to

    A program constructs the filter and then calls [ProcessMeasurement] once
    per measurement; a call that aborts ends the program. *)
Section Vocabulary.

Context {D : Type} {A : Arith D} {L : Libm D} {F : Single D}
        {Llt : Cholesky D} {Inv : Inverse D}.

Inductive reachable : UKF D -> Prop :=
| reachable_ctor x0 w0 X0 lambda0 :
    reachable (UKF_ctor x0 w0 X0 lambda0)
| reachable_call u meas_package u' :
    reachable u ->
    final (ProcessMeasurement meas_package u) = Ok u' ->
    reachable u'.

(** The test of line 257 on sigma point [i] of a matrix. *)
Definition near_origin (X : @MatrixXd D) (i : nat) : bool :=
  ((fabs (X 0%nat i) <? lit 0.001) && (fabs (X 1%nat i) <? lit 0.001))%D.

(** The matrices of [UpdateLidar]: [H_] (lines 222-224), the innovation
    covariance [S] (line 233) and the gain [K_] (line 235). *)
Definition LidarH : @MatrixXd D :=
  mcomma [ [of_Z 1; of_Z 0; of_Z 0; of_Z 0; of_Z 0];
           [of_Z 0; of_Z 1; of_Z 0; of_Z 0; of_Z 0] ].

Definition LidarS (u : UKF D) : @MatrixXd D :=
  let R_ := mcomma [ [std_laspx_ u * std_laspx_ u; of_Z 0];
                     [of_Z 0; std_laspy_ u * std_laspy_ u] ]%D in
  madd (mmul 5 (mmul 5 LidarH (P_ u)) (transpose LidarH)) R_.

Definition LidarK (u : UKF D) : @MatrixXd D :=
  mmul 2 (mmul 5 (P_ u) (transpose LidarH)) (inverse 2 (LidarS u)).

(** The members that only [ProcessMeasurement] and the constructor assign. *)
Definition same_control (u u' : UKF D) : Prop :=
  is_initialized_ u' = is_initialized_ u /\
  use_laser_ u' = use_laser_ u /\
  use_radar_ u' = use_radar_ u /\
  time_us_ u' = time_us_ u /\
  n_x_ u' = n_x_ u /\
  n_aug_ u' = n_aug_ u.

(** Line 105: the elapsed time handed to [Prediction]. *)
Definition elapsed (m : MeasurementPackage D) (u : UKF D) : D :=
  (of_Z (timestamp_ m - time_us_ u) / lit 1000000.0)%D.

(** What a call that returned has left in the control members. *)
Definition left_with (u' : UKF D) (laser radar : bool) (t : Z) : Prop :=
  is_initialized_ u' = true /\ use_laser_ u' = laser /\ use_radar_ u' = radar /\
  time_us_ u' = t.

(** [Xsig_pred_] after the first loop of [UpdateRadar] over [n] sigma points:
    px and py of a sigma point near the origin are 0.01, all else is as
    before. *)
Definition clamped (X : @MatrixXd D) (n : nat) : @MatrixXd D :=
  fun r c =>
    if Nat.ltb c n && near_origin X c && Nat.ltb r 2 then lit 0.01 else X r c.

(** The local [Zsig_pred] after that loop, from the sigma points [X] as the
    loop left them: range, bearing and range rate in rows 0, 1 and 2. *)
Definition measurement_space (X Z0 : @MatrixXd D) (n : nat) : @MatrixXd D :=
  fun r c =>
    if Nat.ltb c n then
      let rho := sqrt (X 0%nat c * X 0%nat c + X 1%nat c * X 1%nat c)%D in
      match r with
      | 0%nat => rho
      | 1%nat => atan2 (X 1%nat c) (X 0%nat c)
      | 2%nat => ((X 0%nat c * cos (X 3%nat c) * X 2%nat c
                   + X 1%nat c * sin (X 3%nat c) * X 2%nat c) / rho)%D
      | _ => Z0 r c
      end
    else Z0 r c.

(** The quantities of [UpdateRadar] on the filter [u]: the number of sigma
    points, [Zsig_pred], [z_pred] (lines 267-271), the sums [S_] and [T_] of
    the second loop, [S_ + R_] (line 297) and the gain [K_] (line 300). *)
Definition RadarN (u : UKF D) : nat := Z.to_nat (2 * n_aug_ u + 1).

Definition RadarZsig (u : UKF D) : @MatrixXd D :=
  measurement_space (clamped (Xsig_pred_ u) (RadarN u)) MatrixXd_new (RadarN u).

Definition RadarZpred (u : UKF D) : @VectorXd D :=
  for_loop (RadarN u)
    (fun i z_pred => vadd z_pred (vscale (weights_ u i) (col (RadarZsig u) i)))
    (vfill (lit 0.0)).

Definition RadarST (u : UKF D) : @MatrixXd D * @MatrixXd D :=
  for_loop (RadarN u)
    (RadarCovariances (set_Xsig_pred_ (clamped (Xsig_pred_ u) (RadarN u)) u)
       (RadarZsig u) (RadarZpred u))
    (mfill (lit 0.0), mfill (lit 0.0)).

Definition RadarS (u : UKF D) : @MatrixXd D :=
  let R_ := mcomma [ [std_radr_ u * std_radr_ u; of_Z 0; of_Z 0];
                     [of_Z 0; std_radphi_ u * std_radphi_ u; of_Z 0];
                     [of_Z 0; of_Z 0; std_radrd_ u * std_radrd_ u] ]%D in
  madd (fst (RadarST u)) R_.

Definition RadarK (u : UKF D) : @MatrixXd D :=
  mmul 3 (snd (RadarST u)) (inverse 3 (RadarS u)).

(** The members that the constructor sets once and for all: the dimensions
    and the seven noise standard deviations. *)
Definition config (u : UKF D) : Z * Z * (D * D) * (D * D) * (D * D * D) :=
  (n_x_ u, n_aug_ u, (std_a_ u, std_yawdd_ u), (std_laspx_ u, std_laspy_ u),
   (std_radr_ u, std_radphi_ u, std_radrd_ u)).

(** A measurement that has the number of values of its sensor: two for
    lidar, three for radar. *)
Definition well_sized (m : MeasurementPackage D) : Prop :=
  length (raw_measurements_ m) =
  match sensor_type_ m with LASER => 2%nat | RADAR => 3%nat end.

(** The sensor whose update the flags select on an initialised filter. *)
Definition selected_sensor (u : UKF D) : SensorType :=
  if use_laser_ u then LASER else RADAR.


(** A matrix that equals its transpose on its first [n] rows and columns. *)
Definition symmetric (n : nat) (M : @MatrixXd D) : Prop :=
  forall i j, (i < n)%nat -> (j < n)%nat -> M i j = M j i.


End Vocabulary.

(** ** Reference algorithms for the dense linear algebra

    Eigen is not part of the sources.  Where a closed example needs a
    Cholesky factor or an inverse, these textbook algorithms stand in for it;
    every general theorem below holds for any implementation. *)
Module Textbook.
Section Algorithms.

Context {D : Type} {A : Arith D}.
Local Open Scope double_scope.

(** Cholesky-Banachiewicz, column by column: the lower factor of [M]. *)
Definition cholesky_lower (n : nat) (M : @MatrixXd D) : @MatrixXd D :=
  for_loop n
    (fun j Lo =>
       let d := sqrt (M j j - sum_upto j (fun k => Lo j k * Lo j k)) in
       let Lo := mset Lo j j d in
       for_range (j + 1) n
         (fun i Lo' => mset Lo' i j ((M i j - sum_upto j (fun k => Lo i k * Lo j k)) / d))
         Lo)
    (mfill (of_Z 0)).

Definition swap_rows (M : @MatrixXd D) (a b : nat) : @MatrixXd D :=
  fun i j => if Nat.eqb i a then M b j else if Nat.eqb i b then M a j else M i j.

(** The row at or below [k] whose entry in column [k] is largest in
    magnitude (partial pivoting). *)
Definition pivot_row (n k : nat) (M : @MatrixXd D) : nat :=
  for_range (k + 1) n (fun i p => if fabs (M p k) <? fabs (M i k) then i else p) k.

Definition gauss_jordan_step (n k : nat) (st : @MatrixXd D * @MatrixXd D) :
    @MatrixXd D * @MatrixXd D :=
  let '(M, B) := st in
  let p := pivot_row n k M in
  let M := swap_rows M k p in
  let B := swap_rows B k p in
  let piv := M k k in
  let M1 : @MatrixXd D := fun i j => if Nat.eqb i k then M k j / piv else M i j in
  let B1 : @MatrixXd D := fun i j => if Nat.eqb i k then B k j / piv else B i j in
  let M2 : @MatrixXd D :=
    fun i j => if Nat.eqb i k then M1 i j else M1 i j - M1 i k * M1 k j in
  let B2 : @MatrixXd D :=
    fun i j => if Nat.eqb i k then B1 i j else B1 i j - M1 i k * B1 k j in
  (M2, B2).

(** Gauss-Jordan elimination with partial pivoting on [M | I]. *)
Definition gauss_jordan_inverse (n : nat) (M : @MatrixXd D) : @MatrixXd D :=
  snd (for_loop n (gauss_jordan_step n) (M, Identity)).

End Algorithms.
End Textbook.

(** ** Exact real arithmetic *)
Module RealModel.
Import Reals.
Local Open Scope R_scope.

Definition Rltb (a b : R) : bool := if Rlt_dec a b then true else false.

#[export] Instance R_arith : Arith R := {|
  of_Z := IZR;
  lit := Q2R;
  add := Rplus;
  sub := Rminus;
  mul := Rmult;
  div := Rdiv;
  opp := Ropp;
  Num.sqrt := R_sqrt.sqrt;
  fabs := Rabs;
  ltb := Rltb
|}.

(** The two-argument arctangent of the C library on real numbers: the angle
    in (-PI, PI] of the point (x, y), and 0 at the origin. *)
Definition Ratan2 (y x : R) : R :=
  if Rlt_dec 0 x then atan (y / x)
  else if Rlt_dec x 0 then
    if Rle_dec 0 y then atan (y / x) + PI else atan (y / x) - PI
  else if Rlt_dec 0 y then PI / 2
  else if Rlt_dec y 0 then - (PI / 2)
  else 0.

(** The exact functions.  What the rounding of the C library's functions
    does to the angle reduction is the subject of [RoundingFacts]. *)
#[export] Instance R_libm : Libm R := {|
  Num.sin := Rtrigo_def.sin;
  Num.cos := Rtrigo_def.cos;
  Num.atan2 := Ratan2
|}.

(** Exact arithmetic has no rounding, so the narrowing to [float] is the
    identity here.  What the first radar measurement leaves in the state is
    therefore never stated on this instance but for every arithmetic
    (section [Bootstrap]); [Binary64.round_to_single] is the narrowing on
    binary64 numbers. *)
#[export] Instance R_single : Single R := {|
  to_float := fun a => a;
  sinf := Rtrigo_def.sin;
  cosf := Rtrigo_def.cos
|}.

#[export] Instance R_cholesky : Cholesky R := Textbook.cholesky_lower.
#[export] Instance R_inverse : Inverse R := Textbook.gauss_jordan_inverse.

(** A filter as the constructor leaves it, on zeroed memory. *)
Definition fresh : UKF R := UKF_ctor (vfill 0) (vfill 0) (mfill 0) 0.

Definition lidar_at (t : Z) (px py : R) : MeasurementPackage R :=
  {| timestamp_ := t; sensor_type_ := LASER; raw_measurements_ := [px; py] |}.

Definition radar_at (t : Z) (rho phi rho_dot : R) : MeasurementPackage R :=
  {| timestamp_ := t; sensor_type_ := RADAR; raw_measurements_ := [rho; phi; rho_dot] |}.

(** The filter after a first lidar measurement (5, 3) at time 1 s. *)
Definition after_first_lidar : UKF R :=
  set_is_initialized_ true
    (set_time_us_ 1000000
       (set_use_laser_ false
          (set_x_ (vcomma [5; 3; IZR 0; IZR 0; IZR 0]) fresh))).

(** A filter moving along the x axis at 10 m/s, heading 0, not turning. *)
Definition cruising : UKF R :=
  set_x_ (vcomma [0; 0; 10; 0; 0]) after_first_lidar.

End RealModel.

(** ** IEEE 754 binary64 arithmetic *)
Module Binary64.
Local Abbreviation float := PrimFloat.float.

(** Exact for |z| < 2^53, which covers every integer the source converts. *)
Definition float_of_Z (z : Z) : float :=
  match z with
  | Z0 => PrimFloat.zero
  | Zpos _ => PrimFloat.of_uint63 (Uint63.of_Z z)
  | Zneg p => PrimFloat.opp (PrimFloat.of_uint63 (Uint63.of_Z (Zpos p)))
  end.

(** A decimal literal denotes the binary64 number nearest to it: the
    correctly rounded quotient of its numerator and denominator. *)
#[export] Instance float_arith : Arith float := {|
  of_Z := float_of_Z;
  lit := fun q => PrimFloat.div (float_of_Z (Qnum q)) (float_of_Z (Zpos (Qden q)));
  add := PrimFloat.add;
  sub := PrimFloat.sub;
  mul := PrimFloat.mul;
  div := PrimFloat.div;
  opp := PrimFloat.opp;
  Num.sqrt := PrimFloat.sqrt;
  fabs := PrimFloat.abs;
  ltb := PrimFloat.ltb
|}.

#[export] Instance float_inverse : Inverse float := Textbook.gauss_jordan_inverse.

Definition zeroed_ctor : UKF float :=
  @UKF_ctor float float_arith (vfill PrimFloat.zero) (vfill PrimFloat.zero)
    (mfill PrimFloat.zero) PrimFloat.zero.

(** A filter whose covariance has lost positive semi-definiteness: the
    variance of px is the negated lidar noise variance, so the innovation
    covariance of a lidar update has a zero first row and column. *)
Definition degenerate : UKF float :=
  set_is_initialized_ true
    (set_use_radar_ false
       (set_P_ (mset (P_ zeroed_ctor) 0 0
                  (PrimFloat.opp (PrimFloat.mul (std_laspx_ zeroed_ctor) (std_laspx_ zeroed_ctor))))
          zeroed_ctor)).

Definition lidar_1_2 : MeasurementPackage float :=
  {| timestamp_ := 0; sensor_type_ := LASER;
     raw_measurements_ := [float_of_Z 1; float_of_Z 2] |}.

(** The conversion of a [double] to [float] (and back, which is exact):
    rounding to the nearest binary32 number, 24 bits of precision and
    exponents up to 127, ties to even; beyond the largest [float] the result
    is an infinity.  Zeros, infinities and NaN are kept. *)
Definition round_to_single (x : float) : float :=
  match FloatOps.Prim2SF x with
  | SpecFloat.S754_finite s m e =>
      FloatOps.SF2Prim (SpecFloat.binary_round 24 128 s m e)
  | _ => x
  end.

(** [float] on binary64 carriers, for given [float] overloads of [sin] and
    [cos]. *)
Definition float_single (sinf cosf : float -> float) : Single float :=
  {| to_float := round_to_single; Num.sinf := sinf; Num.cosf := cosf |}.

(** A first radar measurement: rho = 1, phi = 0, rho_dot = 0.7, at 1 s. *)
Definition radar_first : MeasurementPackage float :=
  {| timestamp_ := 1000000; sensor_type_ := RADAR;
     raw_measurements_ := [float_of_Z 1; float_of_Z 0; lit 0.7] |}.

End Binary64.

(** ** Binary64 numbers as real numbers, and a correctly rounded [<cmath>]

    The C library is not part of the sources.  What is said here about
    [sin], [cos] and [atan2] on [double] is said of every implementation that
    rounds to nearest. *)
Module Rounding.
Import Reals Qreals.
Local Open Scope R_scope.
Local Abbreviation float := PrimFloat.float.

Definition is_finite (x : float) : bool :=
  match FloatOps.Prim2SF x with
  | SpecFloat.S754_finite _ _ _ | SpecFloat.S754_zero _ => true
  | _ => false
  end.

(** The rational number that a finite binary64 number is: plus or minus
    [m * 2^e]. *)
Definition to_Q (x : float) : Q :=
  match FloatOps.Prim2SF x with
  | SpecFloat.S754_finite s m e =>
      let v := Qmult (inject_Z (Zpos m)) (Qpower (2 # 1) e) in
      if s then Qopp v else v
  | _ => 0%Q
  end.

Definition to_R (x : float) : R := Q2R (to_Q x).

(** Half way between two binary64 numbers. *)
Definition mid_Q (x y : float) : Q := Qdiv (Qplus (to_Q x) (to_Q y)) (2 # 1).

(** The real number [r] lies strictly between the two midpoints that
    separate the binary64 number [y] from its neighbours: rounding [r] to
    nearest gives [y], whatever the rule for ties.  (A result of zero, whose
    sign [r] does not determine, is left out.) *)
Definition rounds_to (r : R) (y : float) : Prop :=
  is_finite (PrimFloat.next_down y) = true /\
  is_finite (PrimFloat.next_up y) = true /\
  to_R y <> 0 /\
  (to_R (PrimFloat.next_down y) + to_R y) / 2 < r
    < (to_R y + to_R (PrimFloat.next_up y)) / 2.

(** A C library whose [sin], [cos] and [atan2] return, on finite arguments,
    the binary64 number nearest to the exact result. *)
Definition correctly_rounded (L : Libm float) : Prop :=
  (forall x y : float, is_finite x = true ->
     rounds_to (Rtrigo_def.sin (to_R x)) y -> Num.sin x = y) /\
  (forall x y : float, is_finite x = true ->
     rounds_to (Rtrigo_def.cos (to_R x)) y -> Num.cos x = y) /\
  (forall v w y : float, is_finite v = true -> is_finite w = true ->
     rounds_to (RealModel.Ratan2 (to_R v) (to_R w)) y -> Num.atan2 v w = y).

(** Partial sums of the series of sine and cosine at a rational point. *)
Fixpoint Zfact (n : nat) : Z :=
  match n with
  | O => 1
  | S k => Z.of_nat n * Zfact k
  end.

Fixpoint Qpow (a : Q) (n : nat) : Q :=
  match n with
  | O => 1%Q
  | S k => Qmult a (Qpow a k)
  end.

Fixpoint Qsum (f : nat -> Q) (n : nat) : Q :=
  match n with
  | O => f O
  | S k => Qplus (Qsum f k) (f n)
  end.

Definition sin_term_Q (a : Q) (i : nat) : Q :=
  Qmult (Qpow (-1 # 1) i)
    (Qdiv (Qpow a (2 * i + 1)) (inject_Z (Zfact (2 * i + 1)))).

Definition cos_term_Q (a : Q) (i : nat) : Q :=
  Qmult (Qpow (-1 # 1) i) (Qdiv (Qpow a (2 * i)) (inject_Z (Zfact (2 * i)))).

Definition sin_approx_Q (a : Q) (n : nat) : Q := Qsum (sin_term_Q a) n.
Definition cos_approx_Q (a : Q) (n : nat) : Q := Qsum (cos_term_Q a) n.

(** An angle of about 0.729 rad, well inside (-PI, PI], its successor, and
    the binary64 numbers nearest to its sine and cosine. *)
Module Export Angles.
Import PrimFloat.
Definition angle : float := 0x1.7576740e83bd8p-1%float.
Definition angle_up : float := 0x1.7576740e83bd9p-1%float.
Definition sin_angle : float := 0x1.5537359723eccp-1%float.
Definition cos_angle : float := 0x1.7dba3c6b509b5p-1%float.
End Angles.

End Rounding.

(** ** Loops *)

Lemma for_loop_S {S : Type} (n : nat) (body : nat -> S -> S) (s : S) :
  for_loop (Datatypes.S n) body s = body n (for_loop n body s).
Proof.
  unfold for_loop. rewrite seq_S, fold_left_app. reflexivity.
Qed.

Lemma for_range_S {S : Type} (lo k : nat) (body : nat -> S -> S) (s : S) :
  for_range lo (lo + Datatypes.S k) body s = body (lo + k)%nat (for_range lo (lo + k) body s).
Proof.
  unfold for_range.
  replace (lo + Datatypes.S k - lo)%nat with (Datatypes.S k) by lia.
  replace (lo + k - lo)%nat with k by lia.
  rewrite seq_S, fold_left_app. reflexivity.
Qed.

(** A property that every iteration keeps holds after the loop. *)
Lemma for_loop_invariant {S : Type} (I : S -> Prop) (n : nat) (body : nat -> S -> S) (s : S) :
  I s -> (forall i t, (i < n)%nat -> I t -> I (body i t)) -> I (for_loop n body s).
Proof.
  intros Hs Hb. induction n as [|n IH].
  - exact Hs.
  - rewrite for_loop_S. apply Hb; [lia|]. apply IH. intros i t Hi. apply Hb. lia.
Qed.

Lemma for_range_invariant {S : Type} (I : S -> Prop) (lo hi : nat)
    (body : nat -> S -> S) (s : S) :
  I s -> (forall i t, (lo <= i < hi)%nat -> I t -> I (body i t)) ->
  I (for_range lo hi body s).
Proof.
  intros Hs Hb. unfold for_range.
  assert (G : forall l t, I t -> (forall i, In i l -> (lo <= i < hi)%nat) ->
                          I (fold_left (fun acc i => body i acc) l t)).
  { induction l as [|a l IH]; intros t Ht Hl; simpl; [exact Ht|].
    apply IH; [apply Hb; [apply Hl; left; reflexivity | exact Ht]|].
    intros i Hi. apply Hl. right. exact Hi. }
  apply G; [exact Hs|]. intros i Hi. apply in_seq in Hi. lia.
Qed.

(** ** What a member function leaves untouched *)

Section Frames.

Context {D : Type} {A : Arith D} {L : Libm D} {F : Single D}
        {Llt : Cholesky D} {Inv : Inverse D}.


Lemma same_control_refl (u : UKF D) : same_control u u.
Proof. repeat split. Qed.

Lemma same_control_trans (u v w : UKF D) :
  same_control u v -> same_control v w -> same_control u w.
Proof.
  unfold same_control. intros (a1 & a2 & a3 & a4 & a5 & a6) (b1 & b2 & b3 & b4 & b5 & b6).
  repeat split; congruence.
Qed.

Lemma SetWeights_control (u : UKF D) : same_control u (SetWeights u).
Proof.
  unfold SetWeights.
  apply for_range_invariant with (I := fun t => same_control u t).
  - repeat split.
  - intros i t _ Ht. eapply same_control_trans; [exact Ht|]. repeat split.
Qed.

Lemma PredictMeanAndCovariance_control (u : UKF D) :
  same_control u (PredictMeanAndCovariance u).
Proof.
  unfold PredictMeanAndCovariance.
  apply for_loop_invariant with (I := fun t => same_control u t).
  - eapply same_control_trans with (v := for_loop _ _ _); [|repeat split].
    apply for_loop_invariant with (I := fun t => same_control u t).
    + repeat split.
    + intros i t _ Ht. eapply same_control_trans; [exact Ht|]. repeat split.
  - intros i t _ Ht. eapply same_control_trans; [exact Ht|]. repeat split.
Qed.

(** [Prediction] always returns, having called nothing, and leaves the flags,
    the clock and the dimensions as they were. *)
Lemma Prediction_run (delta_t : D) (u : UKF D) :
  exists u', Prediction delta_t u = ([CallPrediction delta_t], Ok (tt, u')) /\
             same_control u u'.
Proof.
  unfold Prediction, bind, enter, modify, get. simpl.
  eexists. split; [reflexivity|].
  eapply same_control_trans; [|apply PredictMeanAndCovariance_control].
  eapply same_control_trans; [|apply SetWeights_control].
  apply for_loop_invariant with (I := fun t => same_control u t).
  - repeat split.
  - intros i t _ Ht. eapply same_control_trans; [exact Ht|]. repeat split.
Qed.

(** [UpdateLidar] returns exactly when the measurement has two values. *)
Lemma UpdateLidar_run (m : MeasurementPackage D) (u : UKF D) :
  (length (raw_measurements_ m) = 2%nat /\
   exists u', UpdateLidar m u = ([CallUpdateLidar m], Ok (tt, u')) /\ same_control u u')
  \/
  (length (raw_measurements_ m) <> 2%nat /\
   UpdateLidar m u = ([CallUpdateLidar m], Abort)).
Proof.
  unfold UpdateLidar, bind, enter, modify, get, eigen_assert. simpl.
  destruct (Nat.eqb (length (raw_measurements_ m)) 2) eqn:E.
  - left. apply Nat.eqb_eq in E. split; [exact E|].
    eexists. split; [reflexivity|]. repeat split.
  - right. apply Nat.eqb_neq in E. split; [exact E|]. reflexivity.
Qed.

(** [UpdateRadar] returns exactly when the measurement has three values. *)
Lemma UpdateRadar_run (m : MeasurementPackage D) (u : UKF D) :
  (length (raw_measurements_ m) = 3%nat /\
   exists u', UpdateRadar m u = ([CallUpdateRadar m], Ok (tt, u')) /\ same_control u u')
  \/
  (length (raw_measurements_ m) <> 3%nat /\
   UpdateRadar m u = ([CallUpdateRadar m], Abort)).
Proof.
  unfold UpdateRadar, bind, enter, modify, get, eigen_assert. simpl.
  destruct (for_loop _ RadarSigmaPoint _) as [Xsig_pred Zsig_pred].
  simpl.
  destruct (for_loop _ (RadarCovariances _ _ _) _) as [S_ T_].
  simpl.
  destruct (Nat.eqb (length (raw_measurements_ m)) 3) eqn:E.
  - left. apply Nat.eqb_eq in E. split; [exact E|].
    eexists. split; [reflexivity|]. repeat split.
  - right. apply Nat.eqb_neq in E. split; [exact E|]. reflexivity.
Qed.

End Frames.

(** ** The dispatch of [ProcessMeasurement] *)

Section Dispatch.

Context {D : Type} {A : Arith D} {L : Libm D} {F : Single D}
        {Llt : Cholesky D} {Inv : Inverse D}.



(** The first call: no call to another member, the flag of the sensor that
    came first is cleared, the clock is set. *)
Lemma ProcessMeasurement_first (m : MeasurementPackage D) (u : UKF D) :
  is_initialized_ u = false ->
  calls (ProcessMeasurement m u) = [] /\
  forall u', final (ProcessMeasurement m u) = Ok u' ->
    match sensor_type_ m with
    | RADAR => left_with u' (use_laser_ u) false (timestamp_ m)
    | LASER => left_with u' false (use_radar_ u) (timestamp_ m)
    end /\ P_ u' = P_ u /\ n_aug_ u' = n_aug_ u /\ n_x_ u' = n_x_ u.
Proof.
  intros H. unfold ProcessMeasurement, bind, get, calls, final. simpl. rewrite H. simpl.
  destruct (sensor_type_ m); unfold coeff, modify, ret; simpl.
  - destruct (raw_measurements_ m) as [|a [|b l]]; simpl;
      (split; [reflexivity|]); intros u' E; try discriminate.
    injection E as <-. repeat split.
  - destruct (raw_measurements_ m) as [|a [|b [|c l]]]; simpl;
      (split; [reflexivity|]); intros u' E; try discriminate.
    injection E as <-. repeat split.
Qed.

(** A later call with [use_laser_] set: [Prediction], then [UpdateLidar] on
    what it left, then the two flags. *)
Lemma ProcessMeasurement_laser_eq (m : MeasurementPackage D) (u : UKF D) :
  is_initialized_ u = true -> use_laser_ u = true ->
  exists u1, same_control (set_time_us_ (timestamp_ m) u) u1 /\
    Prediction (elapsed m u) (set_time_us_ (timestamp_ m) u)
      = ([CallPrediction (elapsed m u)], Ok (tt, u1)) /\
    ProcessMeasurement m u =
    (CallPrediction (elapsed m u) :: fst (UpdateLidar m u1),
     match snd (UpdateLidar m u1) with
     | Ok (_, u2) => Ok (tt, set_use_radar_ true (set_use_laser_ false u2))
     | Abort => Abort
     end).
Proof.
  intros Hi Hl.
  destruct (Prediction_run (elapsed m u) (set_time_us_ (timestamp_ m) u))
    as (u1 & E1 & C1).
  exists u1. split; [exact C1|]. split; [exact E1|].
  unfold ProcessMeasurement.
  unfold bind at 1. unfold get at 1. cbv iota beta. rewrite Hi. cbn [negb].
  unfold bind at 1. unfold modify at 1. cbv iota beta.
  unfold bind at 1. fold (elapsed m u). rewrite E1. cbv iota beta.
  unfold bind at 1. unfold get at 1. cbv iota beta.
  destruct C1 as (c1 & c2 & c3 & c4 & c5 & c6). simpl in c2. rewrite c2, Hl.
  unfold bind at 1.
  destruct (UpdateLidar m u1) as [t [[[] u2]|]]; cbn; [rewrite app_nil_r|]; reflexivity.
Qed.

(** A later call with [use_laser_] clear and [use_radar_] set. *)
Lemma ProcessMeasurement_radar_eq (m : MeasurementPackage D) (u : UKF D) :
  is_initialized_ u = true -> use_laser_ u = false -> use_radar_ u = true ->
  exists u1, same_control (set_time_us_ (timestamp_ m) u) u1 /\
    Prediction (elapsed m u) (set_time_us_ (timestamp_ m) u)
      = ([CallPrediction (elapsed m u)], Ok (tt, u1)) /\
    ProcessMeasurement m u =
    (CallPrediction (elapsed m u) :: fst (UpdateRadar m u1),
     match snd (UpdateRadar m u1) with
     | Ok (_, u2) => Ok (tt, set_use_laser_ true (set_use_radar_ false u2))
     | Abort => Abort
     end).
Proof.
  intros Hi Hl Hr.
  destruct (Prediction_run (elapsed m u) (set_time_us_ (timestamp_ m) u))
    as (u1 & E1 & C1).
  exists u1. split; [exact C1|]. split; [exact E1|].
  unfold ProcessMeasurement.
  unfold bind at 1. unfold get at 1. cbv iota beta. rewrite Hi. cbn [negb].
  unfold bind at 1. unfold modify at 1. cbv iota beta.
  unfold bind at 1. fold (elapsed m u). rewrite E1. cbv iota beta.
  unfold bind at 1. unfold get at 1. cbv iota beta.
  destruct C1 as (c1 & c2 & c3 & c4 & c5 & c6). simpl in c2, c3. rewrite c2, Hl.
  unfold bind at 1. unfold get at 1. cbv iota beta. rewrite c3, Hr.
  unfold bind at 1.
  destruct (UpdateRadar m u1) as [t [[[] u2]|]]; cbn; [rewrite app_nil_r|]; reflexivity.
Qed.

(** A later call with both flags clear: no update at all. *)
Lemma ProcessMeasurement_idle_eq (m : MeasurementPackage D) (u : UKF D) :
  is_initialized_ u = true -> use_laser_ u = false -> use_radar_ u = false ->
  exists u1, same_control (set_time_us_ (timestamp_ m) u) u1 /\
    ProcessMeasurement m u = ([CallPrediction (elapsed m u)], Ok (tt, u1)).
Proof.
  intros Hi Hl Hr.
  destruct (Prediction_run (elapsed m u) (set_time_us_ (timestamp_ m) u))
    as (u1 & E1 & C1).
  exists u1. split; [exact C1|].
  unfold ProcessMeasurement.
  unfold bind at 1. unfold get at 1. cbv iota beta. rewrite Hi. cbn [negb].
  unfold bind at 1. unfold modify at 1. cbv iota beta.
  unfold bind at 1. fold (elapsed m u). rewrite E1. cbv iota beta.
  unfold bind at 1. unfold get at 1. cbv iota beta.
  destruct C1 as (c1 & c2 & c3 & c4 & c5 & c6). simpl in c2, c3. rewrite c2, Hl.
  unfold bind at 1. unfold get at 1. cbv iota beta. rewrite c3, Hr.
  reflexivity.
Qed.

Lemma ProcessMeasurement_laser (m : MeasurementPackage D) (u : UKF D) :
  is_initialized_ u = true -> use_laser_ u = true ->
  calls (ProcessMeasurement m u) = [CallPrediction (elapsed m u); CallUpdateLidar m] /\
  (length (raw_measurements_ m) = 2%nat <->
   exists u', final (ProcessMeasurement m u) = Ok u') /\
  forall u', final (ProcessMeasurement m u) = Ok u' ->
    left_with u' false true (timestamp_ m) /\ n_aug_ u' = n_aug_ u /\ n_x_ u' = n_x_ u.
Proof.
  intros Hi Hl.
  destruct (ProcessMeasurement_laser_eq m u Hi Hl) as (u1 & C1 & _ & E).
  rewrite E. unfold calls, final. cbn [fst snd].
  destruct C1 as (c1 & c2 & c3 & c4 & c5 & c6). simpl in c1, c2, c3, c4, c5, c6.
  destruct (UpdateLidar_run m u1) as [(Hlen & u2 & E2 & C2) | (Hlen & E2)];
    rewrite E2; cbn [fst snd].
  - destruct C2 as (d1 & d2 & d3 & d4 & d5 & d6).
    split; [reflexivity|]. split.
    + split; [intros _; eexists; reflexivity | intros _; exact Hlen].
    + intros u' E'. injection E' as <-. unfold left_with. simpl.
      repeat split; congruence.
  - split; [reflexivity|]. split.
    + split; [intros E'; contradiction | intros (u' & E'); discriminate].
    + intros u' E'. discriminate.
Qed.

Lemma ProcessMeasurement_radar (m : MeasurementPackage D) (u : UKF D) :
  is_initialized_ u = true -> use_laser_ u = false -> use_radar_ u = true ->
  calls (ProcessMeasurement m u) = [CallPrediction (elapsed m u); CallUpdateRadar m] /\
  (length (raw_measurements_ m) = 3%nat <->
   exists u', final (ProcessMeasurement m u) = Ok u') /\
  forall u', final (ProcessMeasurement m u) = Ok u' ->
    left_with u' true false (timestamp_ m) /\ n_aug_ u' = n_aug_ u /\ n_x_ u' = n_x_ u.
Proof.
  intros Hi Hl Hr.
  destruct (ProcessMeasurement_radar_eq m u Hi Hl Hr) as (u1 & C1 & _ & E).
  rewrite E. unfold calls, final. cbn [fst snd].
  destruct C1 as (c1 & c2 & c3 & c4 & c5 & c6). simpl in c1, c2, c3, c4, c5, c6.
  destruct (UpdateRadar_run m u1) as [(Hlen & u2 & E2 & C2) | (Hlen & E2)];
    rewrite E2; cbn [fst snd].
  - destruct C2 as (d1 & d2 & d3 & d4 & d5 & d6).
    split; [reflexivity|]. split.
    + split; [intros _; eexists; reflexivity | intros _; exact Hlen].
    + intros u' E'. injection E' as <-. unfold left_with. simpl.
      repeat split; congruence.
  - split; [reflexivity|]. split.
    + split; [intros E'; contradiction | intros (u' & E'); discriminate].
    + intros u' E'. discriminate.
Qed.

(** What holds of every state a program can reach: before the first call
    both flags are set, after it exactly one is. *)
Lemma reachable_flags (u : UKF D) :
  reachable u ->
  (is_initialized_ u = false /\ use_laser_ u = true /\ use_radar_ u = true) \/
  (is_initialized_ u = true /\ use_laser_ u = negb (use_radar_ u)).
Proof.
  induction 1 as [x0 w0 X0 l0 | u m u' Hu IH E].
  - left. repeat split.
  - right. destruct IH as [(Hi & Hl & Hr) | (Hi & Hx)].
    + destruct (ProcessMeasurement_first m u Hi) as (_ & G).
      destruct (G u' E) as (G1 & _). rewrite Hl, Hr in G1.
      destruct (sensor_type_ m); destruct G1 as (g1 & g2 & g3 & _);
        rewrite g1, g2, g3; split; reflexivity.
    + destruct (use_radar_ u) eqn:Hr; simpl in Hx.
      * destruct (ProcessMeasurement_radar m u Hi Hx Hr) as (_ & _ & G).
        destruct (G u' E) as ((g1 & g2 & g3 & _) & _).
        rewrite g1, g2, g3; split; reflexivity.
      * destruct (ProcessMeasurement_laser m u Hi Hx) as (_ & _ & G).
        destruct (G u' E) as ((g1 & g2 & g3 & _) & _).
        rewrite g1, g2, g3; split; reflexivity.
Qed.

End Dispatch.

(** ** Which update runs *)

Section Alternation.

Context {D : Type} {A : Arith D} {L : Libm D} {F : Single D}
        {Llt : Cholesky D} {Inv : Inverse D}.

(** C1.  Every call of [ProcessMeasurement] on an initialised filter that a
    program has reached calls [Prediction] and then exactly one update, chosen
    by the flags and not by the sensor tag of the measurement (which is
    arbitrary here): [UpdateLidar] when [use_laser_] is set, after which
    [use_laser_] is cleared and [use_radar_] set; otherwise [UpdateRadar],
    [use_radar_] being set, after which [use_radar_] is cleared and
    [use_laser_] set.  The call returns exactly when the measurement has the
    number of values that update expects (2 for lidar, 3 for radar). *)
Theorem update_selected_by_flags (u : UKF D) (m : MeasurementPackage D) :
  reachable u -> is_initialized_ u = true ->
  (use_laser_ u = true /\
   calls (ProcessMeasurement m u) = [CallPrediction (elapsed m u); CallUpdateLidar m] /\
   (length (raw_measurements_ m) = 2%nat <->
    exists u', final (ProcessMeasurement m u) = Ok u') /\
   forall u', final (ProcessMeasurement m u) = Ok u' ->
     use_laser_ u' = false /\ use_radar_ u' = true)
  \/
  (use_laser_ u = false /\ use_radar_ u = true /\
   calls (ProcessMeasurement m u) = [CallPrediction (elapsed m u); CallUpdateRadar m] /\
   (length (raw_measurements_ m) = 3%nat <->
    exists u', final (ProcessMeasurement m u) = Ok u') /\
   forall u', final (ProcessMeasurement m u) = Ok u' ->
     use_radar_ u' = false /\ use_laser_ u' = true).
Proof.
  intros Hreach Hi.
  destruct (reachable_flags Hreach) as [(Hi' & _) | (_ & Hx)]; [congruence|].
  destruct (use_radar_ u) eqn:Hr; simpl in Hx.
  - right. destruct (ProcessMeasurement_radar m u Hi Hx Hr) as (Hc & Hret & Hfl).
    repeat split; try assumption; try apply Hret.
    + apply (Hfl u' H).
    + apply (Hfl u' H).
  - left. destruct (ProcessMeasurement_laser m u Hi Hx) as (Hc & Hret & Hfl).
    repeat split; try assumption; try apply Hret.
    + apply (Hfl u' H).
    + apply (Hfl u' H).
Qed.

(** C9.  After every call of [ProcessMeasurement] that a program makes, the
    first one included, the filter is initialised and exactly one of
    [use_laser_] and [use_radar_] is set.  Hence a call on an initialised
    filter runs exactly one update, and the next call runs the other one:
    [UpdateLidar] and [UpdateRadar] alternate strictly. *)
Theorem flags_alternate (u : UKF D) (m : MeasurementPackage D) (u' : UKF D) :
  reachable u -> final (ProcessMeasurement m u) = Ok u' ->
  is_initialized_ u' = true /\
  use_laser_ u' = negb (use_radar_ u') /\
  (is_initialized_ u = true ->
   forall m' : MeasurementPackage D,
     (calls (ProcessMeasurement m u)
        = [CallPrediction (elapsed m u); CallUpdateLidar m] /\
      calls (ProcessMeasurement m' u')
        = [CallPrediction (elapsed m' u'); CallUpdateRadar m'])
     \/
     (calls (ProcessMeasurement m u)
        = [CallPrediction (elapsed m u); CallUpdateRadar m] /\
      calls (ProcessMeasurement m' u')
        = [CallPrediction (elapsed m' u'); CallUpdateLidar m'])).
Proof.
  intros Hreach E.
  assert (Hreach' : reachable u') by (eapply reachable_call; eassumption).
  destruct (reachable_flags Hreach) as [(Hi & Hl & Hr) | (Hi & Hx)].
  - destruct (ProcessMeasurement_first m u Hi) as (_ & G).
    destruct (G u' E) as (G1 & _). rewrite Hl, Hr in G1.
    split; [destruct (sensor_type_ m); apply G1|].
    split; [|congruence].
    destruct (sensor_type_ m); destruct G1 as (_ & g2 & g3 & _); rewrite g2, g3; reflexivity.
  - destruct (use_radar_ u) eqn:Hr; simpl in Hx.
    + destruct (ProcessMeasurement_radar m u Hi Hx Hr) as (Hc & _ & G).
      destruct (G u' E) as ((g1 & g2 & g3 & _) & _).
      split; [exact g1|]. split; [rewrite g2, g3; reflexivity|].
      intros _ m'. right. split; [exact Hc|].
      apply (ProcessMeasurement_laser m' u' g1 g2).
    + destruct (ProcessMeasurement_laser m u Hi Hx) as (Hc & _ & G).
      destruct (G u' E) as ((g1 & g2 & g3 & _) & _).
      split; [exact g1|]. split; [rewrite g2, g3; reflexivity|].
      intros _ m'. left. split; [exact Hc|].
      apply (ProcessMeasurement_radar m' u' g1 g2 g3).
Qed.

End Alternation.

(** ** The first radar measurement and single precision *)

Section Bootstrap.

Context {D : Type} {A : Arith D} {L : Libm D} {F : Single D}
        {Llt : Cholesky D} {Inv : Inverse D}.

(** Lines 87-93, for every arithmetic: the first radar measurement reaches the
    state through variables of type [float].  rho, phi and rho_dot are
    narrowed to single precision, the products with [cos] and [sin] are
    single-precision operations, and the five values are widened again when
    they are stored in [x_]. *)
Theorem radar_bootstrap_in_single_precision
    (x0 w0 : @VectorXd D) (X0 : @MatrixXd D) (lambda0 : D)
    (t : Z) (rho phi rho_dot : D) (rest : list D) :
  let u := UKF_ctor x0 w0 X0 lambda0 in
  let m := {| timestamp_ := t; sensor_type_ := RADAR;
              raw_measurements_ := rho :: phi :: rho_dot :: rest |} in
  exists u', final (ProcessMeasurement m u) = Ok u' /\
    x_ u' = vcomma [ to_float (to_float rho * cosf (to_float phi))%D;
                     to_float (to_float rho * sinf (to_float phi))%D;
                     to_float rho_dot;
                     to_float phi;
                     of_Z 0 ] /\
    use_radar_ u' = false /\ use_laser_ u' = true.
Proof.
  cbv zeta. unfold ProcessMeasurement, final, bind, get, coeff, modify, ret. cbn.
  eexists. split; [reflexivity|]. repeat split.
Qed.

(** C4, as the code has it, for every arithmetic.  On the first call, on the
    filter as the constructor made it, [ProcessMeasurement] calls neither
    [Prediction] nor an update.  From a lidar measurement (px, py) it sets the
    state to (px, py, 0, 0, 0).  From a radar measurement (rho, phi, rho_dot)
    it sets the state to the single-precision values
    (float(rho) * cosf(float(phi)), float(rho) * sinf(float(phi)),
    float(rho_dot), float(phi), 0), the two products being [float] products:
    lines 87-92 hold all five intermediate values in variables of type
    [float].  The covariance stays the prior diag(1, 1, 1, 100, 100) of the
    constructor, the clock is set to the timestamp and the filter is marked
    initialised.  (A measurement with fewer values than its sensor has aborts
    the call.)  Every later call does call [Prediction]. *)
Theorem first_call_seeds_the_state
    (x0 w0 : @VectorXd D) (X0 : @MatrixXd D) (lambda0 : D) (m : MeasurementPackage D) :
  let u := UKF_ctor x0 w0 X0 lambda0 in
  calls (ProcessMeasurement m u) = [] /\
  P_ u = mcomma [ [of_Z 1; of_Z 0; of_Z 0; of_Z 0; of_Z 0];
                  [of_Z 0; of_Z 1; of_Z 0; of_Z 0; of_Z 0];
                  [of_Z 0; of_Z 0; of_Z 1; of_Z 0; of_Z 0];
                  [of_Z 0; of_Z 0; of_Z 0; of_Z 100; of_Z 0];
                  [of_Z 0; of_Z 0; of_Z 0; of_Z 0; of_Z 100] ] /\
  match sensor_type_ m, raw_measurements_ m with
  | RADAR, rho :: phi :: rho_dot :: _ =>
      exists u', final (ProcessMeasurement m u) = Ok u' /\
        x_ u' = vcomma [ to_float (to_float rho * cosf (to_float phi))%D;
                         to_float (to_float rho * sinf (to_float phi))%D;
                         to_float rho_dot;
                         to_float phi;
                         of_Z 0 ] /\
        P_ u' = P_ u /\ time_us_ u' = timestamp_ m /\ is_initialized_ u' = true
  | LASER, px :: py :: _ =>
      exists u', final (ProcessMeasurement m u) = Ok u' /\
        x_ u' = vcomma [px; py; of_Z 0; of_Z 0; of_Z 0] /\
        P_ u' = P_ u /\ time_us_ u' = timestamp_ m /\ is_initialized_ u' = true
  | _, _ => final (ProcessMeasurement m u) = Abort
  end /\
  (forall (v : UKF D) (m' : MeasurementPackage D),
     is_initialized_ v = true ->
     exists delta_t rest, calls (ProcessMeasurement m' v) = CallPrediction delta_t :: rest).
Proof.
  intros u. split; [|split; [|split]].
  - apply ProcessMeasurement_first. reflexivity.
  - reflexivity.
  - unfold ProcessMeasurement, final, bind, get, coeff, modify, ret. cbn.
    destruct (sensor_type_ m); cbn.
    + destruct (raw_measurements_ m) as [|px [|py l]]; cbn; try reflexivity.
      eexists. split; [reflexivity|]. repeat split.
    + destruct (raw_measurements_ m) as [|rho [|phi [|rho_dot l]]]; cbn; try reflexivity.
      eexists. split; [reflexivity|]. repeat split.
  - intros v m' Hi. exists (elapsed m' v).
    destruct (use_laser_ v) eqn:Hl; [|destruct (use_radar_ v) eqn:Hr].
    + exists [CallUpdateLidar m']. apply (ProcessMeasurement_laser m' v Hi Hl).
    + exists [CallUpdateRadar m']. apply (ProcessMeasurement_radar m' v Hi Hl Hr).
    + destruct (ProcessMeasurement_idle_eq m' v Hi Hl Hr) as (u1 & _ & E1).
      exists []. rewrite E1. reflexivity.
Qed.

End Bootstrap.

(** ** The first loop of [UpdateRadar] *)

Section RadarLoop.

Context {D : Type} {A : Arith D} {L : Libm D}.

Lemma clamped_outside (X : @MatrixXd D) (n r c : nat) :
  (n <= c)%nat -> clamped X n r c = X r c.
Proof.
  intros H. unfold clamped.
  replace (Nat.ltb c n) with false by (symmetry; apply Nat.ltb_ge; exact H).
  reflexivity.
Qed.

Lemma clamped_inside (X : @MatrixXd D) (n k r c : nat) :
  (c < n)%nat -> (c < k)%nat -> clamped X n r c = clamped X k r c.
Proof.
  intros Hn Hk. unfold clamped.
  replace (Nat.ltb c n) with true by (symmetry; apply Nat.ltb_lt; exact Hn).
  replace (Nat.ltb c k) with true by (symmetry; apply Nat.ltb_lt; exact Hk).
  reflexivity.
Qed.

Lemma mset_other_col (M : @MatrixXd D) (a n : nat) (v : D) (r c : nat) :
  c <> n -> mset M a n v r c = M r c.
Proof.
  intros Hc. unfold mset.
  replace (Nat.eqb c n) with false by (symmetry; apply Nat.eqb_neq; exact Hc).
  rewrite andb_false_r. reflexivity.
Qed.

Lemma RadarSigmaPoint_fst (n : nat) (X Z0 : @MatrixXd D) (r c : nat) :
  fst (for_loop n RadarSigmaPoint (X, Z0)) r c = clamped X n r c.
Proof.
  revert r c. induction n as [|n IH]; intros r c.
  - reflexivity.
  - rewrite for_loop_S.
    destruct (for_loop n RadarSigmaPoint (X, Z0)) as [Xn Zn]. cbn [fst] in IH.
    unfold RadarSigmaPoint. cbn [fst].
    rewrite !IH, !clamped_outside by lia.
    fold (near_origin X n).
    unfold clamped at 1.
    destruct (Nat.eq_dec c n) as [->|Hc].
    + replace (Nat.ltb n (S n)) with true by (symmetry; apply Nat.ltb_lt; lia).
      destruct (near_origin X n); cbn [andb].
      * unfold mset. rewrite Nat.eqb_refl, andb_true_r.
        destruct r as [|[|r]]; cbn; try reflexivity.
        rewrite IH. apply clamped_outside. lia.
      * rewrite IH. apply clamped_outside. lia.
    + assert (Hl : Nat.ltb c (S n) = Nat.ltb c n).
      { destruct (Nat.ltb_spec c (S n)), (Nat.ltb_spec c n); try reflexivity; lia. }
      rewrite Hl.
      destruct (near_origin X n); rewrite ?mset_other_col by exact Hc; rewrite IH;
        reflexivity.
Qed.

(** One iteration writes column [i] of [Zsig_pred] from column [i] of the
    sigma points it leaves. *)
Lemma RadarSigmaPoint_snd_step (i : nat) (X Z : @MatrixXd D) (r c : nat) :
  snd (RadarSigmaPoint i (X, Z)) r c =
  if Nat.eqb c i then
    measurement_space (fst (RadarSigmaPoint i (X, Z))) Z (S i) r c
  else Z r c.
Proof.
  unfold RadarSigmaPoint. cbn [fst snd].
  set (X' := if (_ && _)%bool then _ else X).
  destruct (Nat.eqb c i) eqn:E.
  - apply Nat.eqb_eq in E. subst c. unfold measurement_space.
    replace (Nat.ltb i (S i)) with true by (symmetry; apply Nat.ltb_lt; lia).
    unfold mset. rewrite Nat.eqb_refl.
    destruct r as [|[|[|r]]]; reflexivity.
  - apply Nat.eqb_neq in E. rewrite !mset_other_col by exact E. reflexivity.
Qed.

Lemma RadarSigmaPoint_snd (n : nat) (X Z0 : @MatrixXd D) (r c : nat) :
  snd (for_loop n RadarSigmaPoint (X, Z0)) r c
  = measurement_space (clamped X n) Z0 n r c.
Proof.
  revert r c. induction n as [|n IH]; intros r c.
  - reflexivity.
  - pose proof (RadarSigmaPoint_fst (S n) X Z0) as HX.
    rewrite for_loop_S in *.
    pose proof (RadarSigmaPoint_fst n X Z0) as HXn.
    destruct (for_loop n RadarSigmaPoint (X, Z0)) as [Xn Zn]. cbn [fst snd] in IH, HXn.
    rewrite RadarSigmaPoint_snd_step.
    destruct (Nat.eqb c n) eqn:E.
    + apply Nat.eqb_eq in E. subst c. unfold measurement_space.
      replace (Nat.ltb n (S n)) with true by (symmetry; apply Nat.ltb_lt; lia).
      rewrite !HX.
      destruct r as [|[|[|r]]]; try reflexivity.
      rewrite IH. unfold measurement_space.
      replace (Nat.ltb n n) with false by (symmetry; apply Nat.ltb_ge; lia).
      reflexivity.
    + apply Nat.eqb_neq in E. rewrite IH. unfold measurement_space.
      destruct (Nat.ltb_spec c n) as [Hc|Hc].
      * replace (Nat.ltb c (S n)) with true by (symmetry; apply Nat.ltb_lt; lia).
        rewrite !(clamped_inside X (n := n) (k := S n)) by lia. reflexivity.
      * replace (Nat.ltb c (S n)) with false by (symmetry; apply Nat.ltb_ge; lia).
        reflexivity.
Qed.

(** The loop as a whole: the sigma points clamped, and their images. *)
Lemma RadarSigmaPoint_loop (n : nat) (X Z0 : @MatrixXd D) :
  for_loop n RadarSigmaPoint (X, Z0)
  = (clamped X n, measurement_space (clamped X n) Z0 n).
Proof.
  rewrite (surjective_pairing (for_loop n RadarSigmaPoint (X, Z0))).
  f_equal; extensionality r; extensionality c.
  - apply RadarSigmaPoint_fst.
  - apply RadarSigmaPoint_snd.
Qed.

End RadarLoop.

Section RadarWriteBack.

Context {D : Type} {A : Arith D} {L : Libm D} {Inv : Inverse D}.

(** [UpdateRadar] from the end of its first loop on. *)
Lemma UpdateRadar_clamped (m : MeasurementPackage D) (u : UKF D) :
  exists k : @MatrixXd D -> @MatrixXd D -> M D unit,
    (forall X2, UpdateRadar m (set_Xsig_pred_ X2 u)
       = (let n := Z.to_nat (2 * n_aug_ u + 1) in
          enter (CallUpdateRadar m) ;;
          modify (set_Xsig_pred_ (clamped X2 n)) ;;
          k (clamped X2 n) (measurement_space (clamped X2 n) MatrixXd_new n)) u) /\
    (forall X Z v, exists v', k X Z v = ([], Ok (tt, v')) /\ Xsig_pred_ v' = Xsig_pred_ v
                   \/ k X Z v = ([], Abort)).
Proof.
  eexists (fun X' Z' =>
    u <- get ;;
    let n := Z.to_nat (2 * n_aug_ u + 1) in
    let z_pred := vfill (lit 0.0) in
    let z_pred :=
      for_loop n (fun i z_pred => vadd z_pred (vscale (weights_ u i) (col Z' i))) z_pred in
    let R_ := mcomma [ [std_radr_ u * std_radr_ u; of_Z 0; of_Z 0];
                       [of_Z 0; std_radphi_ u * std_radphi_ u; of_Z 0];
                       [of_Z 0; of_Z 0; std_radrd_ u * std_radrd_ u] ]%D in
    let '(S_, T_) :=
      for_loop n (RadarCovariances u Z' z_pred) (mfill (lit 0.0), mfill (lit 0.0)) in
    let S_ := madd S_ R_ in
    let K_ := mmul 3 T_ (inverse 3 S_) in
    eigen_assert (Nat.eqb (length (raw_measurements_ m)) 3) ;;
    let z_diff := vsub (of_list (raw_measurements_ m)) z_pred in
    let z_diff := vset z_diff 1 (normalize_angle (z_diff 1%nat)) in
    modify (fun u => set_x_ (vadd (x_ u) (mvmul 3 K_ z_diff)) u) ;;
    modify (fun u => set_P_ (msub (P_ u) (mmul 3 (mmul 3 K_ S_) (transpose K_))) u) ;;
    modify (set_NIS_radar_ (dot 3 (fun j => dot 3 z_diff (col (inverse 3 S_) j)) z_diff))).
  split.
  - intros X2. unfold UpdateRadar, bind, enter, modify, get, eigen_assert.
    cbn [Xsig_pred_ set_Xsig_pred_ n_aug_].
    rewrite RadarSigmaPoint_loop.
    cbn [set_Xsig_pred_ is_initialized_ use_laser_ use_radar_ x_ P_ std_a_ std_yawdd_
         std_laspx_ std_laspy_ std_radr_ std_radphi_ std_radrd_ time_us_ n_x_ n_aug_
         weights_ Xsig_pred_ NIS_laser_ NIS_radar_ lambda_].
    destruct (for_loop _ (RadarCovariances _ _ _) _) as [S_ T_].
    destruct (Nat.eqb (length (raw_measurements_ m)) 3); reflexivity.
  - intros X Z v. unfold bind, get, modify, eigen_assert. cbn.
    destruct (for_loop _ (RadarCovariances _ _ _) _) as [S_ T_]. cbn.
    destruct (Nat.eqb (length (raw_measurements_ m)) 3).
    + eexists. left. split; reflexivity.
    + exists v. right. reflexivity.
Qed.

(** C10.  The clamp of [UpdateRadar] is written into the member
    [Xsig_pred_]: when the call returns, px and py (rows 0 and 1) of every
    sigma point that had both within 0.001 of zero are 0.01 in [Xsig_pred_],
    and every other coefficient of [Xsig_pred_] is as [Prediction] left it.
    The rest of the same call, the cross-covariance included, reads the
    clamped matrix only: the values that were overwritten have no influence
    on what the call computes. *)
Theorem radar_clamp_is_written_back (u : UKF D) (m : MeasurementPackage D) (u' : UKF D) :
  final (UpdateRadar m u) = Ok u' ->
  let n := Z.to_nat (2 * n_aug_ u + 1) in
  (forall r c,
     Xsig_pred_ u' r c =
     if Nat.ltb c n && near_origin (Xsig_pred_ u) c && Nat.ltb r 2
     then lit 0.01 else Xsig_pred_ u r c) /\
  (forall X2 : @MatrixXd D,
     (forall r c, clamped X2 n r c = clamped (Xsig_pred_ u) n r c) ->
     UpdateRadar m (set_Xsig_pred_ X2 u) = UpdateRadar m u).
Proof.
  intros E n.
  destruct (UpdateRadar_clamped m u) as (k & Hk & Hframe).
  assert (Hu : set_Xsig_pred_ (Xsig_pred_ u) u = u) by (destruct u; reflexivity).
  split.
  - intros r c. fold (clamped (Xsig_pred_ u) n r c).
    pose proof (Hk (Xsig_pred_ u)) as E1. rewrite Hu in E1. fold n in E1.
    rewrite E1 in E. unfold final, bind, enter, modify in E. cbn in E.
    match type of E with context [k ?X ?Z ?v] =>
      destruct (Hframe X Z v) as (v' & [(Ek & Ev) | Ek]); rewrite Ek in E; cbn in E
    end.
    + injection E as <-. rewrite Ev. reflexivity.
    + discriminate.
  - intros X2 HX.
    assert (HX' : clamped X2 n = clamped (Xsig_pred_ u) n).
    { extensionality r. extensionality c. apply HX. }
    rewrite <- Hu at 2. rewrite !Hk. cbv zeta. fold n. rewrite HX'. reflexivity.
Qed.

End RadarWriteBack.

(** ** The updates and the inverse of S *)

Section Updates.

Context {D : Type} {A : Arith D} {L : Libm D} {Inv : Inverse D}.

(** C3, as the code has it.  Neither update tests the innovation covariance:
    whenever the measurement has the number of values the update expects, the
    call returns, and it has overwritten [x_] with [x_ + K_ * y] and [P_] with
    the covariance update, where the gain [K_] is built from whatever Eigen's
    [inverse] returned for S, be S invertible or not. *)
Theorem updates_use_the_inverse_unguarded (u : UKF D) (m : MeasurementPackage D) :
  (length (raw_measurements_ m) = 2%nat ->
   exists u', final (UpdateLidar m u) = Ok u' /\
     let y := vsub (of_list (raw_measurements_ m)) (mvmul 5 LidarH (x_ u)) in
     x_ u' = vadd (x_ u) (mvmul 2 (LidarK u) y) /\
     P_ u' = mmul 5 (msub Identity (mmul 2 (LidarK u) LidarH)) (P_ u) /\
     NIS_laser_ u' = dot 2 (fun j => dot 2 y (col (inverse 2 (LidarS u)) j)) y)
  /\
  (length (raw_measurements_ m) = 3%nat ->
   exists u', final (UpdateRadar m u) = Ok u' /\
     let z_diff := vsub (of_list (raw_measurements_ m)) (RadarZpred u) in
     let z_diff := vset z_diff 1 (normalize_angle (z_diff 1%nat)) in
     x_ u' = vadd (x_ u) (mvmul 3 (RadarK u) z_diff) /\
     P_ u' = msub (P_ u) (mmul 3 (mmul 3 (RadarK u) (RadarS u)) (transpose (RadarK u))) /\
     NIS_radar_ u' = dot 3 (fun j => dot 3 z_diff (col (inverse 3 (RadarS u)) j)) z_diff).
Proof.
  split; intros Hlen.
  - unfold UpdateLidar, final, bind, enter, modify, get, eigen_assert.
    rewrite Hlen. cbn. eexists. split; [reflexivity|]. repeat split.
  - unfold UpdateRadar, final, bind, enter, modify, get, eigen_assert.
    rewrite RadarSigmaPoint_loop.
    cbn [set_Xsig_pred_ is_initialized_ use_laser_ use_radar_ x_ P_ std_a_ std_yawdd_
         std_laspx_ std_laspy_ std_radr_ std_radphi_ std_radrd_ time_us_ n_x_ n_aug_
         weights_ Xsig_pred_ NIS_laser_ NIS_radar_ lambda_].
    unfold RadarK, RadarS.
    change (for_loop (Z.to_nat (2 * n_aug_ u + 1))
              (fun i z_pred =>
                 vadd z_pred
                   (vscale (weights_ u i)
                      (col (measurement_space
                              (clamped (Xsig_pred_ u) (Z.to_nat (2 * n_aug_ u + 1)))
                              MatrixXd_new (Z.to_nat (2 * n_aug_ u + 1))) i)))
              (vfill (lit 0.0)))
      with (RadarZpred u).
    change (for_loop (Z.to_nat (2 * n_aug_ u + 1)) _ (mfill (lit 0.0), mfill (lit 0.0)))
      with (RadarST u).
    destruct (RadarST u) as [S_ T_].
    rewrite Hlen. cbn. eexists. split; [reflexivity|]. repeat split.
Qed.

End Updates.

(** ** A singular S in binary64 arithmetic *)

Module Binary64Facts.
Import Binary64.

(** The reference inverse on an invertible matrix that needs a row exchange:
    the inverse of [[0, 2], [1, 0]] is [[0, 1], [0.5, 0]]. *)
Example gauss_jordan_inverts :
  let Minv := inverse 2 (mcomma [ [float_of_Z 0; float_of_Z 2];
                                  [float_of_Z 1; float_of_Z 0] ]) in
  map (fun i => map (Minv i) (seq 0 2)) (seq 0 2)
  = [ [float_of_Z 0; float_of_Z 1]; [lit 0.5; float_of_Z 0] ].
Proof. vm_compute. reflexivity. Qed.

(** On the covariance of the constructor, whose S is invertible, the same
    call moves the state from the origin towards the measurement (1, 2) and
    writes finite numbers only. *)
Example regular_S_is_updated :
  match final (UpdateLidar lidar_1_2 (set_is_initialized_ true zeroed_ctor)) with
  | Ok u' =>
      forallb (fun i => negb (PrimFloat.is_nan (x_ u' i))
                        && negb (PrimFloat.is_infinity (x_ u' i))) (seq 0 5)
      && PrimFloat.ltb (lit 0.9) (x_ u' 0%nat) && PrimFloat.ltb (x_ u' 0%nat) (lit 1)
      && PrimFloat.ltb (lit 1.9) (x_ u' 1%nat) && PrimFloat.ltb (x_ u' 1%nat) (lit 2)
  | Abort => false
  end = true.
Proof. vm_compute. reflexivity. Qed.

(** C3 fails on the code.  On the filter [degenerate] the innovation
    covariance of a lidar update has a zero first row and a zero first column,
    so it is singular.  [UpdateLidar] on the measurement (1, 2) returns all
    the same, and it has replaced the state, which was (0, 0, 0, 0, 0), and
    the covariance by NaN in every coefficient: the update was not skipped. *)
Lemma singular_S_is_not_skipped :
  LidarS degenerate 0 0 = PrimFloat.zero /\
  LidarS degenerate 0 1 = PrimFloat.zero /\
  LidarS degenerate 1 0 = PrimFloat.zero /\
  map (x_ degenerate) (seq 0 5) = repeat PrimFloat.zero 5 /\
  match final (UpdateLidar lidar_1_2 degenerate) with
  | Ok u' =>
      forallb (fun i => PrimFloat.is_nan (x_ u' i)) (seq 0 5)
      && forallb (fun i => forallb (fun j => PrimFloat.is_nan (P_ u' i j)) (seq 0 5))
           (seq 0 5)
  | Abort => false
  end = true.
Proof.
  repeat split; vm_compute; reflexivity.
Qed.

(** C4 fails on the code.  A fresh filter receives the radar measurement
    (1, 0, 0.7) as its first measurement.  Whatever the C library and Eigen
    compute, the call returns and the third component of the state is not
    the [double] 0.7 that was measured but the nearest [float],
    0.699999988079071044921875, which is smaller: rho_dot went through the
    variable [float rhodot] of line 89. *)
Lemma first_radar_measurement_is_narrowed :
  raw_measurements_ radar_first = [float_of_Z 1; float_of_Z 0; lit 0.7] /\
  forall (L : Libm PrimFloat.float) (Llt : Cholesky PrimFloat.float)
         (sinf cosf : PrimFloat.float -> PrimFloat.float),
    exists u',
      final (ProcessMeasurement (L := L) (F := float_single sinf cosf) (Llt := Llt)
               radar_first zeroed_ctor) = Ok u' /\
      x_ u' 2%nat = PrimFloat.div (float_of_Z 11744051) (float_of_Z 16777216) /\
      PrimFloat.ltb (x_ u' 2%nat) (lit 0.7) = true.
Proof.
  split; [reflexivity|]. intros L Llt sinf cosf.
  eexists. split; [reflexivity|]. split; vm_compute; reflexivity.
Qed.

End Binary64Facts.

(** ** What [Prediction] leaves in [weights_] and [Xsig_pred_] *)

Section PredictionFacts.

Context {D : Type} {A : Arith D} {L : Libm D} {Llt : Cholesky D}.
Local Open Scope double_scope.

(** The members that [SetWeights] reads besides [weights_]. *)
Lemma SetWeights_frame (u : UKF D) :
  lambda_ (SetWeights u) = lambda_ u /\ n_aug_ (SetWeights u) = n_aug_ u /\
  Xsig_pred_ (SetWeights u) = Xsig_pred_ u.
Proof.
  unfold SetWeights.
  apply for_range_invariant
    with (I := fun t => lambda_ t = lambda_ u /\ n_aug_ t = n_aug_ u /\
                        Xsig_pred_ t = Xsig_pred_ u).
  - repeat split.
  - intros i t _ Ht. exact Ht.
Qed.

Lemma SetWeights_loop (k : nat) (u0 : UKF D) :
  let t := for_range 1 (1 + k)
             (fun i u =>
                set_weights_
                  (vset (weights_ u) i (of_Z 1 / (of_Z 2 * (lambda_ u + of_Z (n_aug_ u)))))
                  u) u0 in
  lambda_ t = lambda_ u0 /\ n_aug_ t = n_aug_ u0 /\
  forall i, weights_ t i =
            if Nat.leb 1 i && Nat.ltb i (1 + k)
            then of_Z 1 / (of_Z 2 * (lambda_ u0 + of_Z (n_aug_ u0)))
            else weights_ u0 i.
Proof.
  induction k as [|k IH]; cbv zeta.
  - unfold for_range. cbn [Nat.sub seq fold_left Nat.add].
    repeat split. intros [|i]; reflexivity.
  - rewrite for_range_S. cbv zeta in IH.
    set (t := for_range 1 (1 + k) _ u0) in *. destruct IH as (I1 & I2 & I3).
    cbn [weights_ set_weights_ lambda_ n_aug_].
    split; [exact I1|]. split; [exact I2|].
    intros i. unfold vset. rewrite I1, I2.
    destruct (Nat.eqb_spec i (1 + k)) as [->|Hne].
    + replace (Nat.leb 1 (1 + k)) with true by (symmetry; apply Nat.leb_le; lia).
      replace (Nat.ltb (1 + k) (1 + S k)) with true by (symmetry; apply Nat.ltb_lt; lia).
      reflexivity.
    + rewrite I3.
      replace (Nat.ltb i (1 + S k)) with (Nat.ltb i (1 + k)); [reflexivity|].
      destruct (Nat.ltb_spec i (1 + k)), (Nat.ltb_spec i (1 + S k));
        try reflexivity; lia.
Qed.

(** The weights as lines 196-199 leave them. *)
Lemma SetWeights_weights (u : UKF D) (i : nat) :
  weights_ (SetWeights u) i =
  if Nat.eqb i 0 then lambda_ u / (lambda_ u + of_Z (n_aug_ u))
  else if Nat.ltb i (Z.to_nat (2 * n_aug_ u + 1))
       then of_Z 1 / (of_Z 2 * (lambda_ u + of_Z (n_aug_ u)))
       else weights_ u i.
Proof.
  unfold SetWeights.
  set (u0 := set_weights_ _ u).
  change (n_aug_ u0) with (n_aug_ u).
  destruct (Z.to_nat (2 * n_aug_ u + 1)) as [|k] eqn:E.
  - unfold for_range. cbn [Nat.sub seq fold_left].
    destruct i as [|i]; reflexivity.
  - change (S k) with (1 + k)%nat.
    destruct (SetWeights_loop k u0) as (_ & _ & H). rewrite H.
    destruct i as [|i]; [reflexivity|].
    cbn [Nat.leb andb Nat.eqb]. reflexivity.
Qed.

(** The sigma-point loop of lines 169-193 writes column [c] in iteration [c]
    and nothing else. *)
Lemma PredictSigmaPoint_loop (n : nat) (delta_t : D) (Xsig_aug : @MatrixXd D)
    (u : UKF D) (r c : nat) :
  Xsig_pred_
    (for_loop n
       (fun i u => set_Xsig_pred_ (PredictSigmaPoint delta_t Xsig_aug i (Xsig_pred_ u)) u)
       u) r c
  = if Nat.ltb c n && Nat.ltb r 5
    then PredictSigmaPoint delta_t Xsig_aug c (Xsig_pred_ u) r c
    else Xsig_pred_ u r c.
Proof.
  induction n as [|n IH].
  - reflexivity.
  - rewrite for_loop_S. cbn [Xsig_pred_ set_Xsig_pred_].
    set (t := for_loop n _ u) in *.
    destruct (Nat.eqb_spec c n) as [->|Hne].
    + replace (Nat.ltb n (S n)) with true by (symmetry; apply Nat.ltb_lt; lia).
      cbn [andb]. unfold PredictSigmaPoint.
      destruct (fabs (Xsig_aug 4%nat n) >? lit 0.001); unfold mset; rewrite !Nat.eqb_refl;
        destruct r as [|[|[|[|[|r]]]]]; cbn; try reflexivity;
        rewrite IH; replace (Nat.ltb n n) with false
          by (symmetry; apply Nat.ltb_ge; lia); reflexivity.
    + replace (Nat.ltb c (S n)) with (Nat.ltb c n).
      2:{ destruct (Nat.ltb_spec c n), (Nat.ltb_spec c (S n)); try reflexivity; lia. }
      rewrite <- IH. unfold PredictSigmaPoint.
      destruct (fabs (Xsig_aug 4%nat n) >? lit 0.001); unfold mset;
        replace (Nat.eqb c n) with false by (symmetry; apply Nat.eqb_neq; exact Hne);
        rewrite !andb_false_r; reflexivity.
Qed.

Lemma PredictMeanAndCovariance_frame (u : UKF D) :
  weights_ (PredictMeanAndCovariance u) = weights_ u /\
  lambda_ (PredictMeanAndCovariance u) = lambda_ u /\
  Xsig_pred_ (PredictMeanAndCovariance u) = Xsig_pred_ u.
Proof.
  unfold PredictMeanAndCovariance.
  apply for_loop_invariant
    with (I := fun t => weights_ t = weights_ u /\ lambda_ t = lambda_ u /\
                        Xsig_pred_ t = Xsig_pred_ u); [|intros i t _ Ht; exact Ht].
  cbn [weights_ lambda_ Xsig_pred_ set_P_].
  apply for_loop_invariant
    with (I := fun t => weights_ t = weights_ u /\ lambda_ t = lambda_ u /\
                        Xsig_pred_ t = Xsig_pred_ u); [|intros i t _ Ht; exact Ht].
  repeat split.
Qed.

(** [Prediction] as a whole, on [lambda_], [weights_] and [Xsig_pred_]. *)
Lemma Prediction_leaves (delta_t : D) (u : UKF D) :
  exists u', final (Prediction delta_t u) = Ok u' /\
    let lambda := of_Z (3 - n_aug_ u) in
    let n := Z.to_nat (2 * n_aug_ u + 1) in
    let Xsig_aug := AugmentedSigmaPoints (set_lambda_ lambda u) in
    lambda_ u' = lambda /\
    (forall i, weights_ u' i =
               if Nat.eqb i 0 then lambda / (lambda + of_Z (n_aug_ u))
               else if Nat.ltb i n then of_Z 1 / (of_Z 2 * (lambda + of_Z (n_aug_ u)))
                    else weights_ u i) /\
    (forall r c, Xsig_pred_ u' r c =
                 if Nat.ltb c n && Nat.ltb r 5
                 then PredictSigmaPoint delta_t Xsig_aug c (Xsig_pred_ u) r c
                 else Xsig_pred_ u r c).
Proof.
  unfold Prediction, final, bind, enter, modify, get. cbn [snd fst].
  eexists. split; [reflexivity|]. cbv zeta.
  cbn [n_aug_ set_lambda_].
  set (u1 := set_lambda_ _ u).
  set (u2 := for_loop _ _ u1).
  destruct (PredictMeanAndCovariance_frame (SetWeights u2)) as (F1 & F2 & F3).
  destruct (SetWeights_frame u2) as (G1 & G2 & G3).
  assert (H2 : lambda_ u2 = lambda_ u1 /\ n_aug_ u2 = n_aug_ u1 /\ weights_ u2 = weights_ u1).
  { apply for_loop_invariant
      with (I := fun t => lambda_ t = lambda_ u1 /\ n_aug_ t = n_aug_ u1 /\
                          weights_ t = weights_ u1); [repeat split|].
    intros i t _ Ht. exact Ht. }
  destruct H2 as (H21 & H22 & H23).
  split; [rewrite F2, G1, H21; reflexivity|]. split.
  - intros i. rewrite F1, SetWeights_weights, H21, H22, H23. reflexivity.
  - intros r c. rewrite F3, G3. unfold u2. rewrite PredictSigmaPoint_loop. reflexivity.
Qed.

End PredictionFacts.

Section SigmaMean.

Context {D : Type} {A : Arith D} {Llt : Cholesky D}.

(** Sigma point 0 is the augmented mean: the state, then two zeros. *)
Lemma AugmentedSigmaPoints_mean (u : UKF D) (r : nat) :
  (r < Z.to_nat (n_aug_ u))%nat ->
  AugmentedSigmaPoints u r 0 =
  vset (vset (set_head (Z.to_nat (n_x_ u)) VectorXd_new (x_ u))
          (Z.to_nat (n_x_ u)) (of_Z 0))
    (Z.to_nat (n_x_ u) + 1) (of_Z 0) r.
Proof.
  intros Hr. unfold AugmentedSigmaPoints.
  set (X_aug := vset (vset _ _ _) _ _).
  apply for_loop_invariant with (I := fun M : @MatrixXd D => M r 0%nat = X_aug r).
  - unfold set_col.
    replace (Nat.ltb r (Z.to_nat (n_aug_ u))) with true
      by (symmetry; apply Nat.ltb_lt; exact Hr).
    reflexivity.
  - intros i M _ HM. unfold set_col.
    replace (Nat.eqb 0 (i + 1 + Z.to_nat (n_aug_ u))) with false
      by (symmetry; apply Nat.eqb_neq; lia).
    replace (Nat.eqb 0 (i + 1)) with false by (symmetry; apply Nat.eqb_neq; lia).
    rewrite !andb_false_r. exact HM.
Qed.

End SigmaMean.

(** ** Exact real arithmetic: values *)

Module RealFacts.
Import Reals Lra Psatz RealModel.
Local Open Scope R_scope.

Lemma Rltb_true (a b : R) : Rltb a b = true <-> a < b.
Proof.
  unfold Rltb. destruct (Rlt_dec a b); split; intros; try assumption;
    try reflexivity; try discriminate; contradiction.
Qed.

Lemma Rltb_false (a b : R) : Rltb a b = false <-> ~ a < b.
Proof.
  unfold Rltb. destruct (Rlt_dec a b); split; intros; try assumption;
    try reflexivity; try discriminate; contradiction.
Qed.

(** *** The two-argument arctangent *)

Lemma atan_nonpos (t : R) : t <= 0 -> atan t <= 0.
Proof.
  intros [H|H].
  - left. rewrite <- atan_0. apply atan_increasing. exact H.
  - right. rewrite H. apply atan_0.
Qed.

Lemma atan_pos (t : R) : 0 < t -> 0 < atan t.
Proof.
  intros H. rewrite <- atan_0. apply atan_increasing. exact H.
Qed.

(** The value of [atan2] is an angle in (-PI, PI]. *)
Lemma Ratan2_range (y x : R) : - PI < Ratan2 y x <= PI.
Proof.
  pose proof PI_RGT_0 as HPI.
  pose proof (atan_bound (y / x)) as Hb.
  unfold Ratan2.
  destruct (Rlt_dec 0 x) as [Hx|Hx]; [lra|].
  destruct (Rlt_dec x 0) as [Hx'|Hx'].
  - pose proof (Rinv_lt_0_compat x Hx') as Hi.
    destruct (Rle_dec 0 y) as [Hy|Hy].
    + assert (Ht : y / x <= 0) by (unfold Rdiv; nra).
      pose proof (atan_nonpos Ht). lra.
    + assert (Ht : 0 < y / x) by (unfold Rdiv; nra).
      pose proof (atan_pos Ht). lra.
  - destruct (Rlt_dec 0 y); [lra|]. destruct (Rlt_dec y 0); lra.
Qed.

Lemma atan_of_ratio (t : R) :
  - (PI / 2) < t < PI / 2 -> atan (sin t / cos t) = t.
Proof.
  intros H. change (sin t / cos t) with (tan t). apply atan_tan. exact H.
Qed.

(** On an angle of (-PI, PI], [atan2 (sin t) (cos t)] gives the angle back. *)
Lemma Ratan2_sin_cos (t : R) : - PI < t <= PI -> Ratan2 (sin t) (cos t) = t.
Proof.
  intros [Hlo Hhi]. pose proof PI_RGT_0 as HPI.
  destruct (Rtotal_order t (- (PI / 2))) as [H1 | [H1 | H1]].
  - (* third quadrant *)
    assert (Hc' : 0 < cos (t + PI)) by (apply cos_gt_0; lra).
    assert (Hs' : 0 < sin (t + PI)) by (apply sin_gt_0; lra).
    rewrite neg_cos in Hc'. rewrite neg_sin in Hs'.
    unfold Ratan2.
    destruct (Rlt_dec 0 (cos t)); [lra|].
    destruct (Rlt_dec (cos t) 0); [|lra].
    destruct (Rle_dec 0 (sin t)); [lra|].
    replace (sin t / cos t) with (sin (t + PI) / cos (t + PI)).
    + rewrite atan_of_ratio by lra. lra.
    + rewrite neg_sin, neg_cos. field. lra.
  - (* t = -PI/2 *)
    subst t. unfold Ratan2. rewrite cos_neg, sin_neg, cos_PI2, sin_PI2.
    repeat (destruct (Rlt_dec _ _); try lra).
  - destruct (Rtotal_order t (PI / 2)) as [H2 | [H2 | H2]].
    + (* right half plane *)
      assert (Hc : 0 < cos t) by (apply cos_gt_0; lra).
      unfold Ratan2. destruct (Rlt_dec 0 (cos t)); [|lra].
      apply atan_of_ratio. lra.
    + (* t = PI/2 *)
      subst t. unfold Ratan2. rewrite cos_PI2, sin_PI2.
      repeat (destruct (Rlt_dec _ _); try lra).
    + (* second quadrant *)
      assert (Hc : cos t < 0) by (apply cos_lt_0; lra).
      assert (Hs : 0 <= sin t) by (apply sin_ge_0; lra).
      unfold Ratan2.
      destruct (Rlt_dec 0 (cos t)); [lra|].
      destruct (Rlt_dec (cos t) 0); [|lra].
      destruct (Rle_dec 0 (sin t)); [|lra].
      replace (sin t / cos t) with (sin (t - PI) / cos (t - PI)).
      * rewrite atan_of_ratio by lra. lra.
      * replace t with ((t - PI) + PI) at 3 4 by lra.
        rewrite neg_sin, neg_cos. field.
        replace t with ((t - PI) + PI) in Hc by lra. rewrite neg_cos in Hc. lra.
Qed.

Lemma sin_plus_2PI (t : R) : sin (t + 2 * PI) = sin t.
Proof.
  replace (t + 2 * PI) with ((t + PI) + PI) by lra. rewrite !neg_sin. lra.
Qed.

Lemma cos_plus_2PI (t : R) : cos (t + 2 * PI) = cos t.
Proof.
  replace (t + 2 * PI) with ((t + PI) + PI) by lra. rewrite !neg_cos. lra.
Qed.

(** C8, in exact arithmetic.  The angle reduction [atan2(sin(a), cos(a))]
    that [Prediction] and [UpdateRadar] apply to yaw and bearing deviations
    returns a value in (-PI, PI], returns every angle of (-PI, PI] unchanged
    (so reducing twice is reducing once), and sends PI + eps to -PI + eps for
    0 < eps <= 2 PI.  On binary64 numbers the reduction is exact only up to
    the rounding of the three functions (module [RoundingFacts]). *)
Theorem normalize_angle_reduces_into_minus_pi_pi :
  (forall a : R, - PI < normalize_angle a <= PI) /\
  (forall a : R, - PI < a <= PI -> normalize_angle a = a) /\
  (forall a : R, normalize_angle (normalize_angle a) = normalize_angle a) /\
  (forall eps : R, 0 < eps <= 2 * PI -> normalize_angle (PI + eps) = - PI + eps).
Proof.
  assert (Hrange : forall a : R, - PI < normalize_angle a <= PI).
  { intros a. apply Ratan2_range. }
  assert (Hid : forall a : R, - PI < a <= PI -> normalize_angle a = a).
  { intros a Ha. apply Ratan2_sin_cos. exact Ha. }
  repeat split; try apply Hrange.
  - exact Hid.
  - intros a. apply Hid. apply Hrange.
  - intros eps Heps. unfold normalize_angle. cbn [Num.sin Num.cos Num.atan2 R_libm].
    replace (PI + eps) with ((- PI + eps) + 2 * PI) by lra.
    rewrite sin_plus_2PI, cos_plus_2PI. apply Ratan2_sin_cos. lra.
Qed.

(** *** The weights *)

Lemma sum_upto_S (n : nat) (f : nat -> R) : sum_upto (S n) f = sum_upto n f + f n.
Proof. unfold sum_upto. rewrite for_loop_S. reflexivity. Qed.

Lemma sum_first_then_constant (w : nat -> R) (c : R) (m : nat) :
  (forall i, (1 <= i <= m)%nat -> w i = c) ->
  sum_upto (S m) w = w 0%nat + INR m * c.
Proof.
  intros H. induction m as [|m IH].
  - rewrite sum_upto_S. unfold sum_upto, for_loop. cbn. lra.
  - rewrite sum_upto_S, IH by (intros i Hi; apply H; lia).
    rewrite (H (S m)) by lia. rewrite S_INR. lra.
Qed.

(** C5.  After [Prediction], with lambda = 3 - n_aug: [weights_(0)] is
    lambda / (lambda + n_aug), [weights_(i)] is 1 / (2 (lambda + n_aug)) for
    every i from 1 to 2 n_aug, and the 2 n_aug + 1 weights sum to 1 (in exact
    arithmetic). *)
Theorem weights_after_prediction (u : UKF R) (delta_t : R) :
  (0 <= n_aug_ u)%Z ->
  exists u', final (Prediction delta_t u) = Ok u' /\
    let lambda := IZR (3 - n_aug_ u) in
    let n_aug := IZR (n_aug_ u) in
    lambda_ u' = lambda /\
    weights_ u' 0%nat = lambda / (lambda + n_aug) /\
    (forall i, (1 <= i < Z.to_nat (2 * n_aug_ u + 1))%nat ->
               weights_ u' i = 1 / (2 * (lambda + n_aug))) /\
    sum_upto (Z.to_nat (2 * n_aug_ u + 1)) (weights_ u') = 1.
Proof.
  intros Hn.
  destruct (Prediction_leaves delta_t u) as (u' & E & Hl & Hw & _).
  exists u'. split; [exact E|]. cbv zeta.
  cbn [of_Z Num.div Num.add Num.mul R_arith] in Hl, Hw.
  assert (H0 : weights_ u' 0%nat
               = IZR (3 - n_aug_ u) / (IZR (3 - n_aug_ u) + IZR (n_aug_ u))).
  { rewrite Hw. reflexivity. }
  assert (Hi : forall i, (1 <= i < Z.to_nat (2 * n_aug_ u + 1))%nat ->
               weights_ u' i = 1 / (2 * (IZR (3 - n_aug_ u) + IZR (n_aug_ u)))).
  { intros i Hi. rewrite Hw.
    replace (Nat.eqb i 0) with false by (symmetry; apply Nat.eqb_neq; lia).
    replace (Nat.ltb i (Z.to_nat (2 * n_aug_ u + 1))) with true
      by (symmetry; apply Nat.ltb_lt; lia).
    reflexivity. }
  repeat split; try assumption.
  replace (Z.to_nat (2 * n_aug_ u + 1)) with (S (Z.to_nat (2 * n_aug_ u))) in * by lia.
  rewrite sum_first_then_constant
    with (c := 1 / (2 * (IZR (3 - n_aug_ u) + IZR (n_aug_ u))))
    by (intros i Hi'; apply Hi; lia).
  rewrite H0, INR_IZR_INZ, Z2Nat.id by lia.
  rewrite minus_IZR, mult_IZR. field. lra.
Qed.

(** The hypothesis of C5 holds of the filter the constructor makes. *)
Lemma weights_after_prediction_witness :
  exists u', final (Prediction 1 fresh) = Ok u' /\
    sum_upto 15 (weights_ u') = 1.
Proof.
  destruct (weights_after_prediction fresh 1) as (u' & E & _ & _ & _ & Hs).
  - cbn. lia.
  - exists u'. split; [exact E | exact Hs].
Defined.

(** *** The process model *)

(** C6.  [Prediction] over the elapsed time [delta_t] sends sigma point [i],
    with components px, py, v, yaw, yawdot and noise mu_a, through the
    process model: px becomes px + px_step + 0.5 delta_t^2 cos(yaw) mu_a and
    py likewise with py_step and sin(yaw), where for |yawdot| > 0.001 the step
    is the arc px_step = v/yawdot (sin(yaw + yawdot delta_t) - sin(yaw)),
    py_step = v/yawdot (cos(yaw) - cos(yaw + yawdot delta_t)), and otherwise
    the straight line px_step = v cos(yaw) delta_t, py_step = v sin(yaw)
    delta_t.  With yawdot = 0, v = 10, yaw = 0, delta_t = 1 and no noise, px
    grows by exactly 10. *)
Theorem sigma_point_position_step (u : UKF R) (delta_t : R) (i : nat) :
  (i < Z.to_nat (2 * n_aug_ u + 1))%nat ->
  exists u', final (Prediction delta_t u) = Ok u' /\
    let Xsig_aug := AugmentedSigmaPoints (set_lambda_ (IZR (3 - n_aug_ u)) u) in
    let px := Xsig_aug 0%nat i in
    let py := Xsig_aug 1%nat i in
    let v := Xsig_aug 2%nat i in
    let yaw := Xsig_aug 3%nat i in
    let yawdot := Xsig_aug 4%nat i in
    let mu_a := Xsig_aug 5%nat i in
    exists px_step py_step : R,
      Xsig_pred_ u' 0%nat i = px + px_step + 0.5 * delta_t * delta_t * cos yaw * mu_a /\
      Xsig_pred_ u' 1%nat i = py + py_step + 0.5 * delta_t * delta_t * sin yaw * mu_a /\
      (Rabs yawdot > 0.001 ->
       px_step = v / yawdot * (sin (yaw + yawdot * delta_t) - sin yaw) /\
       py_step = v / yawdot * (cos yaw - cos (yaw + yawdot * delta_t))) /\
      (~ Rabs yawdot > 0.001 ->
       px_step = v * cos yaw * delta_t /\
       py_step = v * sin yaw * delta_t) /\
      (yawdot = 0 -> v = 10 -> yaw = 0 -> delta_t = 1 -> mu_a = 0 ->
       Xsig_pred_ u' 0%nat i = px + 10).
Proof.
  intros Hi.
  destruct (Prediction_leaves delta_t u) as (u' & E & _ & _ & HX).
  exists u'. split; [exact E|]. cbv zeta in *.
  cbn [of_Z R_arith] in HX.
  set (Xsig_aug := AugmentedSigmaPoints (set_lambda_ (IZR (3 - n_aug_ u)) u)) in *.
  assert (H0 := HX 0%nat i). assert (H1 := HX 1%nat i).
  replace (Nat.ltb i (Z.to_nat (2 * n_aug_ u + 1))) with true in H0, H1
    by (symmetry; apply Nat.ltb_lt; exact Hi).
  cbn [andb Nat.ltb Nat.leb] in H0, H1.
  unfold PredictSigmaPoint in H0, H1.
  cbn [Num.fabs Num.ltb lit Num.add Num.sub Num.mul Num.div Num.opp R_arith
       Num.sin Num.cos R_libm] in H0, H1.
  destruct (Rltb 0.001 (Rabs (Xsig_aug 4%nat i))) eqn:Hc.
  - apply Rltb_true in Hc.
    unfold mset in H0, H1. rewrite !Nat.eqb_refl in H0, H1. cbn in H0, H1.
    assert (Hy : Xsig_aug 4%nat i <> 0).
    { intros Hz. rewrite Hz, Rabs_R0 in Hc. lra. }
    eexists. eexists. split; [exact H0|]. split; [exact H1|].
    split; [|split].
    + intros _. split; field; exact Hy.
    + intros Hn. exfalso. apply Hn. exact Hc.
    + intros Hz. rewrite Hz in Hy. contradiction.
  - apply Rltb_false in Hc.
    unfold mset in H0, H1. rewrite !Nat.eqb_refl in H0, H1. cbn in H0, H1.
    eexists. eexists. split; [exact H0|]. split; [exact H1|].
    split; [|split].
    + intros Hgt. exfalso. apply Hc. exact Hgt.
    + intros _. split; reflexivity.
    + intros _ Hv Hyaw Hdt Hmu. rewrite H0, Hv, Hyaw, Hdt, Hmu, cos_0. lra.
Qed.

(** The hypothesis of C6 holds of sigma point 0 of the filter [cruising], and
    so do those of its last part: px goes from 0 to 10. *)
Lemma sigma_point_position_step_witness :
  (0 < Z.to_nat (2 * n_aug_ cruising + 1))%nat /\
  exists u', final (Prediction 1 cruising) = Ok u' /\ Xsig_pred_ u' 0%nat 0%nat = 10.
Proof.
  assert (H : (0 < Z.to_nat (2 * n_aug_ cruising + 1))%nat) by (cbn; lia).
  split; [exact H|].
  destruct (@sigma_point_position_step cruising 1 0%nat H)
    as (u' & E & px_step & py_step & _ & _ & _ & _ & Hten).
  exists u'. split; [exact E|].
  assert (Hm : forall r, (r < 7)%nat ->
             AugmentedSigmaPoints (set_lambda_ (IZR (3 - n_aug_ cruising)) cruising) r 0%nat
             = nth r [0; 0; 10; 0; 0; 0; 0] 0).
  { intros r Hr. rewrite AugmentedSigmaPoints_mean by exact Hr.
    do 7 (destruct r as [|r]; [reflexivity|]). lia. }
  rewrite Hten; try (rewrite Hm by lia; reflexivity).
  - rewrite Hm by lia. cbn. lra.
  - reflexivity.
Defined.

(** *** The radar measurement space *)

Lemma near_origin_true (X : @MatrixXd R) (c : nat) :
  near_origin X c = true <-> Rabs (X 0%nat c) < 0.001 /\ Rabs (X 1%nat c) < 0.001.
Proof.
  unfold near_origin. cbn [Num.ltb Num.fabs lit R_arith].
  rewrite andb_true_iff, !Rltb_true. reflexivity.
Qed.

Lemma sum_of_squares_positive (a b : R) :
  ~ (Rabs a < 0.001 /\ Rabs b < 0.001) -> 0 < a * a + b * b.
Proof.
  intros H.
  destruct (Rlt_dec (Rabs a) 0.001) as [Ha|Ha].
  - destruct (Rlt_dec (Rabs b) 0.001) as [Hb|Hb]; [tauto|].
    assert (b <> 0) by (intros ->; rewrite Rabs_R0 in Hb; lra). nra.
  - assert (a <> 0) by (intros ->; rewrite Rabs_R0 in Ha; lra). nra.
Qed.

(** C7.  In the first loop of [UpdateRadar], a sigma point whose px and py
    are both within 0.001 of zero has both set to 0.01 before it is
    transformed; the range of every sigma point is the square root of
    px^2 + py^2 of the point as the loop left it and is positive, so the
    division by it in the range rate never divides by zero; a sigma point
    with px = py = 0 gets the range sqrt(0.01^2 + 0.01^2). *)
Theorem radar_range_is_guarded (u : UKF R) (c : nat) :
  (c < Z.to_nat (2 * n_aug_ u + 1))%nat ->
  let n := Z.to_nat (2 * n_aug_ u + 1) in
  let X := Xsig_pred_ u in
  let X' := fst (for_loop n RadarSigmaPoint (X, MatrixXd_new)) in
  let Zsig_pred := snd (for_loop n RadarSigmaPoint (X, MatrixXd_new)) in
  (Rabs (X 0%nat c) < 0.001 /\ Rabs (X 1%nat c) < 0.001 ->
   X' 0%nat c = 0.01 /\ X' 1%nat c = 0.01) /\
  Zsig_pred 0%nat c = sqrt (X' 0%nat c * X' 0%nat c + X' 1%nat c * X' 1%nat c) /\
  Zsig_pred 2%nat c =
    (X' 0%nat c * cos (X' 3%nat c) * X' 2%nat c
     + X' 1%nat c * sin (X' 3%nat c) * X' 2%nat c) / Zsig_pred 0%nat c /\
  0 < Zsig_pred 0%nat c /\
  (X 0%nat c = 0 -> X 1%nat c = 0 ->
   Zsig_pred 0%nat c = sqrt (0.01 * 0.01 + 0.01 * 0.01)).
Proof.
  intros Hc n X X' Zsig_pred.
  unfold X', Zsig_pred. rewrite RadarSigmaPoint_loop. cbn [fst snd].
  assert (Hlt : Nat.ltb c n = true) by (apply Nat.ltb_lt; exact Hc).
  assert (Hcl : Rabs (X 0%nat c) < 0.001 /\ Rabs (X 1%nat c) < 0.001 ->
                clamped X n 0%nat c = 0.01 /\ clamped X n 1%nat c = 0.01).
  { intros Hn. apply near_origin_true in Hn. unfold clamped. rewrite Hlt, Hn.
    split; reflexivity. }
  assert (Hrho : measurement_space (clamped X n) MatrixXd_new n 0%nat c
                 = sqrt (clamped X n 0%nat c * clamped X n 0%nat c
                         + clamped X n 1%nat c * clamped X n 1%nat c)).
  { unfold measurement_space. rewrite Hlt. reflexivity. }
  split; [exact Hcl|]. split; [exact Hrho|]. split; [|split].
  - rewrite Hrho. unfold measurement_space. rewrite Hlt. reflexivity.
  - rewrite Hrho. apply sqrt_lt_R0.
    destruct (near_origin X c) eqn:Hn.
    + apply near_origin_true in Hn. destruct (Hcl Hn) as [-> ->]. lra.
    + unfold clamped. rewrite Hlt, Hn. cbn [andb].
      apply sum_of_squares_positive. intros H. apply near_origin_true in H. congruence.
  - intros H0 H1. rewrite Hrho.
    destruct Hcl as [-> ->]; [|reflexivity].
    rewrite H0, H1, Rabs_R0. lra.
Qed.

(** The hypothesis of C7 holds of sigma point 0 of [after_first_lidar], whose
    sigma points are all at the origin. *)
Lemma radar_range_is_guarded_witness :
  (0 < Z.to_nat (2 * n_aug_ after_first_lidar + 1))%nat /\
  snd (for_loop 15 RadarSigmaPoint (Xsig_pred_ after_first_lidar, MatrixXd_new)) 0%nat 0%nat
  = sqrt (0.01 * 0.01 + 0.01 * 0.01).
Proof.
  assert (H : (0 < Z.to_nat (2 * n_aug_ after_first_lidar + 1))%nat) by (cbn; lia).
  split; [exact H|].
  destruct (@radar_range_is_guarded after_first_lidar 0%nat H) as (_ & _ & _ & _ & G).
  apply G; reflexivity.
Defined.

(** *** Timestamps *)

Lemma after_first_lidar_reachable : reachable after_first_lidar.
Proof.
  apply reachable_call with (u := fresh) (meas_package := lidar_at 1000000 5 3).
  - apply reachable_ctor.
  - reflexivity.
Qed.

Lemma elapsed_seconds (m : MeasurementPackage R) (u : UKF R) :
  elapsed m u = IZR (timestamp_ m - time_us_ u) / 1000000.
Proof. unfold elapsed. cbn [of_Z lit Num.div R_arith]. lra. Qed.

Lemma elapsed_negative (m : MeasurementPackage R) (u : UKF R) :
  (timestamp_ m < time_us_ u)%Z -> elapsed m u < 0.
Proof.
  intros H. rewrite elapsed_seconds.
  assert (IZR (timestamp_ m - time_us_ u) < 0) by (apply IZR_lt; lia).
  lra.
Qed.

(** C2, as the code has it.  A call on an initialised filter that a program
    has reached, with a timestamp earlier than the clock, is not rejected:
    there is no test of the timestamp.  [Prediction] is called with the
    negative elapsed time (timestamp - clock) / 1000000, and then the one
    update that the flags select, [UpdateLidar] when [use_laser_] is set and
    [UpdateRadar] otherwise.  The call returns exactly when the measurement
    has the number of values that update expects, and then the clock has been
    moved back to the timestamp. *)
Theorem earlier_timestamp_is_predicted (u : UKF R) (m : MeasurementPackage R) :
  reachable u -> is_initialized_ u = true -> (timestamp_ m < time_us_ u)%Z ->
  let delta_t := IZR (timestamp_ m - time_us_ u) / 1000000 in
  delta_t < 0 /\
  calls (ProcessMeasurement m u)
    = [CallPrediction delta_t;
       if use_laser_ u then CallUpdateLidar m else CallUpdateRadar m] /\
  ((exists u', final (ProcessMeasurement m u) = Ok u') <->
   length (raw_measurements_ m) = if use_laser_ u then 2%nat else 3%nat) /\
  (forall u', final (ProcessMeasurement m u) = Ok u' -> time_us_ u' = timestamp_ m).
Proof.
  intros Hreach Hi Ht delta_t.
  assert (Hd : elapsed m u = delta_t) by apply elapsed_seconds.
  split; [rewrite <- Hd; apply elapsed_negative; exact Ht|].
  destruct (reachable_flags Hreach) as [(Hi' & _) | (_ & Hx)]; [congruence|].
  destruct (use_radar_ u) eqn:Hr; simpl in Hx; rewrite Hx.
  - destruct (ProcessMeasurement_radar m u Hi Hx Hr) as (Hc & Hret & G).
    split; [rewrite Hc, Hd; reflexivity|].
    split; [split; apply Hret|].
    intros u' E. apply (G u' E).
  - destruct (ProcessMeasurement_laser m u Hi Hx) as (Hc & Hret & G).
    split; [rewrite Hc, Hd; reflexivity|].
    split; [split; apply Hret|].
    intros u' E. apply (G u' E).
Qed.

(** The hypotheses of C2 (amended) hold of a radar measurement stamped 0 s
    that reaches the filter whose clock is at 1 s: the call predicts over
    -1 s and runs [UpdateRadar]. *)
Lemma earlier_timestamp_is_predicted_witness :
  reachable after_first_lidar /\
  is_initialized_ after_first_lidar = true /\
  (timestamp_ (radar_at 0 1 0 0) < time_us_ after_first_lidar)%Z /\
  calls (ProcessMeasurement (radar_at 0 1 0 0) after_first_lidar)
    = [CallPrediction (IZR (0 - 1000000) / 1000000);
       CallUpdateRadar (radar_at 0 1 0 0)].
Proof.
  assert (Hi : is_initialized_ after_first_lidar = true) by reflexivity.
  assert (Ht : (timestamp_ (radar_at 0 1 0 0) < time_us_ after_first_lidar)%Z)
    by (cbn; lia).
  split; [exact after_first_lidar_reachable|]. split; [exact Hi|]. split; [exact Ht|].
  destruct (@earlier_timestamp_is_predicted after_first_lidar (radar_at 0 1 0 0)
              after_first_lidar_reachable Hi Ht)
    as (_ & Hc & _).
  exact Hc.
Defined.

(** C2 fails on the code.  The filter that a first lidar measurement at 1 s
    initialised receives a radar measurement stamped 0 s: the call returns
    normally, it has called [Prediction] with -1 s and then [UpdateRadar], and
    the clock is back at 0. *)
Lemma earlier_timestamp_is_not_rejected :
  reachable after_first_lidar /\
  is_initialized_ after_first_lidar = true /\
  time_us_ after_first_lidar = 1000000%Z /\
  timestamp_ (radar_at 0 1 0 0) = 0%Z /\
  calls (ProcessMeasurement (radar_at 0 1 0 0) after_first_lidar)
    = [CallPrediction (-1); CallUpdateRadar (radar_at 0 1 0 0)] /\
  exists u', final (ProcessMeasurement (radar_at 0 1 0 0) after_first_lidar) = Ok u' /\
             time_us_ u' = 0%Z.
Proof.
  split; [exact after_first_lidar_reachable|].
  split; [reflexivity|]. split; [reflexivity|]. split; [reflexivity|].
  destruct (ProcessMeasurement_radar (radar_at 0 1 0 0) after_first_lidar
              eq_refl eq_refl eq_refl) as (Hc & Hret & G).
  split.
  - rewrite Hc. f_equal. f_equal. rewrite elapsed_seconds. cbn. lra.
  - destruct (proj1 Hret eq_refl) as (u' & E). exists u'. split; [exact E|].
    destruct (G u' E) as ((_ & _ & _ & g4) & _). exact g4.
Qed.

(** *** The hypotheses of the general theorems are satisfiable *)

(** C1 at a concrete call: the filter that a first lidar measurement
    initialised receives a second lidar measurement, and runs [UpdateRadar]
    on it. *)
Lemma update_selected_by_flags_witness :
  reachable after_first_lidar /\
  is_initialized_ after_first_lidar = true /\
  calls (ProcessMeasurement (lidar_at 2000000 6 3) after_first_lidar)
    = [CallPrediction (elapsed (lidar_at 2000000 6 3) after_first_lidar);
       CallUpdateRadar (lidar_at 2000000 6 3)].
Proof.
  split; [exact after_first_lidar_reachable|]. split; [reflexivity|].
  destruct (update_selected_by_flags (lidar_at 2000000 6 3)
              after_first_lidar_reachable eq_refl)
    as [(Hl & _) | (_ & _ & Hc & _)].
  - discriminate Hl.
  - exact Hc.
Defined.

(** C9 at the first call. *)
Lemma flags_alternate_witness :
  reachable fresh /\
  final (ProcessMeasurement (lidar_at 1000000 5 3) fresh) = Ok after_first_lidar /\
  use_laser_ after_first_lidar = negb (use_radar_ after_first_lidar).
Proof.
  assert (Hr : reachable fresh) by apply reachable_ctor.
  assert (E : final (ProcessMeasurement (lidar_at 1000000 5 3) fresh)
              = Ok after_first_lidar) by reflexivity.
  split; [exact Hr|]. split; [exact E|].
  destruct (flags_alternate _ Hr E) as (_ & H & _). exact H.
Defined.

(** C10 at a concrete call: every sigma point of [after_first_lidar] is at
    the origin, and [UpdateRadar] leaves 0.01 in [Xsig_pred_]. *)
Lemma radar_clamp_is_written_back_witness :
  exists u', final (UpdateRadar (radar_at 2000000 1 0 0) after_first_lidar) = Ok u' /\
             Xsig_pred_ after_first_lidar 0%nat 0%nat = 0 /\
             Xsig_pred_ u' 0%nat 0%nat = 0.01.
Proof.
  destruct (UpdateRadar_run (radar_at 2000000 1 0 0) after_first_lidar)
    as [(_ & u' & E & _) | (Hlen & _)]; [|exfalso; apply Hlen; reflexivity].
  assert (E' : final (UpdateRadar (radar_at 2000000 1 0 0) after_first_lidar) = Ok u').
  { unfold final. rewrite E. reflexivity. }
  exists u'. split; [exact E'|]. split; [reflexivity|].
  destruct (radar_clamp_is_written_back after_first_lidar (radar_at 2000000 1 0 0) E')
    as (H & _).
  rewrite H.
  assert (Hn : near_origin (Xsig_pred_ after_first_lidar) 0 = true).
  { apply near_origin_true. change (Rabs 0 < 0.001 /\ Rabs 0 < 0.001).
    rewrite Rabs_R0. lra. }
  rewrite Hn. reflexivity.
Defined.


(** C3 (amended) at a concrete call: a lidar measurement of two values on
    [after_first_lidar]. *)
Lemma updates_use_the_inverse_unguarded_witness :
  length (raw_measurements_ (lidar_at 2000000 6 3)) = 2%nat /\
  exists u', final (UpdateLidar (lidar_at 2000000 6 3) after_first_lidar) = Ok u' /\
    x_ u' = vadd (x_ after_first_lidar)
              (mvmul 2 (LidarK after_first_lidar)
                 (vsub (of_list [6; 3]) (mvmul 5 LidarH (x_ after_first_lidar)))).
Proof.
  split; [reflexivity|].
  destruct (updates_use_the_inverse_unguarded after_first_lidar (lidar_at 2000000 6 3))
    as (H & _).
  destruct (H eq_refl) as (u' & E & Hx & _).
  exists u'. split; [exact E | exact Hx].
Defined.

(** C4 at a concrete call: the lidar measurement (5, 3) at 1 s on a fresh
    filter gives the state (5, 3, 0, 0, 0), and the next call predicts. *)
Lemma first_call_seeds_the_state_witness :
  (exists u', final (ProcessMeasurement (lidar_at 1000000 5 3) fresh) = Ok u' /\
              x_ u' = vcomma [5; 3; 0; 0; 0] /\ P_ u' = P_ fresh) /\
  is_initialized_ after_first_lidar = true /\
  exists delta_t rest,
    calls (ProcessMeasurement (radar_at 2000000 1 0 0) after_first_lidar)
      = CallPrediction delta_t :: rest.
Proof.
  destruct (first_call_seeds_the_state (vfill 0) (vfill 0) (mfill 0) 0 (lidar_at 1000000 5 3))
    as (_ & _ & H & G).
  split; [|split; [reflexivity|]].
  - destruct H as (u' & E & Hx & HP & _). exists u'.
    split; [exact E|]. split; [exact Hx | exact HP].
  - apply G. reflexivity.
Defined.

(** C8 at the angles 0 and PI + 1. *)
Lemma normalize_angle_witness :
  (- PI < 0 <= PI) /\ normalize_angle 0 = 0 /\
  (0 < 1 <= 2 * PI) /\ normalize_angle (PI + 1) = - PI + 1.
Proof.
  pose proof PI_RGT_0 as H0. pose proof PI2_1 as H1.
  destruct normalize_angle_reduces_into_minus_pi_pi as (_ & Hid & _ & Hwrap).
  assert (Ha : - PI < 0 <= PI) by lra.
  assert (Hb : 0 < 1 <= 2 * PI) by lra.
  split; [exact Ha|]. split; [exact (Hid 0 Ha)|]. split; [exact Hb|]. exact (Hwrap 1 Hb).
Defined.

End RealFacts.

(** ** The angle reduction on binary64 numbers *)

Module RoundingFacts.
Import Reals Lra Psatz Qreals RealModel RealFacts Rounding.
Local Open Scope R_scope.

Lemma Zfact_fact (n : nat) : IZR (Zfact n) = INR (fact n).
Proof.
  induction n as [|n IH]; [reflexivity|].
  change (Zfact (S n)) with (Z.of_nat (S n) * Zfact n)%Z.
  rewrite mult_IZR, IH, <- INR_IZR_INZ, fact_simpl, mult_INR. reflexivity.
Qed.

Lemma Zfact_pos (n : nat) : (0 < Zfact n)%Z.
Proof.
  induction n as [|n IH]; [reflexivity|].
  change (Zfact (S n)) with (Z.of_nat (S n) * Zfact n)%Z.
  apply Z.mul_pos_pos; [lia | exact IH].
Qed.

Lemma Q2R_inject_Z (z : Z) : Q2R (inject_Z z) = IZR z.
Proof. unfold Q2R, inject_Z. cbn. field. Qed.

Lemma Q2R_Qpow (a : Q) (n : nat) : Q2R (Qpow a n) = (Q2R a) ^ n.
Proof.
  induction n as [|n IH]; cbn [Qpow pow].
  - apply RMicromega.Q2R_1.
  - rewrite Q2R_mult, IH. reflexivity.
Qed.

Lemma Q2R_minus_one : Q2R (-1 # 1) = -1.
Proof. unfold Q2R. cbn. field. Qed.

Lemma Q2R_Qsum (f : nat -> Q) (g : nat -> R) (n : nat) :
  (forall i, Q2R (f i) = g i) -> Q2R (Qsum f n) = sum_f_R0 g n.
Proof.
  intros H. induction n as [|n IH]; cbn [Qsum sum_f_R0].
  - apply H.
  - rewrite Q2R_plus, IH, H. reflexivity.
Qed.

Lemma Q2R_sin_approx (a : Q) (n : nat) :
  Q2R (sin_approx_Q a n) = sin_approx (Q2R a) n.
Proof.
  apply Q2R_Qsum. intros i. unfold sin_term_Q, sin_term.
  rewrite Q2R_mult, Q2R_div, !Q2R_Qpow, Q2R_minus_one, Q2R_inject_Z, Zfact_fact.
  - reflexivity.
  - intros H. pose proof (Zfact_pos (2 * i + 1)) as Hp.
    unfold Qeq, inject_Z in H. cbn [Qnum Qden] in H. lia.
Qed.

Lemma Q2R_cos_approx (a : Q) (n : nat) :
  Q2R (cos_approx_Q a n) = cos_approx (Q2R a) n.
Proof.
  apply Q2R_Qsum. intros i. unfold cos_term_Q, cos_term.
  rewrite Q2R_mult, Q2R_div, !Q2R_Qpow, Q2R_minus_one, Q2R_inject_Z, Zfact_fact.
  - reflexivity.
  - intros H. pose proof (Zfact_pos (2 * i)) as Hp.
    unfold Qeq, inject_Z in H. cbn [Qnum Qden] in H. lia.
Qed.

(** The partial sums of the alternating series bracket sine and cosine. *)
Lemma sin_bracket (a : Q) (n : nat) :
  (0 <= a)%Q -> (a <= 2)%Q ->
  Q2R (sin_approx_Q a (2 * n + 1)) <= sin (Q2R a)
    <= Q2R (sin_approx_Q a (2 * (n + 1))).
Proof.
  intros H0 H2. rewrite !Q2R_sin_approx.
  apply Qle_Rle in H0. rewrite RMicromega.Q2R_0 in H0.
  apply Qle_Rle in H2. replace (Q2R 2) with 2 in H2 by (unfold Q2R; cbn; field).
  apply pre_sin_bound; lra.
Qed.

Lemma cos_bracket (a : Q) (n : nat) :
  (0 <= a)%Q -> (a <= 2)%Q ->
  Q2R (cos_approx_Q a (2 * n + 1)) <= cos (Q2R a)
    <= Q2R (cos_approx_Q a (2 * (n + 1))).
Proof.
  intros H0 H2. rewrite !Q2R_cos_approx.
  apply Qle_Rle in H0. rewrite RMicromega.Q2R_0 in H0.
  apply Qle_Rle in H2. replace (Q2R 2) with 2 in H2 by (unfold Q2R; cbn; field).
  apply pre_cos_bound; lra.
Qed.

Lemma mid_Q_R (x y : PrimFloat.float) : Q2R (mid_Q x y) = (to_R x + to_R y) / 2.
Proof.
  unfold mid_Q, to_R. rewrite Q2R_div, Q2R_plus.
  - replace (Q2R (2 # 1)) with 2; [reflexivity|]. unfold Q2R. cbn. field.
  - intros H. unfold Qeq in H. cbn in H. lia.
Qed.

Lemma to_R_pos (y : PrimFloat.float) : (0 < to_Q y)%Q -> 0 < to_R y.
Proof.
  intros H. apply Qlt_Rlt in H. rewrite RMicromega.Q2R_0 in H. exact H.
Qed.

(** A number strictly between the two midpoints around [y] rounds to [y];
    the bounds are rational and checked by computation. *)
Lemma rounds_to_between (r : R) (lo hi : Q) (y : PrimFloat.float) :
  is_finite (PrimFloat.next_down y) = true ->
  is_finite (PrimFloat.next_up y) = true ->
  (0 < to_Q y)%Q ->
  (mid_Q (PrimFloat.next_down y) y < lo)%Q ->
  (hi < mid_Q y (PrimFloat.next_up y))%Q ->
  Q2R lo <= r <= Q2R hi ->
  rounds_to r y.
Proof.
  intros Hd Hu Hy Hlo Hhi (H1 & H2). unfold rounds_to.
  split; [exact Hd|]. split; [exact Hu|].
  split; [apply to_R_pos in Hy; lra|].
  rewrite <- !mid_Q_R. apply Qlt_Rlt in Hlo, Hhi. lra.
Qed.

(** Brackets for the arctangent of a quotient of positive rationals, from
    brackets of sine and cosine at the two ends. *)
Lemma atan_bracket (v w lo hi : Q) (n : nat) :
  (0 <= v)%Q -> (0 < w)%Q ->
  (0 <= lo)%Q -> (lo <= 1)%Q -> (0 <= hi)%Q -> (hi <= 1)%Q ->
  (0 < cos_approx_Q lo (2 * n + 1))%Q ->
  (0 < cos_approx_Q hi (2 * n + 1))%Q ->
  (sin_approx_Q lo (2 * (n + 1)) * w < v * cos_approx_Q lo (2 * n + 1))%Q ->
  (v * cos_approx_Q hi (2 * (n + 1)) < w * sin_approx_Q hi (2 * n + 1))%Q ->
  Q2R lo < Ratan2 (Q2R v) (Q2R w) < Q2R hi.
Proof.
  intros Hv Hw Hl0 Hl1 Hh0 Hh1 Hcl Hch Hlow Hupp.
  assert (Q2 : forall q : Q, (q <= 1)%Q -> (q <= 2)%Q).
  { intros q Hq. apply Qle_trans with (1 := Hq). discriminate. }
  destruct (@sin_bracket lo n Hl0 (Q2 lo Hl1)) as (_ & Sl).
  destruct (@cos_bracket lo n Hl0 (Q2 lo Hl1)) as (Cl & _).
  destruct (@sin_bracket hi n Hh0 (Q2 hi Hh1)) as (Sh & _).
  destruct (@cos_bracket hi n Hh0 (Q2 hi Hh1)) as (Ch' & Ch).
  apply Qle_Rle in Hv, Hl0, Hl1, Hh0, Hh1.
  apply Qlt_Rlt in Hw, Hcl, Hch, Hlow, Hupp.
  rewrite !Q2R_mult in Hlow, Hupp.
  rewrite RMicromega.Q2R_0 in Hv, Hw, Hl0, Hh0, Hcl, Hch.
  rewrite RMicromega.Q2R_1 in Hl1, Hh1.
  pose proof PI2_1 as Hpi.
  set (V := Q2R v) in *. set (W := Q2R w) in *.
  set (tl := Q2R lo) in *. set (th := Q2R hi) in *.
  unfold Ratan2. destruct (Rlt_dec 0 W) as [_|Hn]; [|contradiction].
  assert (Hcl' : 0 < cos tl) by lra.
  assert (Hch' : 0 < cos th) by lra.
  split.
  - assert (E : atan (sin tl / cos tl) = tl) by (apply atan_of_ratio; lra).
    rewrite <- E.
    apply atan_increasing.
    apply Rmult_lt_reg_r with (r := cos tl * W); [nra|].
    replace (sin tl / cos tl * (cos tl * W)) with (sin tl * W) by (field; lra).
    replace (V / W * (cos tl * W)) with (V * cos tl) by (field; lra).
    nra.
  - assert (E : atan (sin th / cos th) = th) by (apply atan_of_ratio; lra).
    rewrite <- E.
    apply atan_increasing.
    apply Rmult_lt_reg_r with (r := cos th * W); [nra|].
    replace (sin th / cos th * (cos th * W)) with (sin th * W) by (field; lra).
    replace (V / W * (cos th * W)) with (V * cos th) by (field; lra).
    nra.
Qed.

(** The sine and the cosine of [angle] round to [sin_angle] and
    [cos_angle]. *)
Lemma sin_of_angle : rounds_to (sin (to_R angle)) sin_angle.
Proof.
  apply rounds_to_between
    with (lo := sin_approx_Q (to_Q angle) 9) (hi := sin_approx_Q (to_Q angle) 10);
    try (vm_compute; reflexivity).
  apply (@sin_bracket (to_Q angle) 4); vm_compute; discriminate.
Qed.

Lemma cos_of_angle : rounds_to (cos (to_R angle)) cos_angle.
Proof.
  apply rounds_to_between
    with (lo := cos_approx_Q (to_Q angle) 9) (hi := cos_approx_Q (to_Q angle) 10);
    try (vm_compute; reflexivity).
  apply (@cos_bracket (to_Q angle) 4); vm_compute; discriminate.
Qed.

(** The angle of the point ([cos_angle], [sin_angle]) rounds to the
    successor of [angle]. *)
Lemma atan2_of_rounded_sin_cos :
  rounds_to (Ratan2 (to_R sin_angle) (to_R cos_angle)) angle_up.
Proof.
  unfold rounds_to.
  split; [vm_compute; reflexivity|]. split; [vm_compute; reflexivity|].
  split; [assert (0 < to_R angle_up) by (apply to_R_pos; vm_compute; reflexivity); lra|].
  rewrite <- !mid_Q_R. unfold to_R.
  apply (@atan_bracket (to_Q sin_angle) (to_Q cos_angle)
           (mid_Q (PrimFloat.next_down angle_up) angle_up)
           (mid_Q angle_up (PrimFloat.next_up angle_up)) 4);
    vm_compute; solve [reflexivity | discriminate].
Qed.

(** C8 fails on the code's numbers.  [angle] is a binary64 number of
    (-PI, PI].  Its sine and cosine round to [sin_angle] and [cos_angle], and
    the angle of the point ([cos_angle], [sin_angle]) rounds to [angle_up],
    the binary64 number next above [angle].  So for every C library that
    rounds [sin], [cos] and [atan2] to nearest,
    [atan2(sin(angle), cos(angle))] is [angle_up] and not [angle]: on the
    numbers of the code the reduction is not the identity on (-PI, PI]. *)
Lemma rounded_angle_reduction_is_not_the_identity :
  - PI < to_R angle <= PI /\
  rounds_to (sin (to_R angle)) sin_angle /\
  rounds_to (cos (to_R angle)) cos_angle /\
  rounds_to (Ratan2 (to_R sin_angle) (to_R cos_angle)) angle_up /\
  PrimFloat.next_up angle = angle_up /\
  PrimFloat.eqb angle_up angle = false /\
  (forall L : Libm PrimFloat.float,
     correctly_rounded L -> @normalize_angle _ L angle = angle_up).
Proof.
  split.
  { assert (H0 : 0 < to_R angle) by (apply to_R_pos; vm_compute; reflexivity).
    assert (H1 : to_R angle <= Q2R 1).
    { apply Qle_Rle. vm_compute. discriminate. }
    rewrite RMicromega.Q2R_1 in H1. pose proof PI2_1. lra. }
  split; [exact sin_of_angle|]. split; [exact cos_of_angle|].
  split; [exact atan2_of_rounded_sin_cos|].
  split; [vm_compute; reflexivity|]. split; [vm_compute; reflexivity|].
  intros L (Hsin & Hcos & Hatan). unfold normalize_angle.
  rewrite (Hsin angle sin_angle) by (try apply sin_of_angle; vm_compute; reflexivity).
  rewrite (Hcos angle cos_angle) by (try apply cos_of_angle; vm_compute; reflexivity).
  apply Hatan; try (vm_compute; reflexivity).
  apply atan2_of_rounded_sin_cos.
Qed.

End RoundingFacts.

(** ** Further properties, for every arithmetic *)

Section Configuration.

Context {D : Type} {A : Arith D} {L : Libm D} {F : Single D}
        {Llt : Cholesky D} {Inv : Inverse D}.

Lemma Prediction_config (delta_t : D) (u u1 : UKF D) (t : list (Call D)) :
  Prediction delta_t u = (t, Ok (tt, u1)) -> config u1 = config u.
Proof.
  unfold Prediction, bind, enter, modify, get. cbn [fst snd]. intros E.
  injection E as _ <-.
  unfold PredictMeanAndCovariance.
  apply for_loop_invariant with (I := fun v => config v = config u);
    [|intros i v _ Hv; exact Hv].
  change (config (set_P_ ?M ?v)) with (config v).
  apply for_loop_invariant with (I := fun v => config v = config u);
    [|intros i v _ Hv; exact Hv].
  change (config (set_x_ ?M ?v)) with (config v).
  unfold SetWeights.
  apply for_range_invariant with (I := fun v => config v = config u);
    [|intros i v _ Hv; exact Hv].
  change (config (set_weights_ ?M ?v)) with (config v).
  apply for_loop_invariant with (I := fun v => config v = config u);
    [reflexivity|intros i v _ Hv; exact Hv].
Qed.

Lemma UpdateLidar_config (m : MeasurementPackage D) (u u1 : UKF D) (t : list (Call D)) :
  UpdateLidar m u = (t, Ok (tt, u1)) -> config u1 = config u.
Proof.
  unfold UpdateLidar, bind, enter, modify, get, eigen_assert. cbn [fst snd].
  destruct (Nat.eqb (length (raw_measurements_ m)) 2); cbn; intros E; [|discriminate].
  injection E as _ <-. reflexivity.
Qed.

Lemma UpdateRadar_config (m : MeasurementPackage D) (u u1 : UKF D) (t : list (Call D)) :
  UpdateRadar m u = (t, Ok (tt, u1)) -> config u1 = config u.
Proof.
  unfold UpdateRadar, bind, enter, modify, get, eigen_assert. cbn [fst snd].
  destruct (for_loop _ RadarSigmaPoint _) as [Xsig_pred Zsig_pred]. cbn.
  destruct (for_loop _ (RadarCovariances _ _ _) _) as [S_ T_]. cbn.
  destruct (Nat.eqb (length (raw_measurements_ m)) 3); cbn; intros E; [|discriminate].
  injection E as _ <-. reflexivity.
Qed.

Lemma ProcessMeasurement_config (m : MeasurementPackage D) (u u' : UKF D) :
  final (ProcessMeasurement m u) = Ok u' -> config u' = config u.
Proof.
  intros E.
  destruct (is_initialized_ u) eqn:Hi.
  - destruct (use_laser_ u) eqn:Hl; [|destruct (use_radar_ u) eqn:Hr].
    + destruct (ProcessMeasurement_laser_eq m u Hi Hl) as (u1 & _ & E1 & E2).
      rewrite E2 in E. unfold final in E. cbn [snd] in E.
      destruct (UpdateLidar m u1) as [t [[[] u2]|]] eqn:E3; cbn in E; [|discriminate].
      injection E as <-.
      change (config u2 = config u).
      transitivity (config u1);
        [eapply UpdateLidar_config; exact E3 |].
      change (config u) with (config (set_time_us_ (timestamp_ m) u)).
      eapply Prediction_config; exact E1.
    + destruct (ProcessMeasurement_radar_eq m u Hi Hl Hr) as (u1 & _ & E1 & E2).
      rewrite E2 in E. unfold final in E. cbn [snd] in E.
      destruct (UpdateRadar m u1) as [t [[[] u2]|]] eqn:E3; cbn in E; [|discriminate].
      injection E as <-.
      change (config u2 = config u).
      transitivity (config u1);
        [eapply UpdateRadar_config; exact E3 |].
      change (config u) with (config (set_time_us_ (timestamp_ m) u)).
      eapply Prediction_config; exact E1.
    + destruct (Prediction_run (elapsed m u) (set_time_us_ (timestamp_ m) u))
        as (u1 & E1 & _).
      destruct (ProcessMeasurement_idle_eq m u Hi Hl Hr) as (u1' & _ & E2).
      rewrite E2 in E. unfold final in E. cbn in E. injection E as <-.
      revert E2. unfold ProcessMeasurement.
      unfold bind at 1. unfold get at 1. cbv iota beta. rewrite Hi. cbn [negb].
      unfold bind at 1. unfold modify at 1. cbv iota beta.
      unfold bind at 1. fold (elapsed m u). rewrite E1. cbv iota beta.
      pose proof (Prediction_run (elapsed m u) (set_time_us_ (timestamp_ m) u))
        as (u1'' & E1' & (_ & c2 & c3 & _)).
      rewrite E1 in E1'. injection E1' as <-. simpl in c2, c3.
      unfold bind at 1. unfold get at 1. cbv iota beta. rewrite c2, Hl.
      unfold bind at 1. unfold get at 1. cbv iota beta. rewrite c3, Hr.
      unfold ret. cbn. intros E2. injection E2 as <-.
      change (config u) with (config (set_time_us_ (timestamp_ m) u)).
      eapply Prediction_config; exact E1.
  - destruct (ProcessMeasurement_first m u Hi) as (_ & G).
    destruct (G u' E) as (_ & _ & G1 & G2).
    revert E. unfold ProcessMeasurement, final, bind, get, coeff, modify, ret. cbn.
    rewrite Hi. cbn.
    destruct (sensor_type_ m); cbn.
    + destruct (raw_measurements_ m) as [|a [|b l]]; cbn; intros E; try discriminate.
      injection E as <-. reflexivity.
    + destruct (raw_measurements_ m) as [|a [|b [|c l]]]; cbn; intros E; try discriminate.
      injection E as <-. reflexivity.
Qed.

(** On every state a program reaches, the dimensions are 5 and 7 and the
    noise standard deviations are the constants of the constructor: no member
    function assigns them. *)
Theorem reachable_keeps_the_configuration (u : UKF D) :
  reachable u ->
  n_x_ u = 5%Z /\ n_aug_ u = 7%Z /\
  std_a_ u = lit 0.4 /\ std_yawdd_ u = lit 0.65 /\
  std_laspx_ u = lit 0.15 /\ std_laspy_ u = lit 0.15 /\
  std_radr_ u = lit 0.3 /\ std_radphi_ u = lit 0.03 /\ std_radrd_ u = lit 0.3.
Proof.
  intros H.
  assert (G : config u = (5%Z, 7%Z, (lit 0.4, lit 0.65), (lit 0.15, lit 0.15),
                          (lit 0.3, lit 0.03, lit 0.3))).
  { induction H as [x0 w0 X0 l0 | u m u' Hu IH E]; [reflexivity|].
    rewrite <- IH. eapply ProcessMeasurement_config. exact E. }
  unfold config in G. injection G as -> -> -> -> -> -> -> -> ->.
  repeat split.
Qed.

End Configuration.

Section Sequencing.

Context {D : Type} {A : Arith D} {L : Libm D} {F : Single D}
        {Llt : Cholesky D} {Inv : Inverse D}.

(** What every returning call leaves: an initialised filter whose clock is
    the timestamp of the measurement, with exactly the flag set that the
    lemmas above name. *)
Lemma ProcessMeasurement_returns (m : MeasurementPackage D) (u u' : UKF D) :
  final (ProcessMeasurement m u) = Ok u' ->
  is_initialized_ u' = true /\ time_us_ u' = timestamp_ m.
Proof.
  intros E.
  destruct (is_initialized_ u) eqn:Hi.
  - destruct (use_laser_ u) eqn:Hl; [|destruct (use_radar_ u) eqn:Hr].
    + destruct (ProcessMeasurement_laser m u Hi Hl) as (_ & _ & G).
      destruct (G u' E) as ((g1 & _ & _ & g4) & _). split; assumption.
    + destruct (ProcessMeasurement_radar m u Hi Hl Hr) as (_ & _ & G).
      destruct (G u' E) as ((g1 & _ & _ & g4) & _). split; assumption.
    + destruct (ProcessMeasurement_idle_eq m u Hi Hl Hr) as (u1 & C1 & E1).
      rewrite E1 in E. unfold final in E. cbn in E. injection E as <-.
      destruct C1 as (c1 & _ & _ & c4 & _). simpl in c1, c4.
      split; [congruence | exact c4].
  - destruct (ProcessMeasurement_first m u Hi) as (_ & G).
    destruct (G u' E) as (G1 & _).
    destruct (sensor_type_ m); destruct G1 as (g1 & _ & _ & g4); split; assumption.
Qed.

Lemma ProcessMeasurement_predicts (m : MeasurementPackage D) (u : UKF D) :
  is_initialized_ u = true ->
  exists rest, calls (ProcessMeasurement m u) = CallPrediction (elapsed m u) :: rest.
Proof.
  intros Hi.
  destruct (use_laser_ u) eqn:Hl; [|destruct (use_radar_ u) eqn:Hr].
  - exists [CallUpdateLidar m]. apply (ProcessMeasurement_laser m u Hi Hl).
  - exists [CallUpdateRadar m]. apply (ProcessMeasurement_radar m u Hi Hl Hr).
  - destruct (ProcessMeasurement_idle_eq m u Hi Hl Hr) as (u1 & _ & E1).
    exists []. rewrite E1. reflexivity.
Qed.

(** The clock follows the measurements: a call that returns leaves the
    timestamp of its measurement in [time_us_], whatever the clock was, so
    the elapsed time that the next call hands to [Prediction] is the
    difference of the two timestamps, in seconds. *)
Theorem elapsed_time_is_between_consecutive_measurements
    (u : UKF D) (m1 : MeasurementPackage D) (u1 : UKF D) (m2 : MeasurementPackage D) :
  final (ProcessMeasurement m1 u) = Ok u1 ->
  time_us_ u1 = timestamp_ m1 /\
  exists rest,
    calls (ProcessMeasurement m2 u1)
    = CallPrediction (of_Z (timestamp_ m2 - timestamp_ m1) / lit 1000000.0)%D :: rest.
Proof.
  intros E. destruct (ProcessMeasurement_returns m1 u E) as (Hi & Ht).
  split; [exact Ht|].
  destruct (ProcessMeasurement_predicts m2 u1 Hi) as (rest & Hc).
  exists rest. rewrite Hc. unfold elapsed. rewrite Ht. reflexivity.
Qed.

(** With Eigen's assertions on, the sensors have to take turns.  Let a
    program's call on the measurement [m1] return, and let [m1] and the next
    measurement [m2] each have the number of values of its sensor.  If the
    filter was initialised already, [m1] came from the sensor that the flags
    selected; and the call on [m2] returns exactly when [m2] comes from the
    other sensor than [m1]: a second measurement of the same sensor is handed
    to the update of the other one, which stops on the size of the
    measurement. *)
Theorem sensors_must_take_turns
    (u : UKF D) (m1 : MeasurementPackage D) (u1 : UKF D) (m2 : MeasurementPackage D) :
  reachable u ->
  final (ProcessMeasurement m1 u) = Ok u1 ->
  well_sized m1 -> well_sized m2 ->
  (is_initialized_ u = true -> sensor_type_ m1 = selected_sensor u) /\
  ((exists u2, final (ProcessMeasurement m2 u1) = Ok u2) <->
   sensor_type_ m2 <> sensor_type_ m1).
Proof.
  unfold well_sized, selected_sensor. intros Hreach E W1 W2.
  assert (Hcase :
    (use_laser_ u1 = true /\ sensor_type_ m1 = RADAR /\
     (is_initialized_ u = true -> use_laser_ u = false)) \/
    (use_laser_ u1 = false /\ use_radar_ u1 = true /\ sensor_type_ m1 = LASER /\
     (is_initialized_ u = true -> use_laser_ u = true))).
  { destruct (reachable_flags Hreach) as [(Hi & Hl & Hr) | (Hi & Hx)].
    - destruct (ProcessMeasurement_first m1 u Hi) as (_ & G).
      destruct (G u1 E) as (G1 & _). rewrite Hl, Hr in G1.
      destruct (sensor_type_ m1); destruct G1 as (_ & g2 & g3 & _).
      + right. split; [exact g2|]. split; [exact g3|]. split; [reflexivity|].
        intros Hi'. congruence.
      + left. split; [exact g2|]. split; [reflexivity|]. intros Hi'. congruence.
    - destruct (use_radar_ u) eqn:Hr; simpl in Hx.
      + destruct (ProcessMeasurement_radar m1 u Hi Hx Hr) as (_ & Hret & G).
        destruct (G u1 E) as ((_ & g2 & g3 & _) & _).
        assert (Hlen : length (raw_measurements_ m1) = 3%nat)
          by (apply Hret; exists u1; exact E).
        left. split; [exact g2|]. split; [|intros _; exact Hx].
        destruct (sensor_type_ m1); [congruence | reflexivity].
      + destruct (ProcessMeasurement_laser m1 u Hi Hx) as (_ & Hret & G).
        destruct (G u1 E) as ((_ & g2 & g3 & _) & _).
        assert (Hlen : length (raw_measurements_ m1) = 2%nat)
          by (apply Hret; exists u1; exact E).
        right. split; [exact g2|]. split; [exact g3|]. split; [|intros _; exact Hx].
        destruct (sensor_type_ m1); [reflexivity | congruence]. }
  destruct (ProcessMeasurement_returns m1 u E) as (Hi1 & _).
  destruct Hcase as [(Hl1 & Hs & Hu) | (Hl1 & Hr1 & Hs & Hu)].
  - split; [intros Hi; rewrite (Hu Hi); exact Hs|].
    destruct (ProcessMeasurement_laser m2 u1 Hi1 Hl1) as (_ & Hret & _).
    rewrite <- Hret, Hs, W2. destruct (sensor_type_ m2); split; intros H;
      try reflexivity; try discriminate; congruence.
  - split; [intros Hi; rewrite (Hu Hi); exact Hs|].
    destruct (ProcessMeasurement_radar m2 u1 Hi1 Hl1 Hr1) as (_ & Hret & _).
    rewrite <- Hret, Hs, W2. destruct (sensor_type_ m2); split; intros H;
      try reflexivity; try discriminate; congruence.
Qed.

End Sequencing.

Section SigmaPoints.

Context {D : Type} {A : Arith D} {L : Libm D} {Llt : Cholesky D}.
Local Open Scope double_scope.

(** The loop of lines 163-166 writes the columns [i + 1] and [i + 1 + n_aug]
    in iteration [i]: the mean plus and minus one and the same spread. *)
Lemma AugmentedSigmaPoints_columns (u : UKF D) (i r : nat) :
  (i < Z.to_nat (n_aug_ u))%nat -> (r < Z.to_nat (n_aug_ u))%nat ->
  exists spread : D,
    AugmentedSigmaPoints u r (i + 1)%nat
      = AugmentedSigmaPoints u r 0%nat + spread /\
    AugmentedSigmaPoints u r (i + 1 + Z.to_nat (n_aug_ u))%nat
      = AugmentedSigmaPoints u r 0%nat - spread.
Proof.
  intros Hi Hr.
  rewrite (AugmentedSigmaPoints_mean u Hr).
  unfold AugmentedSigmaPoints.
  set (n := Z.to_nat (n_aug_ u)) in *.
  set (X_aug := vset (vset _ _ _) _ _).
  set (A_aug := llt_matrixL n _).
  set (s := sqrt _).
  set (body := fun (i : nat) (Xsig_aug : @MatrixXd D) => set_col n _ _ _).
  exists (s * A_aug r i).
  assert (G : forall k, (k <= n)%nat -> forall M0 j, (j < k)%nat ->
            for_loop k body M0 r (j + 1)%nat = X_aug r + s * A_aug r j /\
            for_loop k body M0 r (j + 1 + n)%nat = X_aug r - s * A_aug r j).
  { induction k as [|k IH]; intros Hk M0 j Hj; [lia|].
    rewrite for_loop_S. unfold body at 1 3. unfold set_col.
    replace (Nat.ltb r n) with true by (symmetry; apply Nat.ltb_lt; exact Hr).
    cbn [andb].
    destruct (Nat.eq_dec j k) as [->|Hne].
    - rewrite Nat.eqb_refl.
      replace (Nat.eqb (k + 1) (k + 1 + n)) with false
        by (symmetry; apply Nat.eqb_neq; lia).
      rewrite Nat.eqb_refl. split; reflexivity.
    - replace (Nat.eqb (j + 1) (k + 1 + n)) with false
        by (symmetry; apply Nat.eqb_neq; lia).
      replace (Nat.eqb (j + 1) (k + 1)) with false
        by (symmetry; apply Nat.eqb_neq; lia).
      replace (Nat.eqb (j + 1 + n) (k + 1 + n)) with false
        by (symmetry; apply Nat.eqb_neq; lia).
      replace (Nat.eqb (j + 1 + n) (k + 1)) with false
        by (symmetry; apply Nat.eqb_neq; lia).
      apply IH; lia. }
  apply G; [lia | exact Hi].
Qed.

(** The mean of lines 201-204, row by row: the running sum, from 0.0, of
    weight times sigma point. *)
Lemma PredictMeanAndCovariance_mean (v : UKF D) (r : nat) :
  x_ (PredictMeanAndCovariance v) r =
  for_loop (Z.to_nat (2 * n_aug_ v + 1))
    (fun i acc => acc + weights_ v i * Xsig_pred_ v r i) (lit 0.0).
Proof.
  unfold PredictMeanAndCovariance.
  match goal with
  | |- x_ (for_loop ?n ?body ?start) r = _ =>
      assert (Hx : x_ (for_loop n body start) = x_ start)
        by (apply for_loop_invariant with (I := fun t => x_ t = x_ start);
            [reflexivity | intros ? t _ Ht; exact Ht]);
      rewrite Hx; clear Hx
  end.
  cbn [x_ set_P_].
  generalize (Z.to_nat (2 * n_aug_ v + 1)). intros n.
  assert (G : weights_ (for_loop n
                 (fun i u => set_x_ (vadd (x_ u) (vscale (weights_ u i) (col (Xsig_pred_ u) i))) u)
                 (set_x_ (vfill (lit 0.0)) v)) = weights_ v /\
              Xsig_pred_ (for_loop n
                 (fun i u => set_x_ (vadd (x_ u) (vscale (weights_ u i) (col (Xsig_pred_ u) i))) u)
                 (set_x_ (vfill (lit 0.0)) v)) = Xsig_pred_ v /\
              x_ (for_loop n
                 (fun i u => set_x_ (vadd (x_ u) (vscale (weights_ u i) (col (Xsig_pred_ u) i))) u)
                 (set_x_ (vfill (lit 0.0)) v)) r
              = for_loop n (fun i acc => acc + weights_ v i * Xsig_pred_ v r i) (lit 0.0)).
  { induction n as [|n IH]; [repeat split|].
    rewrite !for_loop_S. destruct IH as (I1 & I2 & I3).
    cbn [weights_ Xsig_pred_ x_ set_x_]. split; [exact I1|]. split; [exact I2|].
    rewrite I1, I2. unfold vadd at 1. rewrite I3. reflexivity. }
  apply G.
Qed.

(** The same for [Prediction] as a whole: the state it leaves is the
    weighted sum of the sigma points it leaves. *)
Lemma Prediction_mean (delta_t : D) (u u' : UKF D) (r : nat) :
  final (Prediction delta_t u) = Ok u' ->
  x_ u' r =
  for_loop (Z.to_nat (2 * n_aug_ u + 1))
    (fun i acc => acc + weights_ u' i * Xsig_pred_ u' r i) (lit 0.0).
Proof.
  unfold Prediction, final, bind, enter, modify, get. cbn [snd fst]. intros E.
  injection E as <-.
  set (v := SetWeights _).
  destruct (PredictMeanAndCovariance_frame v) as (F1 & _ & F3).
  rewrite PredictMeanAndCovariance_mean, F1, F3.
  assert (Hn : n_aug_ v = n_aug_ u).
  { unfold v.
    match goal with
    | |- n_aug_ (SetWeights ?w) = _ =>
        destruct (SetWeights_frame w) as (_ & G2 & _); rewrite G2
    end.
    apply for_loop_invariant with (I := fun t => n_aug_ t = n_aug_ u);
      [reflexivity | intros i t _ Ht; exact Ht]. }
  rewrite Hn. reflexivity.
Qed.

End SigmaPoints.

Section UpdateResults.

Context {D : Type} {A : Arith D} {L : Libm D} {Inv : Inverse D}.

(** What [UpdateLidar] leaves when it returns. *)
Lemma UpdateLidar_state (m : MeasurementPackage D) (u u' : UKF D) :
  final (UpdateLidar m u) = Ok u' ->
  let y := vsub (of_list (raw_measurements_ m)) (mvmul 5 LidarH (x_ u)) in
  length (raw_measurements_ m) = 2%nat /\
  x_ u' = vadd (x_ u) (mvmul 2 (LidarK u) y) /\
  P_ u' = mmul 5 (msub Identity (mmul 2 (LidarK u) LidarH)) (P_ u) /\
  NIS_laser_ u' = dot 2 (fun j => dot 2 y (col (inverse 2 (LidarS u)) j)) y.
Proof.
  unfold UpdateLidar, final, bind, enter, modify, get, eigen_assert.
  destruct (Nat.eqb (length (raw_measurements_ m)) 2) eqn:E; cbn; intros H;
    [|discriminate].
  injection H as <-. apply Nat.eqb_eq in E. repeat split. exact E.
Qed.

(** What [UpdateRadar] leaves when it returns. *)
Lemma UpdateRadar_state (m : MeasurementPackage D) (u u' : UKF D) :
  final (UpdateRadar m u) = Ok u' ->
  let z_diff := vsub (of_list (raw_measurements_ m)) (RadarZpred u) in
  let z_diff := vset z_diff 1 (normalize_angle (z_diff 1%nat)) in
  length (raw_measurements_ m) = 3%nat /\
  x_ u' = vadd (x_ u) (mvmul 3 (RadarK u) z_diff) /\
  P_ u' = msub (P_ u) (mmul 3 (mmul 3 (RadarK u) (RadarS u)) (transpose (RadarK u))) /\
  NIS_radar_ u' = dot 3 (fun j => dot 3 z_diff (col (inverse 3 (RadarS u)) j)) z_diff.
Proof.
  unfold UpdateRadar, final, bind, enter, modify, get, eigen_assert.
  rewrite RadarSigmaPoint_loop.
  cbn [set_Xsig_pred_ is_initialized_ use_laser_ use_radar_ x_ P_ std_a_ std_yawdd_
       std_laspx_ std_laspy_ std_radr_ std_radphi_ std_radrd_ time_us_ n_x_ n_aug_
       weights_ Xsig_pred_ NIS_laser_ NIS_radar_ lambda_].
  unfold RadarK, RadarS.
  change (for_loop (Z.to_nat (2 * n_aug_ u + 1))
            (fun i z_pred =>
               vadd z_pred
                 (vscale (weights_ u i)
                    (col (measurement_space
                            (clamped (Xsig_pred_ u) (Z.to_nat (2 * n_aug_ u + 1)))
                            MatrixXd_new (Z.to_nat (2 * n_aug_ u + 1))) i)))
            (vfill (lit 0.0)))
    with (RadarZpred u).
  change (for_loop (Z.to_nat (2 * n_aug_ u + 1)) _ (mfill (lit 0.0), mfill (lit 0.0)))
    with (RadarST u).
  destruct (RadarST u) as [S_ T_].
  destruct (Nat.eqb (length (raw_measurements_ m)) 3) eqn:E; cbn; intros H;
    [|discriminate].
  injection H as <-. apply Nat.eqb_eq in E. repeat split. exact E.
Qed.

End UpdateResults.

Section Overwrite.

Context {D : Type} {A : Arith D} {L : Libm D} {Llt : Cholesky D}.
Local Open Scope double_scope.

(** Two loops that start from related states and whose bodies keep the
    relation end in related states. *)
Lemma for_loop_related {S T : Type} (Rel : S -> T -> Prop) (n : nat)
    (f : nat -> S -> S) (g : nat -> T -> T) (s : S) (t : T) :
  Rel s t ->
  (forall i a b, (i < n)%nat -> Rel a b -> Rel (f i a) (g i b)) ->
  Rel (for_loop n f s) (for_loop n g t).
Proof.
  intros Hs Hb. induction n as [|n IH].
  - exact Hs.
  - rewrite !for_loop_S. apply Hb; [lia|]. apply IH.
    intros i a b Hi. apply Hb. lia.
Qed.

(** Column [c] as the process model writes it does not depend on what the
    matrix held. *)
Lemma PredictSigmaPoint_fresh (delta_t : D) (Xsig_aug X X' : @MatrixXd D) (r c : nat) :
  (r < 5)%nat ->
  PredictSigmaPoint delta_t Xsig_aug c X r c = PredictSigmaPoint delta_t Xsig_aug c X' r c.
Proof.
  intros Hr. unfold PredictSigmaPoint.
  destruct (fabs (Xsig_aug 4%nat c) >? lit 0.001); unfold mset; rewrite !Nat.eqb_refl;
    do 5 (destruct r as [|r]; [reflexivity|]); lia.
Qed.

(** Lines 201-213 read [Xsig_pred_] and [weights_] on the rows and columns
    that the loops of [Prediction] have written, and nothing else. *)
Lemma PredictMeanAndCovariance_reads (a b : UKF D) :
  n_aug_ a = n_aug_ b ->
  let n := Z.to_nat (2 * n_aug_ a + 1) in
  (forall r c, (r < 5)%nat -> (c < n)%nat -> Xsig_pred_ a r c = Xsig_pred_ b r c) ->
  (forall i, (i < n)%nat -> weights_ a i = weights_ b i) ->
  (forall r, (r < 5)%nat ->
     x_ (PredictMeanAndCovariance a) r = x_ (PredictMeanAndCovariance b) r) /\
  (forall i j, (i < 5)%nat -> (j < 5)%nat ->
     P_ (PredictMeanAndCovariance a) i j = P_ (PredictMeanAndCovariance b) i j).
Proof.
  intros Hn n HX Hw. unfold PredictMeanAndCovariance. rewrite <- Hn. fold n.
  pose (Rel1 := fun s t : UKF D =>
    (forall r c, (r < 5)%nat -> (c < n)%nat -> Xsig_pred_ s r c = Xsig_pred_ t r c) /\
    (forall i, (i < n)%nat -> weights_ s i = weights_ t i) /\
    (forall r, (r < 5)%nat -> x_ s r = x_ t r)).
  pose (Rel2 := fun s t : UKF D =>
    Rel1 s t /\ forall i j, (i < 5)%nat -> (j < 5)%nat -> P_ s i j = P_ t i j).
  match goal with
  | |- (forall r, _ -> x_ (for_loop n ?f ?s) r = x_ (for_loop n ?g ?t) r) /\ _ =>
      assert (H2 : Rel2 (for_loop n f s) (for_loop n g t))
  end.
  { apply for_loop_related.
    - split; [|intros i j _ _; reflexivity].
      cbn [Xsig_pred_ weights_ x_ set_P_].
      apply (for_loop_related Rel1).
      + split; [exact HX|]. split; [exact Hw|]. intros r _. reflexivity.
      + intros i s t Hi (R1 & R2 & R3). split; [exact R1|]. split; [exact R2|].
        intros r Hr. cbn [x_ set_x_]. unfold vadd, vscale, col.
        rewrite (R3 r Hr), (R2 i Hi), (R1 r i Hr Hi). reflexivity.
    - intros c s t Hc ((R1 & R2 & R3) & R4).
      split; [split; [exact R1|]; split; [exact R2 | exact R3]|].
      intros i j Hi Hj. cbn [P_ set_P_]. unfold madd, outer, vscale, vset, vsub, col.
      rewrite (R4 i j Hi Hj), (R2 c Hc).
      rewrite (R1 i c Hi Hc), (R1 j c Hj Hc), (R3 i Hi), (R3 j Hj).
      rewrite (R1 3%nat c) by (try exact Hc; lia).
      rewrite (R3 3%nat) by lia. reflexivity. }
  destruct H2 as ((_ & _ & R3) & R4). split; [exact R3 | exact R4].
Qed.

(** [Prediction] rebuilds the sigma points from [x_] and [P_] alone.  What an
    earlier call left in [Xsig_pred_] (the clamp of [UpdateRadar] included),
    in [weights_] and in [lambda_] has no influence on what it leaves: started
    on two filters that differ in these three members only, it ends with the
    same parameter, the same weights and sigma points, the same state and the
    same covariance. *)
Theorem prediction_overwrites_the_sigma_points
    (u : UKF D) (X : @MatrixXd D) (w : @VectorXd D) (l delta_t : D) :
  let v := set_Xsig_pred_ X (set_weights_ w (set_lambda_ l u)) in
  let n := Z.to_nat (2 * n_aug_ u + 1) in
  exists u' v',
    final (Prediction delta_t u) = Ok u' /\ final (Prediction delta_t v) = Ok v' /\
    lambda_ u' = lambda_ v' /\
    (forall i, (i < n)%nat -> weights_ u' i = weights_ v' i) /\
    (forall r c, (r < 5)%nat -> (c < n)%nat -> Xsig_pred_ u' r c = Xsig_pred_ v' r c) /\
    (forall r, (r < 5)%nat -> x_ u' r = x_ v' r) /\
    (forall i j, (i < 5)%nat -> (j < 5)%nat -> P_ u' i j = P_ v' i j).
Proof.
  intros v n.
  destruct (Prediction_leaves delta_t u) as (u' & Eu & Hlu & Hwu & HXu).
  destruct (Prediction_leaves delta_t v) as (v' & Ev & Hlv & Hwv & HXv).
  exists u', v'. split; [exact Eu|]. split; [exact Ev|].
  cbv zeta in Hlu, Hwu, HXu, Hlv, Hwv, HXv.
  change (n_aug_ v) with (n_aug_ u) in Hlv, Hwv, HXv.
  change (AugmentedSigmaPoints (set_lambda_ (of_Z (3 - n_aug_ u)) v))
    with (AugmentedSigmaPoints (set_lambda_ (of_Z (3 - n_aug_ u)) u)) in HXv.
  fold n in Hwu, HXu, Hwv, HXv.
  assert (Hw : forall i, (i < n)%nat -> weights_ u' i = weights_ v' i).
  { intros i Hi. rewrite Hwu, Hwv.
    replace (Nat.ltb i n) with true by (symmetry; apply Nat.ltb_lt; exact Hi).
    destruct (Nat.eqb i 0); reflexivity. }
  assert (HX : forall r c, (r < 5)%nat -> (c < n)%nat ->
                           Xsig_pred_ u' r c = Xsig_pred_ v' r c).
  { intros r c Hr Hc. rewrite HXu, HXv.
    replace (Nat.ltb c n) with true by (symmetry; apply Nat.ltb_lt; exact Hc).
    replace (Nat.ltb r 5) with true by (symmetry; apply Nat.ltb_lt; exact Hr).
    cbn [andb]. apply PredictSigmaPoint_fresh. exact Hr. }
  split; [rewrite Hlu, Hlv; reflexivity|]. split; [exact Hw|]. split; [exact HX|].
  unfold Prediction, final, bind, enter, modify, get in Eu, Ev. cbn [snd fst] in Eu, Ev.
  injection Eu as Eu. injection Ev as Ev.
  match type of Eu with PredictMeanAndCovariance ?a = _ =>
  match type of Ev with PredictMeanAndCovariance ?b = _ =>
    destruct (PredictMeanAndCovariance_frame a) as (Fa1 & _ & Fa3);
    destruct (PredictMeanAndCovariance_frame b) as (Fb1 & _ & Fb3);
    assert (Hna : n_aug_ a = n_aug_ u);
    [| assert (Hnb : n_aug_ b = n_aug_ u);
       [| destruct (@PredictMeanAndCovariance_reads a b) as (Gx & GP) ] ]
  end end.
  - match goal with
    | |- n_aug_ (SetWeights ?s) = _ =>
        destruct (SetWeights_frame s) as (_ & G2 & _); rewrite G2
    end.
    apply for_loop_invariant with (I := fun t => n_aug_ t = n_aug_ u);
      [reflexivity | intros i t _ Ht; exact Ht].
  - match goal with
    | |- n_aug_ (SetWeights ?s) = _ =>
        destruct (SetWeights_frame s) as (_ & G2 & _); rewrite G2
    end.
    apply for_loop_invariant with (I := fun t => n_aug_ t = n_aug_ u);
      [reflexivity | intros i t _ Ht; exact Ht].
  - rewrite Hna, Hnb. reflexivity.
  - rewrite Hna. fold n. intros r c Hr Hc.
    rewrite <- Fa3, <- Fb3, Eu, Ev. apply HX; assumption.
  - rewrite Hna. fold n. intros i Hi.
    rewrite <- Fa1, <- Fb1, Eu, Ev. apply Hw; assumption.
  - rewrite Eu, Ev in Gx, GP. split; [exact Gx | exact GP].
Qed.

End Overwrite.

(** ** Further properties, in exact real arithmetic *)

Module RealExtras.
Import Reals Lra Psatz RealModel RealFacts.
Local Open Scope R_scope.

(** *** Sigma points *)

Lemma AugmentedSigmaPoints_mirrored {Llt : Cholesky R} (u : UKF R) (i r : nat) :
  n_x_ u = 5%Z -> n_aug_ u = 7%Z -> (i < 7)%nat -> (r < 7)%nat ->
  AugmentedSigmaPoints u r 0%nat
    = nth r [x_ u 0%nat; x_ u 1%nat; x_ u 2%nat; x_ u 3%nat; x_ u 4%nat; 0; 0] 0 /\
  AugmentedSigmaPoints u r (i + 1)%nat + AugmentedSigmaPoints u r (i + 8)%nat
  = 2 * AugmentedSigmaPoints u r 0%nat.
Proof.
  intros H5 H7 Hi Hr. split.
  - rewrite AugmentedSigmaPoints_mean by (rewrite H7; cbn; lia).
    rewrite H5. do 7 (destruct r as [|r]; [reflexivity|]). lia.
  - destruct (@AugmentedSigmaPoints_columns R _ _ u i r) as (spread & Ha & Hb);
      try (rewrite H7; cbn; lia).
    rewrite H7 in Hb. change (Z.to_nat 7) with 7%nat in Hb.
    replace (i + 1 + 7)%nat with (i + 8)%nat in Hb by lia.
    rewrite Ha, Hb. cbn [Num.add Num.sub R_arith]. lra.
Qed.

(** The augmented sigma points are the mean and seven pairs of points that
    mirror each other in the mean: for the dimensions 5 and 7 of the
    constructor, column 0 of [Xsig_aug] is the state followed by two zeros,
    and columns i + 1 and i + 8 add up to twice column 0, whatever the
    Cholesky factor is. *)
Theorem sigma_points_mirror_in_the_mean {Llt : Cholesky R} (u : UKF R) (i r : nat) :
  n_x_ u = 5%Z -> n_aug_ u = 7%Z -> (i < 7)%nat -> (r < 7)%nat ->
  let Xsig_aug := AugmentedSigmaPoints u in
  Xsig_aug r 0%nat
    = nth r [x_ u 0%nat; x_ u 1%nat; x_ u 2%nat; x_ u 3%nat; x_ u 4%nat; 0; 0] 0 /\
  Xsig_aug r (i + 1)%nat + Xsig_aug r (i + 8)%nat = 2 * Xsig_aug r 0%nat.
Proof.
  intros H5 H7 Hi Hr Xsig_aug.
  exact (AugmentedSigmaPoints_mirrored u H5 H7 Hi Hr).
Qed.

(** The hypotheses of the theorem hold of the filter [cruising]. *)
Lemma sigma_points_mirror_in_the_mean_witness :
  n_x_ cruising = 5%Z /\ n_aug_ cruising = 7%Z /\
  AugmentedSigmaPoints cruising 2%nat 1%nat + AugmentedSigmaPoints cruising 2%nat 8%nat
  = 2 * 10.
Proof.
  split; [reflexivity|]. split; [reflexivity|].
  destruct (@sigma_points_mirror_in_the_mean R_cholesky cruising 0%nat 2%nat
              eq_refl eq_refl)
    as (H0 & H1); try lia.
  cbn [Nat.add] in H1. rewrite H1, H0. reflexivity.
Defined.


(** *** Prediction over no time, and the central sigma point *)

Lemma PredictSigmaPoint_zero_time (Xsig_aug X : @MatrixXd R) (i r : nat) :
  (r < 5)%nat -> PredictSigmaPoint 0 Xsig_aug i X r i = Xsig_aug r i.
Proof.
  intros Hr. unfold PredictSigmaPoint.
  cbn [Num.fabs Num.ltb lit Num.add Num.sub Num.mul Num.div Num.opp R_arith
       Num.sin Num.cos R_libm].
  replace (Xsig_aug 3%nat i + Xsig_aug 4%nat i * 0) with (Xsig_aug 3%nat i) by lra.
  destruct (Rltb 0.001 (Rabs (Xsig_aug 4%nat i))) eqn:Hc.
  - apply Rltb_true in Hc.
    assert (Hy : Xsig_aug 4%nat i <> 0).
    { intros Hz. rewrite Hz, Rabs_R0 in Hc. lra. }
    unfold mset. rewrite !Nat.eqb_refl.
    do 5 (destruct r as [|r]; [cbn; try field; try lra; exact Hy|]). lia.
  - unfold mset. rewrite !Nat.eqb_refl.
    do 5 (destruct r as [|r]; [cbn; lra|]). lia.
Qed.

(** [Prediction] over an elapsed time of zero leaves the state where it was:
    each sigma point is mapped to itself, the weights sum to one and the
    spreads of mirrored sigma points cancel, whatever the Cholesky factor
    is. *)
Theorem prediction_over_zero_time_keeps_the_state {Llt : Cholesky R} (u : UKF R) :
  n_x_ u = 5%Z -> n_aug_ u = 7%Z ->
  exists u', final (Prediction 0 u) = Ok u' /\
             forall r, (r < 5)%nat -> x_ u' r = x_ u r.
Proof.
  intros H5 H7.
  destruct (Prediction_leaves 0 u) as (u' & E & _ & Hw & HX).
  exists u'. split; [exact E|]. intros r Hr.
  cbv zeta in Hw, HX. rewrite H7 in Hw, HX.
  change (Z.to_nat (2 * 7 + 1)) with 15%nat in Hw, HX.
  cbn [of_Z Num.div Num.add Num.mul R_arith] in Hw, HX.
  set (u1 := set_lambda_ (IZR (3 - 7)) u) in *.
  assert (HXc : forall c, (c < 15)%nat -> Xsig_pred_ u' r c = AugmentedSigmaPoints u1 r c).
  { intros c Hc. rewrite HX.
    replace (Nat.ltb c 15) with true by (symmetry; apply Nat.ltb_lt; exact Hc).
    replace (Nat.ltb r 5) with true by (symmetry; apply Nat.ltb_lt; exact Hr).
    cbn [andb]. apply PredictSigmaPoint_zero_time. exact Hr. }
  assert (Hsym : forall i, (i < 7)%nat ->
            AugmentedSigmaPoints u1 r 0%nat = x_ u r /\
            AugmentedSigmaPoints u1 r (i + 8)%nat
            = 2 * x_ u r - AugmentedSigmaPoints u1 r (i + 1)%nat).
  { intros i Hi.
    destruct (@AugmentedSigmaPoints_mirrored _ u1 i r) as (Ha & Hb);
      try assumption; try lia.
    change (x_ u1) with (x_ u) in Ha.
    assert (Hm : AugmentedSigmaPoints u1 r 0%nat = x_ u r).
    { rewrite Ha. do 5 (destruct r as [|r]; [reflexivity|]). lia. }
    split; [exact Hm|]. rewrite Hm in Hb. lra. }
  rewrite (Prediction_mean r E), H7.
  change (Z.to_nat (2 * 7 + 1)) with 15%nat.
  unfold for_loop. cbn [seq fold_left].
  cbn [Num.add Num.mul lit R_arith].
  rewrite !HXc by lia. rewrite !Hw. cbn [Nat.eqb Nat.ltb Nat.leb].
  destruct (Hsym 0%nat) as (Hm & S0); [lia|].
  destruct (Hsym 1%nat) as (_ & S1); [lia|].
  destruct (Hsym 2%nat) as (_ & S2); [lia|].
  destruct (Hsym 3%nat) as (_ & S3); [lia|].
  destruct (Hsym 4%nat) as (_ & S4); [lia|].
  destruct (Hsym 5%nat) as (_ & S5); [lia|].
  destruct (Hsym 6%nat) as (_ & S6); [lia|].
  cbn [Nat.add] in S0, S1, S2, S3, S4, S5, S6.
  rewrite S0, S1, S2, S3, S4, S5, S6, Hm.
  change (3 - 7)%Z with (-4)%Z. lra.
Qed.


(** The hypotheses of the theorem hold of the filter [cruising], whose speed
    stays 10. *)
Lemma prediction_over_zero_time_keeps_the_state_witness :
  n_x_ cruising = 5%Z /\ n_aug_ cruising = 7%Z /\
  exists u', final (Prediction 0 cruising) = Ok u' /\ x_ u' 2%nat = 10.
Proof.
  split; [reflexivity|]. split; [reflexivity|].
  destruct (prediction_over_zero_time_keeps_the_state cruising eq_refl eq_refl)
    as (u' & E & H).
  exists u'. split; [exact E|]. rewrite H by lia. reflexivity.
Defined.

(** Sigma point 0 carries no process noise, so [Prediction] moves it as the
    motion model moves the state itself: speed and yaw rate stay, the yaw
    advances by yaw rate times elapsed time; when the yaw rate is at most
    0.001 in magnitude the position advances along the heading by the
    distance v delta_t, and otherwise along a circle of radius v / yawdot, the
    chord being that of the angle yawdot delta_t. *)
Theorem central_sigma_point_follows_the_motion_model (u : UKF R) (delta_t : R) :
  n_x_ u = 5%Z -> n_aug_ u = 7%Z ->
  exists u', final (Prediction delta_t u) = Ok u' /\
    let px := x_ u 0%nat in
    let py := x_ u 1%nat in
    let v := x_ u 2%nat in
    let yaw := x_ u 3%nat in
    let yawdot := x_ u 4%nat in
    let dx := Xsig_pred_ u' 0%nat 0%nat - px in
    let dy := Xsig_pred_ u' 1%nat 0%nat - py in
    Xsig_pred_ u' 2%nat 0%nat = v /\
    Xsig_pred_ u' 3%nat 0%nat = yaw + yawdot * delta_t /\
    Xsig_pred_ u' 4%nat 0%nat = yawdot /\
    (~ Rabs yawdot > 0.001 ->
     dx = v * delta_t * cos yaw /\ dy = v * delta_t * sin yaw /\
     dx * dx + dy * dy = (v * delta_t) * (v * delta_t)) /\
    (Rabs yawdot > 0.001 ->
     dx * dx + dy * dy
     = (v / yawdot) * (v / yawdot) * (2 - 2 * cos (yawdot * delta_t))).
Proof.
  intros H5 H7.
  destruct (Prediction_leaves delta_t u) as (u' & E & _ & _ & HX).
  exists u'. split; [exact E|].
  cbv zeta in HX. rewrite H7 in HX.
  change (Z.to_nat (2 * 7 + 1)) with 15%nat in HX.
  cbn [of_Z R_arith] in HX.
  set (u1 := set_lambda_ (IZR (3 - 7)) u) in *.
  assert (Hm : forall r, (r < 7)%nat ->
            AugmentedSigmaPoints u1 r 0%nat
            = nth r [x_ u 0%nat; x_ u 1%nat; x_ u 2%nat; x_ u 3%nat; x_ u 4%nat; 0; 0] 0).
  { intros r Hr.
    destruct (@AugmentedSigmaPoints_mirrored _ u1 0%nat r H5 H7) as (Ha & _);
      [lia | exact Hr | exact Ha]. }
  assert (HX0 : forall r, (r < 5)%nat ->
            Xsig_pred_ u' r 0%nat
            = PredictSigmaPoint delta_t (AugmentedSigmaPoints u1) 0 (Xsig_pred_ u) r 0%nat).
  { intros r Hr. rewrite HX.
    replace (Nat.ltb r 5) with true by (symmetry; apply Nat.ltb_lt; exact Hr).
    reflexivity. }
  cbv zeta.
  rewrite !HX0 by lia. unfold PredictSigmaPoint.
  cbn [Num.fabs Num.ltb lit Num.add Num.sub Num.mul Num.div Num.opp R_arith
       Num.sin Num.cos R_libm].
  rewrite !Hm by lia. cbn [nth].
  pose proof (sin2_cos2 (x_ u 3%nat)) as Hsc. unfold Rsqr in Hsc.
  destruct (Rltb 0.001 (Rabs (x_ u 4%nat))) eqn:Hc.
  - apply Rltb_true in Hc.
    assert (Hy : x_ u 4%nat <> 0).
    { intros Hz. rewrite Hz, Rabs_R0 in Hc. lra. }
    unfold mset. cbn.
    split; [lra|]. split; [lra|]. split; [lra|]. split.
    + intros Hn. exfalso. apply Hn. exact Hc.
    + intros _.
      pose proof (sin2_cos2 (x_ u 3%nat + x_ u 4%nat * delta_t)) as Hsc1.
      unfold Rsqr in Hsc1.
      replace (x_ u 4%nat * delta_t)
        with ((x_ u 3%nat + x_ u 4%nat * delta_t) - x_ u 3%nat) at 5 by lra.
      rewrite cos_minus.
      set (s1 := sin (x_ u 3%nat + x_ u 4%nat * delta_t)) in *.
      set (c1 := cos (x_ u 3%nat + x_ u 4%nat * delta_t)) in *.
      set (s0 := sin (x_ u 3%nat)) in *.
      set (c0 := cos (x_ u 3%nat)) in *.
      replace 2 with ((s1 * s1 + c1 * c1) + (s0 * s0 + c0 * c0)) at 1 by lra.
      field. exact Hy.
  - apply Rltb_false in Hc.
    unfold mset. cbn.
    split; [lra|]. split; [lra|]. split; [lra|]. split.
    + intros _. split; [lra|]. split; [lra|].
      set (s0 := sin (x_ u 3%nat)) in *.
      set (c0 := cos (x_ u 3%nat)) in *.
      replace (x_ u 0%nat + x_ u 2%nat * c0 * delta_t + 0.5 * delta_t * delta_t * c0 * 0
               - x_ u 0%nat) with (x_ u 2%nat * delta_t * c0) by lra.
      replace (x_ u 1%nat + x_ u 2%nat * s0 * delta_t + 0.5 * delta_t * delta_t * s0 * 0
               - x_ u 1%nat) with (x_ u 2%nat * delta_t * s0) by lra.
      transitivity (x_ u 2%nat * delta_t * (x_ u 2%nat * delta_t) * (s0 * s0 + c0 * c0));
        [ring | rewrite Hsc; ring].
    + intros Hgt. exfalso. apply Hc. exact Hgt.
Qed.

(** The hypotheses of the theorem hold of [cruising]: in one second its
    central sigma point advances by 10 along the x axis. *)
Lemma central_sigma_point_follows_the_motion_model_witness :
  n_x_ cruising = 5%Z /\ n_aug_ cruising = 7%Z /\
  exists u', final (Prediction 1 cruising) = Ok u' /\
             Xsig_pred_ u' 2%nat 0%nat = 10 /\ Xsig_pred_ u' 3%nat 0%nat = 0.
Proof.
  split; [reflexivity|]. split; [reflexivity|].
  destruct (central_sigma_point_follows_the_motion_model cruising 1 eq_refl eq_refl)
    as (u' & E & Hv & Hyaw & _).
  exists u'. split; [exact E|]. split; [exact Hv|].
  rewrite Hyaw. change (x_ cruising 3%nat) with 0. change (x_ cruising 4%nat) with 0. lra.
Defined.


(** *** The updates *)

Lemma sum_upto_2 (f : nat -> R) : sum_upto 2 f = 0 + f 0%nat + f 1%nat.
Proof. reflexivity. Qed.

Lemma sum_upto_3 (f : nat -> R) : sum_upto 3 f = 0 + f 0%nat + f 1%nat + f 2%nat.
Proof. reflexivity. Qed.

Lemma sum_upto_5 (f : nat -> R) :
  sum_upto 5 f = 0 + f 0%nat + f 1%nat + f 2%nat + f 3%nat + f 4%nat.
Proof. reflexivity. Qed.

(** [H_ * x_] picks the position out of the state. *)
Lemma LidarH_selects_position (x : @VectorXd R) :
  mvmul 5 LidarH x 0%nat = x 0%nat /\ mvmul 5 LidarH x 1%nat = x 1%nat.
Proof.
  unfold mvmul. rewrite !sum_upto_5. unfold LidarH, mcomma.
  cbn [nth Num.mul of_Z R_arith]. split; lra.
Qed.

Lemma normalize_angle_0 : normalize_angle 0 = 0.
Proof.
  pose proof PI_RGT_0. apply Ratan2_sin_cos. lra.
Qed.

(** A measurement that is exactly what the filter predicts does not move the
    state, whatever the gain is: for lidar the measurement (px, py) of the
    state, for radar the predicted measurement [z_pred].  The NIS of such an
    update is 0. *)
Theorem update_without_innovation_keeps_the_state
    {Inv : Inverse R} (u : UKF R) (m : MeasurementPackage R) :
  (raw_measurements_ m = [x_ u 0%nat; x_ u 1%nat] ->
   exists u', final (UpdateLidar m u) = Ok u' /\
              (forall r, x_ u' r = x_ u r) /\ NIS_laser_ u' = 0)
  /\
  (raw_measurements_ m = [RadarZpred u 0%nat; RadarZpred u 1%nat; RadarZpred u 2%nat] ->
   exists u', final (UpdateRadar m u) = Ok u' /\
              (forall r, x_ u' r = x_ u r) /\ NIS_radar_ u' = 0).
Proof.
  split; intros Hraw.
  - destruct (UpdateLidar_run m u) as [(_ & u' & E & _) | (Hlen & _)];
      [|exfalso; apply Hlen; rewrite Hraw; reflexivity].
    assert (E' : final (UpdateLidar m u) = Ok u') by (unfold final; rewrite E; reflexivity).
    exists u'. split; [exact E'|].
    destruct (UpdateLidar_state m u E') as (_ & Hx & _ & Hnis).
    destruct (LidarH_selects_position (x_ u)) as (H0 & H1).
    set (y := vsub (of_list (raw_measurements_ m)) (mvmul 5 LidarH (x_ u))) in *.
    assert (Hy0 : y 0%nat = 0).
    { unfold y, vsub. rewrite H0, Hraw. cbn. lra. }
    assert (Hy1 : y 1%nat = 0).
    { unfold y, vsub. rewrite H1, Hraw. cbn. lra. }
    split.
    + intros r. rewrite Hx. unfold vadd, mvmul. rewrite sum_upto_2, Hy0, Hy1.
      cbn [Num.add Num.mul R_arith]. ring.
    + rewrite Hnis. unfold dot. rewrite !sum_upto_2, Hy0, Hy1.
      cbn [Num.add Num.mul R_arith]. ring.
  - destruct (UpdateRadar_run m u) as [(_ & u' & E & _) | (Hlen & _)];
      [|exfalso; apply Hlen; rewrite Hraw; reflexivity].
    assert (E' : final (UpdateRadar m u) = Ok u') by (unfold final; rewrite E; reflexivity).
    exists u'. split; [exact E'|].
    destruct (UpdateRadar_state m u E') as (_ & Hx & _ & Hnis).
    set (z0 := vsub (of_list (raw_measurements_ m)) (RadarZpred u)) in *.
    assert (Hz : forall j, (j < 3)%nat -> z0 j = 0).
    { intros j Hj. unfold z0, vsub. rewrite Hraw.
      do 3 (destruct j as [|j]; [cbn; lra|]). lia. }
    set (z_diff := vset z0 1 (normalize_angle (z0 1%nat))) in *.
    assert (Hd : forall j, (j < 3)%nat -> z_diff j = 0).
    { intros j Hj. unfold z_diff, vset.
      destruct (Nat.eqb j 1); [rewrite Hz by lia; apply normalize_angle_0 | apply Hz; exact Hj]. }
    split.
    + intros r. rewrite Hx. unfold vadd, mvmul. rewrite sum_upto_3, !Hd by lia.
      cbn [Num.add Num.mul R_arith]. ring.
    + rewrite Hnis. unfold dot. rewrite !sum_upto_3, !Hd by lia.
      cbn [Num.add Num.mul R_arith]. ring.
Qed.

(** The hypothesis of the lidar part holds of the measurement (5, 3) that
    reaches [after_first_lidar], whose state is (5, 3, 0, 0, 0). *)
Lemma update_without_innovation_keeps_the_state_witness :
  raw_measurements_ (lidar_at 2000000 5 3)
    = [x_ after_first_lidar 0%nat; x_ after_first_lidar 1%nat] /\
  exists u', final (UpdateLidar (lidar_at 2000000 5 3) after_first_lidar) = Ok u' /\
             x_ u' 0%nat = 5 /\ NIS_laser_ u' = 0.
Proof.
  assert (H : raw_measurements_ (lidar_at 2000000 5 3)
              = [x_ after_first_lidar 0%nat; x_ after_first_lidar 1%nat]) by reflexivity.
  split; [exact H|].
  destruct (update_without_innovation_keeps_the_state after_first_lidar
              (lidar_at 2000000 5 3)) as (G & _).
  destruct (G H) as (u' & E & Hx & Hn).
  exists u'. split; [exact E|]. split; [rewrite Hx; reflexivity | exact Hn].
Defined.


(** The innovation covariance of [UpdateLidar]: the position block of [P_]
    plus the two noise variances. *)
Lemma LidarS_entries (u : UKF R) :
  LidarS u 0%nat 0%nat = P_ u 0%nat 0%nat + std_laspx_ u * std_laspx_ u /\
  LidarS u 0%nat 1%nat = P_ u 0%nat 1%nat /\
  LidarS u 1%nat 0%nat = P_ u 1%nat 0%nat /\
  LidarS u 1%nat 1%nat = P_ u 1%nat 1%nat + std_laspy_ u * std_laspy_ u.
Proof.
  unfold LidarS, madd, mmul. rewrite !sum_upto_5.
  unfold LidarH, transpose, mcomma.
  cbn [nth Num.add Num.mul of_Z R_arith]. repeat split; ring.
Qed.

(** As long as the position block of [P_] is symmetric and positive
    semi-definite and the lidar noise is not zero, the matrix S that
    [UpdateLidar] inverts has a positive determinant and an inverse: a
    singular S can only come from a covariance that has lost positive
    semi-definiteness. *)
Theorem lidar_S_is_invertible_on_a_psd_position_block (u : UKF R) :
  std_laspx_ u <> 0 -> std_laspy_ u <> 0 ->
  0 <= P_ u 0%nat 0%nat -> 0 <= P_ u 1%nat 1%nat ->
  P_ u 0%nat 1%nat = P_ u 1%nat 0%nat ->
  P_ u 0%nat 1%nat * P_ u 1%nat 0%nat <= P_ u 0%nat 0%nat * P_ u 1%nat 1%nat ->
  let S := LidarS u in
  0 < S 0%nat 0%nat * S 1%nat 1%nat - S 0%nat 1%nat * S 1%nat 0%nat /\
  exists Sinv : @MatrixXd R,
    forall i j, (i < 2)%nat -> (j < 2)%nat ->
      mmul 2 S Sinv i j = Identity i j /\ mmul 2 Sinv S i j = Identity i j.
Proof.
  intros Hx Hy H00 H11 Hsym Hpsd S.
  destruct (LidarS_entries u) as (E00 & E01 & E10 & E11). fold S in E00, E01, E10, E11.
  assert (Ha : 0 < std_laspx_ u * std_laspx_ u) by nra.
  assert (Hb : 0 < std_laspy_ u * std_laspy_ u) by nra.
  assert (Hdet : 0 < S 0%nat 0%nat * S 1%nat 1%nat - S 0%nat 1%nat * S 1%nat 0%nat).
  { rewrite E00, E01, E10, E11. nra. }
  split; [exact Hdet|].
  set (det := S 0%nat 0%nat * S 1%nat 1%nat - S 0%nat 1%nat * S 1%nat 0%nat) in *.
  exists (mcomma [ [S 1%nat 1%nat / det; - S 0%nat 1%nat / det];
                   [- S 1%nat 0%nat / det; S 0%nat 0%nat / det] ]).
  intros i j Hi Hj. unfold mmul. rewrite !sum_upto_2. unfold mcomma, Identity.
  destruct i as [|[|i]]; [| |lia]; (destruct j as [|[|j]]; [| |lia]);
    cbn [nth Nat.eqb Num.add Num.mul of_Z R_arith]; unfold det;
    split; field; fold det; lra.
Qed.

(** The hypotheses hold of the covariance of the constructor. *)
Lemma lidar_S_is_invertible_on_a_psd_position_block_witness :
  std_laspx_ after_first_lidar <> 0 /\
  0 <= P_ after_first_lidar 0%nat 0%nat /\
  0 < LidarS after_first_lidar 0%nat 0%nat * LidarS after_first_lidar 1%nat 1%nat
      - LidarS after_first_lidar 0%nat 1%nat * LidarS after_first_lidar 1%nat 0%nat.
Proof.
  assert (Hs : (0.15 : R) <> 0) by lra.
  assert (H0 : 0 <= (1 : R)) by lra.
  assert (H1 : (0 : R) * 0 <= 1 * 1) by lra.
  split; [exact Hs|]. split; [exact H0|].
  apply (lidar_S_is_invertible_on_a_psd_position_block after_first_lidar
           Hs Hs H0 H0 eq_refl H1).
Defined.

(** *** Symmetry of the covariance *)

(** The covariance that [Prediction] leaves is symmetric: it is a sum of
    weighted outer products of a vector with itself. *)
Theorem predicted_covariance_is_symmetric (u : UKF R) (delta_t : R) :
  exists u', final (Prediction delta_t u) = Ok u' /\
             forall i j, P_ u' i j = P_ u' j i.
Proof.
  unfold Prediction, final, bind, enter, modify, get. cbn [fst snd].
  eexists. split; [reflexivity|].
  unfold PredictMeanAndCovariance.
  apply for_loop_invariant with (I := fun t : UKF R => forall i j, P_ t i j = P_ t j i).
  - intros i j. reflexivity.
  - intros k t _ Ht i j. cbn [P_ set_P_]. unfold madd, outer, vscale, vset.
    cbn [Num.add Num.mul R_arith]. rewrite (Ht i j). ring.
Qed.

Lemma RadarS_symmetric (u : UKF R) (i j : nat) :
  (i < 3)%nat -> (j < 3)%nat -> RadarS u i j = RadarS u j i.
Proof.
  intros Hi Hj. unfold RadarS, madd. cbn [Num.add R_arith].
  assert (H : forall a b, fst (RadarST u) a b = fst (RadarST u) b a).
  { unfold RadarST.
    apply for_loop_invariant
      with (I := fun st : @MatrixXd R * @MatrixXd R => forall a b, fst st a b = fst st b a).
    - intros a b. reflexivity.
    - intros k [S_ T_] _ Hst a b. cbn [fst] in Hst. unfold RadarCovariances. cbn [fst].
      unfold madd, outer, vscale. cbn [Num.add Num.mul R_arith]. rewrite (Hst a b). ring. }
  rewrite (H i j). f_equal. unfold mcomma.
  destruct i as [|[|[|i]]]; [| | |lia]; (destruct j as [|[|[|j]]]; [| | |lia]);
    reflexivity.
Qed.

(** [UpdateRadar] keeps a symmetric covariance symmetric, whatever Eigen's
    inverse returns: it subtracts K S K^T, and S is symmetric. *)
Theorem radar_update_keeps_the_covariance_symmetric
    {Inv : Inverse R} (u : UKF R) (m : MeasurementPackage R) (u' : UKF R) :
  final (UpdateRadar m u) = Ok u' ->
  symmetric 5 (P_ u) -> symmetric 5 (P_ u').
Proof.
  intros E HP i j Hi Hj.
  destruct (UpdateRadar_state m u E) as (_ & _ & HP' & _).
  rewrite HP'. unfold msub, mmul, transpose. rewrite !sum_upto_3.
  cbn [Num.add Num.sub Num.mul R_arith].
  rewrite (HP i j Hi Hj).
  rewrite (@RadarS_symmetric u 1 0), (@RadarS_symmetric u 2 0), (@RadarS_symmetric u 2 1)
    by lia.
  ring.
Qed.

(** The hypotheses hold of a radar update of [after_first_lidar], whose
    covariance is the diagonal one of the constructor. *)
Lemma radar_update_keeps_the_covariance_symmetric_witness :
  symmetric 5 (P_ after_first_lidar) /\
  exists u', final (UpdateRadar (radar_at 2000000 1 0 0) after_first_lidar) = Ok u' /\
             symmetric 5 (P_ u').
Proof.
  assert (HP : symmetric 5 (P_ after_first_lidar)).
  { intros i j Hi Hj.
    do 5 (destruct i as [|i]; [do 5 (destruct j as [|j]; [reflexivity|]); lia|]). lia. }
  split; [exact HP|].
  destruct (UpdateRadar_run (radar_at 2000000 1 0 0) after_first_lidar)
    as [(_ & u' & E & _) | (Hlen & _)]; [|exfalso; apply Hlen; reflexivity].
  assert (E' : final (UpdateRadar (radar_at 2000000 1 0 0) after_first_lidar) = Ok u')
    by (unfold final; rewrite E; reflexivity).
  exists u'. split; [exact E'|].
  exact (radar_update_keeps_the_covariance_symmetric _ _ E' HP).
Defined.


(** *** A clamped sigma point *)

Lemma sqrt_of_two_hundredths : sqrt (0.01 * 0.01 + 0.01 * 0.01) = sqrt 2 / 100.
Proof.
  assert (H2 : 0 <= sqrt 2) by apply sqrt_pos.
  replace (0.01 * 0.01 + 0.01 * 0.01) with ((sqrt 2 / 100) * (sqrt 2 / 100)).
  - apply sqrt_square. lra.
  - replace (sqrt 2 / 100 * (sqrt 2 / 100)) with (sqrt 2 * sqrt 2 / 10000) by field.
    rewrite sqrt_sqrt by lra. lra.
Qed.

(** A sigma point that the first loop of [UpdateRadar] clamps is seen at the
    same place whatever side of the origin it was on: its range is
    sqrt(2)/100, its bearing is PI/4, and its range rate is
    v (cos(yaw) + sin(yaw)) / sqrt(2). *)
Theorem clamped_sigma_point_is_seen_at_a_fixed_place (u : UKF R) (c : nat) :
  (c < Z.to_nat (2 * n_aug_ u + 1))%nat ->
  Rabs (Xsig_pred_ u 0%nat c) < 0.001 -> Rabs (Xsig_pred_ u 1%nat c) < 0.001 ->
  let n := Z.to_nat (2 * n_aug_ u + 1) in
  let Zsig_pred := snd (for_loop n RadarSigmaPoint (Xsig_pred_ u, MatrixXd_new)) in
  Zsig_pred 0%nat c = sqrt 2 / 100 /\
  Zsig_pred 1%nat c = PI / 4 /\
  Zsig_pred 2%nat c
    = Xsig_pred_ u 2%nat c
      * (cos (Xsig_pred_ u 3%nat c) + sin (Xsig_pred_ u 3%nat c)) / sqrt 2.
Proof.
  intros Hc Hx Hy n Zsig_pred. unfold Zsig_pred.
  rewrite RadarSigmaPoint_loop. cbn [snd].
  assert (Hn : near_origin (Xsig_pred_ u) c = true)
    by (apply near_origin_true; split; assumption).
  unfold measurement_space, clamped.
  replace (Nat.ltb c n) with true by (symmetry; apply Nat.ltb_lt; exact Hc).
  rewrite Hn. cbn [andb Nat.ltb Nat.leb].
  cbn [Num.sqrt Num.add Num.mul Num.div lit R_arith Num.atan2 Num.sin Num.cos R_libm].
  rewrite sqrt_of_two_hundredths.
  assert (H2 : 0 < sqrt 2) by (apply sqrt_lt_R0; lra).
  split; [reflexivity|]. split.
  - unfold Ratan2. destruct (Rlt_dec 0 0.01) as [_|H]; [|lra].
    replace (0.01 / 0.01) with 1 by lra. apply atan_1.
  - replace 0.01 with (1 / 100) by lra. field. lra.
Qed.

(** The hypotheses hold of sigma point 0 of [after_first_lidar], which is at
    the origin. *)
Lemma clamped_sigma_point_is_seen_at_a_fixed_place_witness :
  (0 < Z.to_nat (2 * n_aug_ after_first_lidar + 1))%nat /\
  Rabs (Xsig_pred_ after_first_lidar 0%nat 0%nat) < 0.001 /\
  snd (for_loop 15 RadarSigmaPoint (Xsig_pred_ after_first_lidar, MatrixXd_new))
      1%nat 0%nat = PI / 4.
Proof.
  assert (Hc : (0 < Z.to_nat (2 * n_aug_ after_first_lidar + 1))%nat) by (cbn; lia).
  assert (H0 : Rabs 0 < 0.001) by (rewrite Rabs_R0; lra).
  split; [exact Hc|]. split; [exact H0|].
  apply (@clamped_sigma_point_is_seen_at_a_fixed_place after_first_lidar 0%nat Hc H0 H0).
Defined.


(** *** The linear part of the process model *)

(** Speed, yaw and yaw rate of a predicted sigma point are linear in the
    augmented sigma point. *)
Lemma PredictSigmaPoint_linear_rows (delta_t : R) (Xsig_aug X : @MatrixXd R) (c : nat) :
  PredictSigmaPoint delta_t Xsig_aug c X 2%nat c
    = Xsig_aug 2%nat c + delta_t * Xsig_aug 5%nat c /\
  PredictSigmaPoint delta_t Xsig_aug c X 3%nat c
    = Xsig_aug 3%nat c + Xsig_aug 4%nat c * delta_t
      + 0.5 * delta_t * delta_t * Xsig_aug 6%nat c /\
  PredictSigmaPoint delta_t Xsig_aug c X 4%nat c
    = Xsig_aug 4%nat c + delta_t * Xsig_aug 6%nat c.
Proof.
  unfold PredictSigmaPoint.
  destruct (Num.ltb _ _); unfold mset; rewrite !Nat.eqb_refl; repeat split.
Qed.

(** The unscented transform is exact on the linear part of the process
    model: whatever the elapsed time and the Cholesky factor are,
    [Prediction] leaves the speed and the yaw rate of the state as they were
    and advances the yaw by yaw rate times elapsed time, because the weights
    sum to one and the spreads of mirrored sigma points cancel. *)
Theorem prediction_is_exact_on_speed_and_yaw
    {Llt : Cholesky R} (u : UKF R) (delta_t : R) :
  n_x_ u = 5%Z -> n_aug_ u = 7%Z ->
  exists u', final (Prediction delta_t u) = Ok u' /\
             x_ u' 2%nat = x_ u 2%nat /\
             x_ u' 3%nat = x_ u 3%nat + x_ u 4%nat * delta_t /\
             x_ u' 4%nat = x_ u 4%nat.
Proof.
  intros H5 H7.
  destruct (Prediction_leaves delta_t u) as (u' & E & _ & Hw & HX).
  exists u'. split; [exact E|].
  cbv zeta in Hw, HX. rewrite H7 in Hw, HX.
  change (Z.to_nat (2 * 7 + 1)) with 15%nat in Hw, HX.
  cbn [of_Z Num.div Num.add Num.mul R_arith] in Hw, HX.
  set (u1 := set_lambda_ (IZR (3 - 7)) u) in *.
  set (Xa := AugmentedSigmaPoints u1) in *.
  assert (HXc : forall c, (c < 15)%nat ->
            Xsig_pred_ u' 2%nat c = Xa 2%nat c + delta_t * Xa 5%nat c /\
            Xsig_pred_ u' 3%nat c
              = Xa 3%nat c + Xa 4%nat c * delta_t + 0.5 * delta_t * delta_t * Xa 6%nat c /\
            Xsig_pred_ u' 4%nat c = Xa 4%nat c + delta_t * Xa 6%nat c).
  { intros c Hc. rewrite !HX.
    replace (Nat.ltb c 15) with true by (symmetry; apply Nat.ltb_lt; exact Hc).
    cbn [andb Nat.ltb Nat.leb]. apply PredictSigmaPoint_linear_rows. }
  assert (Hsym : forall r i, (r < 7)%nat -> (i < 7)%nat ->
            Xa r 0%nat
              = nth r [x_ u 0%nat; x_ u 1%nat; x_ u 2%nat; x_ u 3%nat; x_ u 4%nat; 0; 0] 0 /\
            Xa r (i + 8)%nat = 2 * Xa r 0%nat - Xa r (i + 1)%nat).
  { intros r i Hr Hi.
    destruct (@AugmentedSigmaPoints_mirrored _ u1 i r H5 H7 Hi Hr) as (Ha & Hb).
    split; [exact Ha | fold Xa in Hb; lra]. }
  assert (Hrow : forall r, (r < 7)%nat ->
            Xa r 0%nat
              = nth r [x_ u 0%nat; x_ u 1%nat; x_ u 2%nat; x_ u 3%nat; x_ u 4%nat; 0; 0] 0 /\
            Xa r 8%nat = 2 * Xa r 0%nat - Xa r 1%nat /\
            Xa r 9%nat = 2 * Xa r 0%nat - Xa r 2%nat /\
            Xa r 10%nat = 2 * Xa r 0%nat - Xa r 3%nat /\
            Xa r 11%nat = 2 * Xa r 0%nat - Xa r 4%nat /\
            Xa r 12%nat = 2 * Xa r 0%nat - Xa r 5%nat /\
            Xa r 13%nat = 2 * Xa r 0%nat - Xa r 6%nat /\
            Xa r 14%nat = 2 * Xa r 0%nat - Xa r 7%nat).
  { intros r Hr.
    split; [apply (Hsym r 0%nat Hr); lia|].
    split; [apply (Hsym r 0%nat Hr); lia|].
    split; [apply (Hsym r 1%nat Hr); lia|].
    split; [apply (Hsym r 2%nat Hr); lia|].
    split; [apply (Hsym r 3%nat Hr); lia|].
    split; [apply (Hsym r 4%nat Hr); lia|].
    split; [apply (Hsym r 5%nat Hr); lia|].
    apply (Hsym r 6%nat Hr); lia. }
  destruct (Hrow 2%nat) as (M2 & A2 & B2 & C2 & D2 & E2 & F2 & G2); [lia|].
  destruct (Hrow 3%nat) as (M3 & A3 & B3 & C3 & D3 & E3 & F3 & G3); [lia|].
  destruct (Hrow 4%nat) as (M4 & A4 & B4 & C4 & D4 & E4 & F4 & G4); [lia|].
  destruct (Hrow 5%nat) as (M5 & A5 & B5 & C5 & D5 & E5 & F5 & G5); [lia|].
  destruct (Hrow 6%nat) as (M6 & A6 & B6 & C6 & D6 & E6 & F6 & G6); [lia|].
  cbn [nth] in M2, M3, M4, M5, M6.
  assert (Hsum : forall r,
            x_ u' r
            = 0.0 + IZR (3 - 7) / (IZR (3 - 7) + IZR 7) * Xsig_pred_ u' r 0%nat
              + 1 / (2 * (IZR (3 - 7) + IZR 7)) * Xsig_pred_ u' r 1%nat
              + 1 / (2 * (IZR (3 - 7) + IZR 7)) * Xsig_pred_ u' r 2%nat
              + 1 / (2 * (IZR (3 - 7) + IZR 7)) * Xsig_pred_ u' r 3%nat
              + 1 / (2 * (IZR (3 - 7) + IZR 7)) * Xsig_pred_ u' r 4%nat
              + 1 / (2 * (IZR (3 - 7) + IZR 7)) * Xsig_pred_ u' r 5%nat
              + 1 / (2 * (IZR (3 - 7) + IZR 7)) * Xsig_pred_ u' r 6%nat
              + 1 / (2 * (IZR (3 - 7) + IZR 7)) * Xsig_pred_ u' r 7%nat
              + 1 / (2 * (IZR (3 - 7) + IZR 7)) * Xsig_pred_ u' r 8%nat
              + 1 / (2 * (IZR (3 - 7) + IZR 7)) * Xsig_pred_ u' r 9%nat
              + 1 / (2 * (IZR (3 - 7) + IZR 7)) * Xsig_pred_ u' r 10%nat
              + 1 / (2 * (IZR (3 - 7) + IZR 7)) * Xsig_pred_ u' r 11%nat
              + 1 / (2 * (IZR (3 - 7) + IZR 7)) * Xsig_pred_ u' r 12%nat
              + 1 / (2 * (IZR (3 - 7) + IZR 7)) * Xsig_pred_ u' r 13%nat
              + 1 / (2 * (IZR (3 - 7) + IZR 7)) * Xsig_pred_ u' r 14%nat).
  { intros r. rewrite (Prediction_mean r E), H7.
    change (Z.to_nat (2 * 7 + 1)) with 15%nat.
    unfold for_loop. cbn [seq fold_left]. cbn [Num.add Num.mul lit R_arith].
    rewrite !Hw. reflexivity. }
  change (3 - 7)%Z with (-4)%Z in Hsum.
  destruct (HXc 0%nat) as (P0 & Q0 & R0); [lia|].
  destruct (HXc 1%nat) as (P1 & Q1 & R1); [lia|].
  destruct (HXc 2%nat) as (P2 & Q2 & R2); [lia|].
  destruct (HXc 3%nat) as (P3 & Q3 & R3); [lia|].
  destruct (HXc 4%nat) as (P4 & Q4 & R4); [lia|].
  destruct (HXc 5%nat) as (P5 & Q5 & R5); [lia|].
  destruct (HXc 6%nat) as (P6 & Q6 & R6); [lia|].
  destruct (HXc 7%nat) as (P7 & Q7 & R7); [lia|].
  destruct (HXc 8%nat) as (P8 & Q8 & R8); [lia|].
  destruct (HXc 9%nat) as (P9 & Q9 & R9); [lia|].
  destruct (HXc 10%nat) as (P10 & Q10 & R10); [lia|].
  destruct (HXc 11%nat) as (P11 & Q11 & R11); [lia|].
  destruct (HXc 12%nat) as (P12 & Q12 & R12); [lia|].
  destruct (HXc 13%nat) as (P13 & Q13 & R13); [lia|].
  destruct (HXc 14%nat) as (P14 & Q14 & R14); [lia|].
  split; [|split].
  - rewrite (Hsum 2%nat), P0, P1, P2, P3, P4, P5, P6, P7, P8, P9, P10, P11, P12, P13, P14.
    rewrite A2, B2, C2, D2, E2, F2, G2, A5, B5, C5, D5, E5, F5, G5, M2, M5. lra.
  - rewrite (Hsum 3%nat), Q0, Q1, Q2, Q3, Q4, Q5, Q6, Q7, Q8, Q9, Q10, Q11, Q12, Q13, Q14.
    rewrite A3, B3, C3, D3, E3, F3, G3, A4, B4, C4, D4, E4, F4, G4,
            A6, B6, C6, D6, E6, F6, G6, M3, M4, M6. lra.
  - rewrite (Hsum 4%nat), R0, R1, R2, R3, R4, R5, R6, R7, R8, R9, R10, R11, R12, R13, R14.
    rewrite A4, B4, C4, D4, E4, F4, G4, A6, B6, C6, D6, E6, F6, G6, M4, M6. lra.
Qed.

(** The hypotheses of the theorem hold of the filter [cruising], whose speed
    stays 10 over two seconds. *)
Lemma prediction_is_exact_on_speed_and_yaw_witness :
  n_x_ cruising = 5%Z /\ n_aug_ cruising = 7%Z /\
  exists u', final (Prediction 2 cruising) = Ok u' /\ x_ u' 2%nat = 10.
Proof.
  split; [reflexivity|]. split; [reflexivity|].
  destruct (prediction_is_exact_on_speed_and_yaw cruising 2 eq_refl eq_refl)
    as (u' & E & H & _).
  exists u'. split; [exact E|]. rewrite H. reflexivity.
Defined.


(** *** Symmetry under the lidar update *)

(** On a diagonal 2 x 2 matrix without zero on the diagonal, Gauss-Jordan
    elimination returns a right inverse. *)
Lemma gauss_jordan_inverts_a_diagonal (S : @MatrixXd R) (i j : nat) :
  S 0%nat 0%nat <> 0 -> S 1%nat 1%nat <> 0 -> S 0%nat 1%nat = 0 -> S 1%nat 0%nat = 0 ->
  (i < 2)%nat -> (j < 2)%nat ->
  mmul 2 S (Textbook.gauss_jordan_inverse 2 S) i j = Identity i j.
Proof.
  intros H00 H11 H01 H10 Hi Hj.
  unfold mmul. rewrite sum_upto_2.
  unfold Textbook.gauss_jordan_inverse.
  unfold for_loop. cbn [seq fold_left].
  unfold Textbook.gauss_jordan_step, Textbook.pivot_row, for_range.
  cbn [Nat.add Nat.sub seq fold_left snd].
  assert (Hp : Num.ltb (Num.fabs (S 0%nat 0%nat)) (Num.fabs (S 1%nat 0%nat)) = false).
  { apply Rltb_false. cbn [Num.fabs R_arith]. rewrite H10, Rabs_R0.
    pose proof (Rabs_pos (S 0%nat 0%nat)). lra. }
  rewrite Hp. unfold Textbook.swap_rows, Identity.
  destruct i as [|[|i]]; [| |lia]; (destruct j as [|[|j]]; [| |lia]);
    cbn [Nat.eqb Num.add Num.sub Num.mul Num.div of_Z R_arith];
    rewrite ?H01, ?H10; field; auto.
Qed.

(** A right inverse of a symmetric 2 x 2 matrix is symmetric. *)
Lemma right_inverse_of_symmetric_is_symmetric (S Sinv : @MatrixXd R) :
  S 0%nat 1%nat = S 1%nat 0%nat ->
  (forall i j, (i < 2)%nat -> (j < 2)%nat -> mmul 2 S Sinv i j = Identity i j) ->
  Sinv 0%nat 1%nat = Sinv 1%nat 0%nat.
Proof.
  intros Hs Hinv.
  pose proof (Hinv 0%nat 0%nat) as E1. pose proof (Hinv 0%nat 1%nat) as E2.
  pose proof (Hinv 1%nat 0%nat) as E3. pose proof (Hinv 1%nat 1%nat) as E4.
  unfold mmul, Identity in E1, E2, E3, E4. rewrite sum_upto_2 in E1, E2, E3, E4.
  cbn [Nat.eqb Num.add Num.mul of_Z R_arith] in E1, E2, E3, E4.
  specialize (E1 ltac:(lia) ltac:(lia)). specialize (E2 ltac:(lia) ltac:(lia)).
  specialize (E3 ltac:(lia) ltac:(lia)). specialize (E4 ltac:(lia) ltac:(lia)).
  set (a00 := Sinv 0%nat 0%nat) in *. set (a01 := Sinv 0%nat 1%nat) in *.
  set (a10 := Sinv 1%nat 0%nat) in *. set (a11 := Sinv 1%nat 1%nat) in *.
  set (s00 := S 0%nat 0%nat) in *. set (s01 := S 0%nat 1%nat) in *.
  set (s10 := S 1%nat 0%nat) in *. set (s11 := S 1%nat 1%nat) in *.
  assert (G : a01 - a10
              = a01 * (0 + s00 * a00 + s01 * a10) - a10 * (0 + s10 * a01 + s11 * a11)
                - a00 * (0 + s00 * a01 + s01 * a11) + a11 * (0 + s10 * a00 + s11 * a10)).
  { rewrite E1, E2, E3, E4. ring. }
  assert (Z0 : a01 * (0 + s00 * a00 + s01 * a10) - a10 * (0 + s10 * a01 + s11 * a11)
               - a00 * (0 + s00 * a01 + s01 * a11) + a11 * (0 + s10 * a00 + s11 * a10) = 0).
  { rewrite Hs. ring. }
  lra.
Qed.

(** [UpdateLidar] keeps a symmetric covariance symmetric as long as what
    Eigen's [inverse()] returns for S is a right inverse of S: the update is
    P - P H^T S^-1 H P, and the inverse of the symmetric S is symmetric. *)
Theorem lidar_update_keeps_the_covariance_symmetric
    (u : UKF R) (m : MeasurementPackage R) (u' : UKF R) :
  final (UpdateLidar m u) = Ok u' ->
  symmetric 5 (P_ u) ->
  (forall i j, (i < 2)%nat -> (j < 2)%nat ->
     mmul 2 (LidarS u) (inverse 2 (LidarS u)) i j = Identity i j) ->
  symmetric 5 (P_ u').
Proof.
  intros E HP Hinv i j Hi Hj.
  destruct (UpdateLidar_state m u E) as (_ & _ & HP' & _).
  assert (Hs : LidarS u 0%nat 1%nat = LidarS u 1%nat 0%nat).
  { destruct (LidarS_entries u) as (_ & E01 & E10 & _). rewrite E01, E10.
    apply HP; lia. }
  pose proof (right_inverse_of_symmetric_is_symmetric Hs Hinv) as Ha.
  rewrite HP'. unfold LidarK.
  set (Sinv := inverse 2 (LidarS u)) in *.
  set (P := P_ u) in *.
  assert (S10 : P 1%nat 0%nat = P 0%nat 1%nat) by (apply HP; lia).
  assert (S20 : P 2%nat 0%nat = P 0%nat 2%nat) by (apply HP; lia).
  assert (S30 : P 3%nat 0%nat = P 0%nat 3%nat) by (apply HP; lia).
  assert (S40 : P 4%nat 0%nat = P 0%nat 4%nat) by (apply HP; lia).
  assert (S21 : P 2%nat 1%nat = P 1%nat 2%nat) by (apply HP; lia).
  assert (S31 : P 3%nat 1%nat = P 1%nat 3%nat) by (apply HP; lia).
  assert (S41 : P 4%nat 1%nat = P 1%nat 4%nat) by (apply HP; lia).
  assert (S32 : P 3%nat 2%nat = P 2%nat 3%nat) by (apply HP; lia).
  assert (S42 : P 4%nat 2%nat = P 2%nat 4%nat) by (apply HP; lia).
  assert (S43 : P 4%nat 3%nat = P 3%nat 4%nat) by (apply HP; lia).
  unfold mmul, msub. rewrite !sum_upto_5.
  cbn [Num.add Num.sub Num.mul R_arith]. rewrite !sum_upto_2.
  cbn [Num.add Num.sub Num.mul R_arith]. rewrite !sum_upto_5.
  unfold LidarH, transpose, mcomma, Identity.
  do 5 (destruct i as [|i];
        [do 5 (destruct j as [|j];
               [cbn [nth Nat.eqb Num.add Num.sub Num.mul of_Z R_arith];
                rewrite ?S10, ?S20, ?S30, ?S40, ?S21, ?S31, ?S41, ?S32, ?S42, ?S43, Ha;
                ring|]); lia|]).
  lia.
Qed.

(** The hypotheses hold of a lidar update of [after_first_lidar], whose
    covariance is the diagonal one of the constructor. *)
Lemma lidar_update_keeps_the_covariance_symmetric_witness :
  symmetric 5 (P_ after_first_lidar) /\
  exists u', final (UpdateLidar (lidar_at 2000000 6 3) after_first_lidar) = Ok u' /\
             symmetric 5 (P_ u').
Proof.
  assert (HP : symmetric 5 (P_ after_first_lidar)).
  { intros i j Hi Hj.
    do 5 (destruct i as [|i]; [do 5 (destruct j as [|j]; [reflexivity|]); lia|]). lia. }
  assert (Hinv : forall i j, (i < 2)%nat -> (j < 2)%nat ->
            mmul 2 (LidarS after_first_lidar) (inverse 2 (LidarS after_first_lidar)) i j
            = Identity i j).
  { intros i j Hi Hj.
    destruct (LidarS_entries after_first_lidar) as (E00 & E01 & E10 & E11).
    apply gauss_jordan_inverts_a_diagonal;
      [rewrite E00; cbn; lra | rewrite E11; cbn; lra | exact E01 | exact E10
      | exact Hi | exact Hj]. }
  split; [exact HP|].
  destruct (UpdateLidar_run (lidar_at 2000000 6 3) after_first_lidar)
    as [(_ & u' & E & _) | (Hlen & _)]; [|exfalso; apply Hlen; reflexivity].
  assert (E' : final (UpdateLidar (lidar_at 2000000 6 3) after_first_lidar) = Ok u')
    by (unfold final; rewrite E; reflexivity).
  exists u'. split; [exact E'|].
  exact (@lidar_update_keeps_the_covariance_symmetric after_first_lidar
           (lidar_at 2000000 6 3) u' E' HP Hinv).
Defined.


(** *** The hypotheses of the general properties are satisfiable *)

Lemma reachable_keeps_the_configuration_witness :
  reachable after_first_lidar /\ n_x_ after_first_lidar = 5%Z /\
  std_radphi_ after_first_lidar = 0.03.
Proof.
  split; [exact after_first_lidar_reachable|].
  destruct (reachable_keeps_the_configuration after_first_lidar_reachable)
    as (H5 & _ & _ & _ & _ & _ & _ & Hphi & _).
  split; [exact H5 | exact Hphi].
Defined.

Lemma elapsed_time_is_between_consecutive_measurements_witness :
  final (ProcessMeasurement (lidar_at 1000000 5 3) fresh) = Ok after_first_lidar /\
  exists rest,
    calls (ProcessMeasurement (radar_at 1500000 1 0 0) after_first_lidar)
    = CallPrediction (IZR (1500000 - 1000000) / 1000000.0) :: rest.
Proof.
  assert (E : final (ProcessMeasurement (lidar_at 1000000 5 3) fresh)
              = Ok after_first_lidar) by reflexivity.
  split; [exact E|].
  exact (proj2 (elapsed_time_is_between_consecutive_measurements
                  fresh (lidar_at 1000000 5 3) (radar_at 1500000 1 0 0) E)).
Defined.

(** Two lidar measurements in a row: the second call does not return. *)
Lemma sensors_must_take_turns_witness :
  reachable fresh /\
  final (ProcessMeasurement (lidar_at 1000000 5 3) fresh) = Ok after_first_lidar /\
  well_sized (lidar_at 1000000 5 3) /\ well_sized (lidar_at 2000000 6 3) /\
  ~ (exists u2, final (ProcessMeasurement (lidar_at 2000000 6 3) after_first_lidar)
                = Ok u2).
Proof.
  assert (Hr : reachable fresh) by apply reachable_ctor.
  assert (E : final (ProcessMeasurement (lidar_at 1000000 5 3) fresh)
              = Ok after_first_lidar) by reflexivity.
  assert (W1 : well_sized (lidar_at 1000000 5 3)) by reflexivity.
  assert (W2 : well_sized (lidar_at 2000000 6 3)) by reflexivity.
  split; [exact Hr|]. split; [exact E|]. split; [exact W1|]. split; [exact W2|].
  destruct (sensors_must_take_turns (m2 := lidar_at 2000000 6 3) Hr E W1 W2)
    as (_ & H).
  intros Hex. apply (proj1 H Hex). reflexivity.
Defined.

End RealExtras.
